(** * VaultbornStaking: confidential staking ledger and two-phase redemption

    A shallow embedding of [contracts/VaultbornStaking.sol] together with the
    parts of the contracts it inherits from (ERC721, ERC721Enumerable and
    ReentrancyGuard) that its entry points execute.  The choice of constructor
    arguments made by the deployment script is embedded as well.

    Conventions of the embedding:
    - [uint256], [address] and [bytes32] values are integers ([Z]); unchecked
      arithmetic is written with its wrap-around, checked arithmetic reverts
      with a panic;
    - a Solidity [mapping] is a finite map whose absent keys read as the zero
      value, and writing the zero value removes the key, so that two storages
      with the same contents are equal;
    - a call is a function from the state before the call to either a result
      with the state after it or a revert; a reverted call leaves the state it
      started from ([call]);
    - the FHE library, its access-control list and the decryption oracle are an
      interface ([FHEBackend]); the account called back during a transaction
      (token receipt hook, value transfer) answers through the transaction
      record ([Tx]) and is not allowed to call back into the contract. *)

From Stdlib Require Import ZArith List Lia String.
From Stdlib.Strings Require Import Byte.
From stdpp Require Import base decidable option list gmap.

Local Open Scope Z_scope.

(** ** Machine values *)

Abbreviation address := Z (only parsing).
Abbreviation uint256 := Z (only parsing).
Abbreviation bytes32 := Z (only parsing).
Abbreviation bytes := (list byte) (only parsing).

Definition MAX_UINT256 : Z := 2 ^ 256 - 1.

(** Unchecked [uint256] arithmetic wraps around. *)
Definition wrap256 (z : Z) : Z := z mod 2 ^ 256.

(** ** Reverts *)

Inductive Error :=
| ErrorString (reason : string)   (* require(cond, reason) *)
| CustomError (name : string)    (* revert SomeError(...) *)
| Panic (code : Z).              (* arithmetic overflow 0x11, array bounds 0x32 *)

Inductive result (A : Type) :=
| Ok (a : A)
| Revert (e : Error).
Arguments Ok {A} a.
Arguments Revert {A} e.

(** The error names used by the specification, as the code raises them. *)
Definition ZeroAmount : Error := ErrorString "Stake must be greater than zero".
Definition StakeNotFound : Error := ErrorString "Stake not found".
Definition InvalidCertificate : Error := ErrorString "Invalid token".
Definition Unauthorized : Error := ErrorString "Not authorized".
Definition RedemptionAlreadyPending : Error := ErrorString "Decryption pending".
Definition InvalidOracle : Error := ErrorString "Invalid oracle".
Definition UnknownRequest : Error := ErrorString "Unknown request".
Definition InvalidProof : Error := CustomError "InvalidKMSSignatures".
Definition TransferFailed : Error := ErrorString "Transfer failed".
Definition ReentrantCall : Error := CustomError "ReentrancyGuardReentrantCall".

(** [InvalidProof] is the error of the FHE library itself for signatures that
    do not verify; the KMS verifier it calls has its own, and a failed check
    reverts with whichever is raised ([verifier_error]). *)

(** ** State and error monad of a call *)

Definition M (S A : Type) : Type := S -> result (A * S).

Definition ret {S A} (a : A) : M S A := fun s => Ok (a, s).

Definition bind {S A B} (m : M S A) (k : A -> M S B) : M S B :=
  fun s => match m s with
           | Ok (a, s') => k a s'
           | Revert e => Revert e
           end.

Definition gets {S A} (f : S -> A) : M S A := fun s => Ok (f s, s).

Definition modify {S} (f : S -> S) : M S unit := fun s => Ok (tt, f s).

Definition revert {S A} (e : Error) : M S A := fun _ => Revert e.

Definition require {S} (cond : bool) (reason : string) : M S unit :=
  if cond then ret tt else revert (ErrorString reason).

Definition when {S} (cond : bool) (m : M S unit) : M S unit :=
  if cond then m else ret tt.

Notation "'let*' x ':=' m 'in' k" := (bind m (fun x => k))
  (at level 10, x pattern, m at level 100, k at level 200).
Notation "m ';;;' k" := (bind m (fun _ => k))
  (at level 100, k at level 200, right associativity).

(** Checked [uint256] arithmetic (Solidity 0.8) and bounds-checked arrays. *)
Definition checked_add {S} (a b : uint256) : M S uint256 :=
  if bool_decide (a + b <= MAX_UINT256) then ret (a + b) else revert (Panic 17).

Definition checked_sub {S} (a b : uint256) : M S uint256 :=
  if bool_decide (b <= a) then ret (a - b) else revert (Panic 17).

Definition array_read {S} (l : list Z) (i : uint256) : M S Z :=
  match l !! Z.to_nat i with
  | Some x => ret x
  | None => revert (Panic 50)
  end.

Definition array_write {S} (i : uint256) (x : Z) (l : list Z) : M S (list Z) :=
  if bool_decide (i < Z.of_nat (length l)) then ret (<[Z.to_nat i := x]> l)
  else revert (Panic 50).

(** ** Storage mappings *)

Section Mapping.
Context `{Countable K} {V : Type} `{EqDecision V}.

(** Reading a mapping: an absent key holds the zero value [d]. *)
Definition sload (d : V) (m : gmap K V) (k : K) : V := default d (m !! k).

(** Writing a mapping; [delete m[k]] is [sstore d k d]. *)
Definition sstore (d : V) (k : K) (v : V) (m : gmap K V) : gmap K V :=
  if decide (v = d) then delete k m else <[k := v]> m.
End Mapping.

(** [struct PendingWithdrawal] *)
Record PendingWithdrawal := {
  recipient : address;
  tokenId : uint256;
  exists_ : bool
}.

#[global] Instance PendingWithdrawal_eq_dec : EqDecision PendingWithdrawal.
Proof. solve_decision. Defined.

Definition noPending : PendingWithdrawal :=
  {| recipient := 0; tokenId := 0; exists_ := false |}.

(** ** The transaction context

    [sender] is [msg.sender].  [callee_ok] is the answer of the account that
    the transaction calls out to: for [stake] and [safeTransferFrom] whether
    the receiver of the certificate accepts it (an externally owned account
    always does, a contract does when [onERC721Received] returns its selector);
    for [onDecryptionFulfilled] whether the recipient accepts the value.
    [callee_error] is the reason a receiver that does not accept reverts with,
    when its [onERC721Received] reverts with one; there is none for a contract
    without the hook, for a hook that reverts without data or that returns
    another value. *)
Record Tx := {
  sender : address;
  callee_ok : bool;
  callee_error : option Error
}.

(** ** ERC721 and ERC721Enumerable (inherited) *)

Record ERC721 := {
  _owners : gmap Z Z;                   (* tokenId => owner *)
  _balances : gmap Z Z;                 (* owner => number of tokens *)
  _tokenApprovals : gmap Z Z;           (* tokenId => approved address *)
  _operatorApprovals : gmap (Z * Z) bool; (* owner => operator => approved *)
  _ownedTokens : gmap (Z * Z) Z;        (* owner => index => tokenId *)
  _ownedTokensIndex : gmap Z Z;         (* tokenId => index in the owner's list *)
  _allTokens : list Z;
  _allTokensIndex : gmap Z Z
}.

Definition set_owners (f : gmap Z Z -> gmap Z Z) (t : ERC721) : ERC721 :=
  {| _owners := f (_owners t); _balances := _balances t;
     _tokenApprovals := _tokenApprovals t;
     _operatorApprovals := _operatorApprovals t;
     _ownedTokens := _ownedTokens t; _ownedTokensIndex := _ownedTokensIndex t;
     _allTokens := _allTokens t; _allTokensIndex := _allTokensIndex t |}.

Definition set_balances (f : gmap Z Z -> gmap Z Z) (t : ERC721) : ERC721 :=
  {| _owners := _owners t; _balances := f (_balances t);
     _tokenApprovals := _tokenApprovals t;
     _operatorApprovals := _operatorApprovals t;
     _ownedTokens := _ownedTokens t; _ownedTokensIndex := _ownedTokensIndex t;
     _allTokens := _allTokens t; _allTokensIndex := _allTokensIndex t |}.

Definition set_tokenApprovals (f : gmap Z Z -> gmap Z Z) (t : ERC721) : ERC721 :=
  {| _owners := _owners t; _balances := _balances t;
     _tokenApprovals := f (_tokenApprovals t);
     _operatorApprovals := _operatorApprovals t;
     _ownedTokens := _ownedTokens t; _ownedTokensIndex := _ownedTokensIndex t;
     _allTokens := _allTokens t; _allTokensIndex := _allTokensIndex t |}.

Definition set_operatorApprovals
    (f : gmap (Z * Z) bool -> gmap (Z * Z) bool) (t : ERC721) : ERC721 :=
  {| _owners := _owners t; _balances := _balances t;
     _tokenApprovals := _tokenApprovals t;
     _operatorApprovals := f (_operatorApprovals t);
     _ownedTokens := _ownedTokens t; _ownedTokensIndex := _ownedTokensIndex t;
     _allTokens := _allTokens t; _allTokensIndex := _allTokensIndex t |}.

Definition set_ownedTokens
    (f : gmap (Z * Z) Z -> gmap (Z * Z) Z) (t : ERC721) : ERC721 :=
  {| _owners := _owners t; _balances := _balances t;
     _tokenApprovals := _tokenApprovals t;
     _operatorApprovals := _operatorApprovals t;
     _ownedTokens := f (_ownedTokens t);
     _ownedTokensIndex := _ownedTokensIndex t;
     _allTokens := _allTokens t; _allTokensIndex := _allTokensIndex t |}.

Definition set_ownedTokensIndex (f : gmap Z Z -> gmap Z Z) (t : ERC721) : ERC721 :=
  {| _owners := _owners t; _balances := _balances t;
     _tokenApprovals := _tokenApprovals t;
     _operatorApprovals := _operatorApprovals t;
     _ownedTokens := _ownedTokens t;
     _ownedTokensIndex := f (_ownedTokensIndex t);
     _allTokens := _allTokens t; _allTokensIndex := _allTokensIndex t |}.

Definition set_allTokens (f : list Z -> list Z) (t : ERC721) : ERC721 :=
  {| _owners := _owners t; _balances := _balances t;
     _tokenApprovals := _tokenApprovals t;
     _operatorApprovals := _operatorApprovals t;
     _ownedTokens := _ownedTokens t; _ownedTokensIndex := _ownedTokensIndex t;
     _allTokens := f (_allTokens t); _allTokensIndex := _allTokensIndex t |}.

Definition set_allTokensIndex (f : gmap Z Z -> gmap Z Z) (t : ERC721) : ERC721 :=
  {| _owners := _owners t; _balances := _balances t;
     _tokenApprovals := _tokenApprovals t;
     _operatorApprovals := _operatorApprovals t;
     _ownedTokens := _ownedTokens t; _ownedTokensIndex := _ownedTokensIndex t;
     _allTokens := _allTokens t; _allTokensIndex := f (_allTokensIndex t) |}.

(** The token storage after the ERC721 constructor. *)
Definition ERC721_init : ERC721 :=
  {| _owners := ∅; _balances := ∅; _tokenApprovals := ∅;
     _operatorApprovals := ∅; _ownedTokens := ∅; _ownedTokensIndex := ∅;
     _allTokens := []; _allTokensIndex := ∅ |}.

Definition _ownerOf (id : uint256) (t : ERC721) : address :=
  sload 0 (_owners t) id.

Definition _getApproved (id : uint256) (t : ERC721) : address :=
  sload 0 (_tokenApprovals t) id.

Definition isApprovedForAll (owner operator : address) (t : ERC721) : bool :=
  sload false (_operatorApprovals t) (owner, operator).

Definition _isAuthorized (owner spender : address) (id : uint256) (t : ERC721)
    : bool :=
  negb (bool_decide (spender = 0))
  && (bool_decide (owner = spender)
      || isApprovedForAll owner spender t
      || bool_decide (_getApproved id t = spender)).

Definition balanceOf (owner : address) : M ERC721 uint256 :=
  fun t =>
    if bool_decide (owner = 0) then Revert (CustomError "ERC721InvalidOwner")
    else Ok (sload 0 (_balances t) owner, t).

Definition _requireOwned (id : uint256) : M ERC721 address :=
  fun t =>
    if bool_decide (_ownerOf id t = 0)
    then Revert (CustomError "ERC721NonexistentToken")
    else Ok (_ownerOf id t, t).

Definition _checkAuthorized (owner spender : address) (id : uint256)
    : M ERC721 unit :=
  fun t =>
    if _isAuthorized owner spender id t then Ok (tt, t)
    else if bool_decide (owner = 0)
         then Revert (CustomError "ERC721NonexistentToken")
         else Revert (CustomError "ERC721InsufficientApproval").

Definition _approve (to : address) (id : uint256) (auth : address)
    (emitEvent : bool) : M ERC721 unit :=
  when (emitEvent || negb (bool_decide (auth = 0)))
    (let* owner := _requireOwned id in
     fun t =>
       if negb (bool_decide (auth = 0)) && negb (bool_decide (owner = auth))
          && negb (isApprovedForAll owner auth t)
       then Revert (CustomError "ERC721InvalidApprover")
       else Ok (tt, t)) ;;;
  modify (set_tokenApprovals (sstore 0 id to)).

Definition _setApprovalForAll (owner operator : address) (approved : bool)
    : M ERC721 unit :=
  if bool_decide (operator = 0) then revert (CustomError "ERC721InvalidOperator")
  else modify (set_operatorApprovals (sstore false (owner, operator) approved)).

(** [ERC721._update]: the balances are updated without overflow checks. *)
Definition ERC721_update (to : address) (id : uint256) (auth : address)
    : M ERC721 address :=
  let* from := gets (_ownerOf id) in
  when (negb (bool_decide (auth = 0))) (_checkAuthorized from auth id) ;;;
  when (negb (bool_decide (from = 0)))
    (_approve 0 id 0 false ;;;
     modify (fun t =>
       set_balances (sstore 0 from (wrap256 (sload 0 (_balances t) from - 1))) t)) ;;;
  when (negb (bool_decide (to = 0)))
    (modify (fun t =>
       set_balances (sstore 0 to (wrap256 (sload 0 (_balances t) to + 1))) t)) ;;;
  modify (set_owners (sstore 0 id to)) ;;;
  ret from.

Definition _addTokenToOwnerEnumeration (to : address) (id : uint256)
    : M ERC721 unit :=
  let* balance := balanceOf to in
  let* length := checked_sub balance 1 in
  modify (set_ownedTokens (sstore 0 (to, length) id)) ;;;
  modify (set_ownedTokensIndex (sstore 0 id length)).

Definition _addTokenToAllTokensEnumeration (id : uint256) : M ERC721 unit :=
  modify (fun t =>
    set_allTokensIndex (sstore 0 id (Z.of_nat (length (_allTokens t)))) t) ;;;
  modify (set_allTokens (fun l => l ++ [id])).

(** Swap and pop: the last token of [from] moves into the slot of [id]. *)
Definition _removeTokenFromOwnerEnumeration (from : address) (id : uint256)
    : M ERC721 unit :=
  let* lastTokenIndex := balanceOf from in
  let* tokenIndex := gets (fun t => sload 0 (_ownedTokensIndex t) id) in
  when (negb (bool_decide (tokenIndex = lastTokenIndex)))
    (let* lastTokenId :=
       gets (fun t => sload 0 (_ownedTokens t) (from, lastTokenIndex)) in
     modify (set_ownedTokens (sstore 0 (from, tokenIndex) lastTokenId)) ;;;
     modify (set_ownedTokensIndex (sstore 0 lastTokenId tokenIndex))) ;;;
  modify (set_ownedTokensIndex (sstore 0 id 0)) ;;;
  modify (set_ownedTokens (sstore 0 (from, lastTokenIndex) 0)).

Definition _removeTokenFromAllTokensEnumeration (id : uint256) : M ERC721 unit :=
  let* len := gets (fun t => Z.of_nat (length (_allTokens t))) in
  let* lastTokenIndex := checked_sub len 1 in
  let* tokenIndex := gets (fun t => sload 0 (_allTokensIndex t) id) in
  let* all := gets _allTokens in
  let* lastTokenId := array_read all lastTokenIndex in
  let* all' := array_write tokenIndex lastTokenId all in
  modify (set_allTokens (fun _ => all')) ;;;
  modify (set_allTokensIndex (sstore 0 lastTokenId tokenIndex)) ;;;
  modify (set_allTokensIndex (sstore 0 id 0)) ;;;
  modify (set_allTokens (fun l => removelast l)).

(** [ERC721Enumerable._update] *)
Definition _update (to : address) (id : uint256) (auth : address)
    : M ERC721 address :=
  let* previousOwner := ERC721_update to id auth in
  (if bool_decide (previousOwner = 0) then _addTokenToAllTokensEnumeration id
   else when (negb (bool_decide (previousOwner = to)))
          (_removeTokenFromOwnerEnumeration previousOwner id)) ;;;
  (if bool_decide (to = 0) then _removeTokenFromAllTokensEnumeration id
   else when (negb (bool_decide (previousOwner = to)))
          (_addTokenToOwnerEnumeration to id)) ;;;
  ret previousOwner.

(** The reason of the hook is passed on when there is one. *)
Definition checkOnERC721Received (tx : Tx) : M ERC721 unit :=
  if callee_ok tx then ret tt
  else match callee_error tx with
       | Some reason => revert reason
       | None => revert (CustomError "ERC721InvalidReceiver")
       end.

Definition _mint (to : address) (id : uint256) : M ERC721 unit :=
  if bool_decide (to = 0) then revert (CustomError "ERC721InvalidReceiver")
  else
    let* previousOwner := _update to id 0 in
    if bool_decide (previousOwner = 0) then ret tt
    else revert (CustomError "ERC721InvalidSender").

Definition _safeMint (tx : Tx) (to : address) (id : uint256) : M ERC721 unit :=
  _mint to id ;;; checkOnERC721Received tx.

Definition _burn (id : uint256) : M ERC721 unit :=
  let* previousOwner := _update 0 id 0 in
  if bool_decide (previousOwner = 0)
  then revert (CustomError "ERC721NonexistentToken")
  else ret tt.

Definition approve (tx : Tx) (to : address) (id : uint256) : M ERC721 unit :=
  _approve to id (sender tx) true.

Definition setApprovalForAll (tx : Tx) (operator : address) (approved : bool)
    : M ERC721 unit :=
  _setApprovalForAll (sender tx) operator approved.

Definition transferFrom (tx : Tx) (from to : address) (id : uint256)
    : M ERC721 unit :=
  if bool_decide (to = 0) then revert (CustomError "ERC721InvalidReceiver")
  else
    let* previousOwner := _update to id (sender tx) in
    if bool_decide (previousOwner = from) then ret tt
    else revert (CustomError "ERC721IncorrectOwner").

Definition safeTransferFrom (tx : Tx) (from to : address) (id : uint256)
    : M ERC721 unit :=
  transferFrom tx from to id ;;; checkOnERC721Received tx.

Definition tokenOfOwnerByIndex (owner : address) (index : uint256)
    : M ERC721 uint256 :=
  let* balance := balanceOf owner in
  if bool_decide (balance <= index)
  then revert (CustomError "ERC721OutOfBoundsIndex")
  else gets (fun t => sload 0 (_ownedTokens t) (owner, index)).

(** [tokensOf] fills the result array by increasing index. *)
Fixpoint tokensOf_loop (account : address) (n : nat) (i : uint256)
    : M ERC721 (list uint256) :=
  match n with
  | O => ret []
  | S n' =>
      let* id := tokenOfOwnerByIndex account i in
      let* rest := tokensOf_loop account n' (i + 1) in
      ret (id :: rest)
  end.

(** ** ABI coding of the cleartext: one big-endian 32-byte word *)

Definition be_uint (data : bytes) : Z :=
  fold_left (fun acc b => acc * 256 + Z.of_N (Byte.to_N b)) data 0.

(** [abi.decode(cleartexts, (uint256))] reverts on fewer than 32 bytes. *)
Definition abi_decode_uint256 (data : bytes) : option uint256 :=
  if bool_decide (length data < 32)%nat then None
  else Some (be_uint (take 32 data)).

Fixpoint be_bytes (n : nat) (z : Z) (acc : bytes) : bytes :=
  match n with
  | O => acc
  | S n' =>
      be_bytes n' (z / 256)
        (default x00 (Byte.of_N (Z.to_N (z mod 256))) :: acc)
  end.

Definition abi_encode_uint256 (v : uint256) : bytes := be_bytes 32 v [].

(** ** The FHE library, its access-control list and the decryption oracle

    [fhe] is the storage those hold on behalf of the contract.  The ledger
    never decrypts: it only creates handles, grants access, submits handles for
    decryption and has the returned cleartexts checked. *)
Class FHEBackend := {
  fhe : Type;
  fhe_init : fhe;
  (* FHE.asEuint256: the handle of the trivial encryption of a value *)
  asEuint256 : uint256 -> bytes32;
  (* FHE.allowThis and FHE.allow return the handle they are given *)
  allowThis : bytes32 -> fhe -> fhe;
  allow : bytes32 -> address -> fhe -> fhe;
  (* FHE.requestDecryption: the request identifier, or a failed oracle call *)
  requestDecryption : list bytes32 -> fhe -> option (uint256 * fhe);
  (* FHE.checkSignatures: do the cleartexts and the proof verify against the
     handles submitted under this request identifier *)
  checkSignatures : uint256 -> bytes -> bytes -> fhe -> bool;
  (* the error FHE.checkSignatures reverts with when they do not: the one of
     the library or the one its KMS verifier raises (a proof that cannot be
     read, a signer that is not one of the KMS, too few signatures) *)
  verifier_error : uint256 -> bytes -> bytes -> fhe -> Error
}.

(** Request identifiers are never issued twice. *)
Class FHELaws (B : FHEBackend) := {
  issued : fhe -> uint256 -> Prop;
  request_fresh : forall hs f r f',
    requestDecryption hs f = Some (r, f') -> ~ issued f r;
  request_issued : forall hs f r f',
    requestDecryption hs f = Some (r, f') -> issued f' r;
  request_mono : forall hs f r f' x,
    requestDecryption hs f = Some (r, f') -> issued f x -> issued f' x;
  allowThis_issued : forall h f x, issued f x -> issued (allowThis h f) x;
  allow_issued : forall h a f x, issued f x -> issued (allow h a f) x
}.

(** [FHE.isInitialized] and [FHE.toBytes32] on a handle. *)
Definition FHE_isInitialized (h : bytes32) : bool := negb (bool_decide (h = 0)).
Definition FHE_toBytes32 (h : bytes32) : bytes32 := h.

(** [SepoliaZamaOracleAddress] *)
Definition SepoliaZamaOracleAddress : address :=
  0xa02Cda4Ca3a71D7C46997716F4283aa851C28812.

(** ** Contract storage *)

(** ReentrancyGuard status. *)
Inductive GuardStatus := NOT_ENTERED | ENTERED.

Record State `{FHEBackend} := {
  _status : GuardStatus;
  token : ERC721;
  decryptionOracle : address;          (* immutable *)
  enforceOracleCheck : bool;           (* immutable *)
  _nextTokenId : uint256;
  _encryptedStakes : gmap Z Z;         (* tokenId => handle *)
  _pendingByRequest : gmap Z PendingWithdrawal;
  _requestByToken : gmap Z Z;
  _isTokenPending : gmap Z bool;
  ethBalance : Z;                      (* address(this).balance *)
  fheStore : fhe
}.

Inductive Event :=
| StakeMinted (staker : address) (id : uint256) (encryptedAmount : bytes32)
| WithdrawRequested (staker : address) (id : uint256) (requestId : uint256)
| WithdrawCompleted (staker : address) (id : uint256) (amount : uint256).

(** What a successful call gives back: the returned word, the events of the
    contract, and the value it sent out. *)
Record Receipt := {
  returned : uint256;
  logs : list Event;
  payout : option (address * uint256)
}.

Definition noReceipt : Receipt := {| returned := 0; logs := []; payout := None |}.

Inductive Call :=
| Stake (value : uint256)
| Redeem (id : uint256)
| Fulfill (requestId : uint256) (cleartexts decryptionProof : bytes)
| Approve (to : address) (id : uint256)
| SetApprovalForAll (operator : address) (approved : bool)
| TransferFrom (from to : address) (id : uint256)
| SafeTransferFrom (from to : address) (id : uint256).

Inductive Outcome :=
| Success (r : Receipt)
| Reverted (e : Error).

Section Contract.
Context `{B : FHEBackend}.

Definition set_status (f : GuardStatus -> GuardStatus) (s : State) : State :=
  {| _status := f (_status s); token := token s;
     decryptionOracle := decryptionOracle s;
     enforceOracleCheck := enforceOracleCheck s;
     _nextTokenId := _nextTokenId s; _encryptedStakes := _encryptedStakes s;
     _pendingByRequest := _pendingByRequest s;
     _requestByToken := _requestByToken s;
     _isTokenPending := _isTokenPending s;
     ethBalance := ethBalance s; fheStore := fheStore s |}.

Definition set_token (f : ERC721 -> ERC721) (s : State) : State :=
  {| _status := _status s; token := f (token s);
     decryptionOracle := decryptionOracle s;
     enforceOracleCheck := enforceOracleCheck s;
     _nextTokenId := _nextTokenId s; _encryptedStakes := _encryptedStakes s;
     _pendingByRequest := _pendingByRequest s;
     _requestByToken := _requestByToken s;
     _isTokenPending := _isTokenPending s;
     ethBalance := ethBalance s; fheStore := fheStore s |}.

Definition set_nextTokenId (f : uint256 -> uint256) (s : State) : State :=
  {| _status := _status s; token := token s;
     decryptionOracle := decryptionOracle s;
     enforceOracleCheck := enforceOracleCheck s;
     _nextTokenId := f (_nextTokenId s);
     _encryptedStakes := _encryptedStakes s;
     _pendingByRequest := _pendingByRequest s;
     _requestByToken := _requestByToken s;
     _isTokenPending := _isTokenPending s;
     ethBalance := ethBalance s; fheStore := fheStore s |}.

Definition set_encryptedStakes (f : gmap Z Z -> gmap Z Z) (s : State) : State :=
  {| _status := _status s; token := token s;
     decryptionOracle := decryptionOracle s;
     enforceOracleCheck := enforceOracleCheck s;
     _nextTokenId := _nextTokenId s;
     _encryptedStakes := f (_encryptedStakes s);
     _pendingByRequest := _pendingByRequest s;
     _requestByToken := _requestByToken s;
     _isTokenPending := _isTokenPending s;
     ethBalance := ethBalance s; fheStore := fheStore s |}.

Definition set_pendingByRequest
    (f : gmap Z PendingWithdrawal -> gmap Z PendingWithdrawal) (s : State)
    : State :=
  {| _status := _status s; token := token s;
     decryptionOracle := decryptionOracle s;
     enforceOracleCheck := enforceOracleCheck s;
     _nextTokenId := _nextTokenId s; _encryptedStakes := _encryptedStakes s;
     _pendingByRequest := f (_pendingByRequest s);
     _requestByToken := _requestByToken s;
     _isTokenPending := _isTokenPending s;
     ethBalance := ethBalance s; fheStore := fheStore s |}.

Definition set_requestByToken (f : gmap Z Z -> gmap Z Z) (s : State) : State :=
  {| _status := _status s; token := token s;
     decryptionOracle := decryptionOracle s;
     enforceOracleCheck := enforceOracleCheck s;
     _nextTokenId := _nextTokenId s; _encryptedStakes := _encryptedStakes s;
     _pendingByRequest := _pendingByRequest s;
     _requestByToken := f (_requestByToken s);
     _isTokenPending := _isTokenPending s;
     ethBalance := ethBalance s; fheStore := fheStore s |}.

Definition set_isTokenPending (f : gmap Z bool -> gmap Z bool) (s : State)
    : State :=
  {| _status := _status s; token := token s;
     decryptionOracle := decryptionOracle s;
     enforceOracleCheck := enforceOracleCheck s;
     _nextTokenId := _nextTokenId s; _encryptedStakes := _encryptedStakes s;
     _pendingByRequest := _pendingByRequest s;
     _requestByToken := _requestByToken s;
     _isTokenPending := f (_isTokenPending s);
     ethBalance := ethBalance s; fheStore := fheStore s |}.

Definition set_ethBalance (f : Z -> Z) (s : State) : State :=
  {| _status := _status s; token := token s;
     decryptionOracle := decryptionOracle s;
     enforceOracleCheck := enforceOracleCheck s;
     _nextTokenId := _nextTokenId s; _encryptedStakes := _encryptedStakes s;
     _pendingByRequest := _pendingByRequest s;
     _requestByToken := _requestByToken s;
     _isTokenPending := _isTokenPending s;
     ethBalance := f (ethBalance s); fheStore := fheStore s |}.

Definition set_fheStore (f : fhe -> fhe) (s : State) : State :=
  {| _status := _status s; token := token s;
     decryptionOracle := decryptionOracle s;
     enforceOracleCheck := enforceOracleCheck s;
     _nextTokenId := _nextTokenId s; _encryptedStakes := _encryptedStakes s;
     _pendingByRequest := _pendingByRequest s;
     _requestByToken := _requestByToken s;
     _isTokenPending := _isTokenPending s;
     ethBalance := ethBalance s; fheStore := f (fheStore s) |}.

(** The storage after deployment. *)
Definition constructor (oracleAddress : address) (enforceOracle : bool)
    : State :=
  let targetOracle :=
    if bool_decide (oracleAddress = 0) then SepoliaZamaOracleAddress
    else oracleAddress in
  {| _status := NOT_ENTERED; token := ERC721_init;
     decryptionOracle := targetOracle;
     enforceOracleCheck := enforceOracle;
     _nextTokenId := 1; _encryptedStakes := ∅; _pendingByRequest := ∅;
     _requestByToken := ∅; _isTokenPending := ∅;
     ethBalance := 0; fheStore := fhe_init |}.

(** Inherited ERC721 code runs on the token part of the storage. *)
Definition liftToken {A} (m : M ERC721 A) : M State A :=
  fun s =>
    match m (token s) with
    | Ok (a, t) => Ok (a, set_token (fun _ => t) s)
    | Revert e => Revert e
    end.

(** The [nonReentrant] modifier. *)
Definition nonReentrant {A} (body : M State A) : M State A :=
  let* status := gets _status in
  (match status with
   | ENTERED => revert ReentrantCall
   | NOT_ENTERED => ret tt
   end) ;;;
  modify (set_status (fun _ => ENTERED)) ;;;
  let* a := body in
  modify (set_status (fun _ => NOT_ENTERED)) ;;;
  ret a.

Definition FHE_requestDecryption (ciphertexts : list bytes32)
    : M State uint256 :=
  fun s =>
    match requestDecryption ciphertexts (fheStore s) with
    | Some (requestId, f) => Ok (requestId, set_fheStore (fun _ => f) s)
    | None => Revert (CustomError "DecryptionRequestFailed")
    end.

Definition FHE_checkSignatures (requestId : uint256)
    (cleartexts decryptionProof : bytes) : M State unit :=
  fun s =>
    if checkSignatures requestId cleartexts decryptionProof (fheStore s)
    then Ok (tt, s)
    else Revert (verifier_error requestId cleartexts decryptionProof
                   (fheStore s)).

Definition abi_decode (cleartexts : bytes) : M State uint256 :=
  match abi_decode_uint256 cleartexts with
  | Some amount => ret amount
  | None => revert (CustomError "AbiDecodingFailed")
  end.

(** The empty call [recipient.call{value: amount}]: fails when the contract holds less
    than [amount] or when the recipient does not accept it. *)
Definition send_value (tx : Tx) (to : address) (amount : uint256)
    : M State bool :=
  fun s =>
    if bool_decide (amount <= ethBalance s) && callee_ok tx
    then Ok (true, set_ethBalance (fun b => b - amount) s)
    else Ok (false, s).

(** *** stake *)
Definition stake (tx : Tx) (value : uint256) : M State Receipt :=
  (* msg.value is credited when the call is entered *)
  modify (set_ethBalance (fun b => b + value)) ;;;
  nonReentrant
    (require (bool_decide (0 < value)) "Stake must be greater than zero" ;;;
     let* id := gets _nextTokenId in
     let* next := checked_add id 1 in
     modify (set_nextTokenId (fun _ => next)) ;;;
     liftToken (_safeMint tx (sender tx) id) ;;;
     let encryptedAmount := asEuint256 value in
     modify (set_fheStore (allowThis encryptedAmount)) ;;;
     modify (set_fheStore (allow encryptedAmount (sender tx))) ;;;
     modify (set_encryptedStakes (sstore 0 id encryptedAmount)) ;;;
     modify (set_requestByToken (sstore 0 id 0)) ;;;
     modify (set_isTokenPending (sstore false id false)) ;;;
     ret {| returned := id;
            logs := [StakeMinted (sender tx) id (FHE_toBytes32 encryptedAmount)];
            payout := None |}).

(** *** Views *)
Definition getEncryptedStake (id : uint256) (s : State) : result bytes32 :=
  let encryptedAmount := sload 0 (_encryptedStakes s) id in
  if FHE_isInitialized encryptedAmount then Ok encryptedAmount
  else Revert StakeNotFound.

Definition tokensOf (account : address) (s : State) : result (list uint256) :=
  match (let* balance := balanceOf account in
         tokensOf_loop account (Z.to_nat balance) 0) (token s) with
  | Ok (ids, _) => Ok ids
  | Revert e => Revert e
  end.

Definition isTokenPending (id : uint256) (s : State) : bool :=
  sload false (_isTokenPending s) id.

Definition pendingRequestForToken (id : uint256) (s : State) : uint256 :=
  if negb (sload false (_isTokenPending s) id) then 0
  else sload 0 (_requestByToken s) id.

(** *** redeem *)
Definition redeem (tx : Tx) (id : uint256) : M State Receipt :=
  nonReentrant
    (let* owner := gets (fun s => _ownerOf id (token s)) in
     require (negb (bool_decide (owner = 0))) "Invalid token" ;;;
     let* authorized :=
       gets (fun s => _isAuthorized owner (sender tx) id (token s)) in
     require authorized "Not authorized" ;;;
     let* pending := gets (fun s => sload false (_isTokenPending s) id) in
     require (negb pending) "Decryption pending" ;;;
     let* encryptedAmount := gets (fun s => sload 0 (_encryptedStakes s) id) in
     require (FHE_isInitialized encryptedAmount) "Stake not found" ;;;
     let beneficiary := owner in
     let ciphertexts := [FHE_toBytes32 encryptedAmount] in
     modify (set_encryptedStakes (sstore 0 id 0)) ;;;
     liftToken (_burn id) ;;;
     let* requestId := FHE_requestDecryption ciphertexts in
     modify (set_pendingByRequest
               (sstore noPending requestId
                  {| recipient := beneficiary; tokenId := id;
                     exists_ := true |})) ;;;
     modify (set_requestByToken (sstore 0 id requestId)) ;;;
     modify (set_isTokenPending (sstore false id true)) ;;;
     ret {| returned := requestId;
            logs := [WithdrawRequested beneficiary id requestId];
            payout := None |}).

(** *** onDecryptionFulfilled

    The checks and the storage writes that precede the value transfer. *)
Definition fulfill_effects (tx : Tx) (requestId : uint256)
    (cleartexts decryptionProof : bytes)
    : M State (PendingWithdrawal * uint256) :=
  let* enforce := gets enforceOracleCheck in
  let* oracle := gets decryptionOracle in
  when enforce
    (require (bool_decide (sender tx = oracle)) "Invalid oracle") ;;;
  let* pending :=
    gets (fun s => sload noPending (_pendingByRequest s) requestId) in
  require (exists_ pending) "Unknown request" ;;;
  FHE_checkSignatures requestId cleartexts decryptionProof ;;;
  let* amount := abi_decode cleartexts in
  modify (set_pendingByRequest (sstore noPending requestId noPending)) ;;;
  modify (set_isTokenPending (sstore false (tokenId pending) false)) ;;;
  modify (set_requestByToken (sstore 0 (tokenId pending) 0)) ;;;
  ret (pending, amount).

Definition fulfill_interaction (tx : Tx) (pa : PendingWithdrawal * uint256)
    : M State Receipt :=
  let '(pending, amount) := pa in
  let* success := send_value tx (recipient pending) amount in
  require success "Transfer failed" ;;;
  ret {| returned := 1;
         logs := [WithdrawCompleted (recipient pending) (tokenId pending)
                    amount];
         payout := Some (recipient pending, amount) |}.

Definition onDecryptionFulfilled (tx : Tx) (requestId : uint256)
    (cleartexts decryptionProof : bytes) : M State Receipt :=
  nonReentrant
    (let* pa := fulfill_effects tx requestId cleartexts decryptionProof in
     fulfill_interaction tx pa).

(** ** Transactions *)

Definition exec (tx : Tx) (c : Call) : M State Receipt :=
  match c with
  | Stake value => stake tx value
  | Redeem id => redeem tx id
  | Fulfill requestId cleartexts decryptionProof =>
      onDecryptionFulfilled tx requestId cleartexts decryptionProof
  | Approve to id => liftToken (approve tx to id) ;;; ret noReceipt
  | SetApprovalForAll operator approved =>
      liftToken (setApprovalForAll tx operator approved) ;;; ret noReceipt
  | TransferFrom from to id =>
      liftToken (transferFrom tx from to id) ;;; ret noReceipt
  | SafeTransferFrom from to id =>
      liftToken (safeTransferFrom tx from to id) ;;; ret noReceipt
  end.

(** A reverted transaction leaves the storage as it was. *)
Definition call (tx : Tx) (c : Call) (s : State) : State * Outcome :=
  match exec tx c s with
  | Ok (r, s') => (s', Success r)
  | Revert e => (s, Reverted e)
  end.

(** Histories of successful transactions.  No transaction is sent by the
    zero address. *)
Inductive trace_from (s0 : State) : list (Tx * Call * Receipt) -> State -> Prop :=
| trace_nil : trace_from s0 [] s0
| trace_snoc tr s tx c r s' :
    trace_from s0 tr s ->
    sender tx <> 0 ->
    exec tx c s = Ok (r, s') ->
    trace_from s0 (tr ++ [(tx, c, r)]) s'.

Definition reachable (s : State) : Prop :=
  exists oracleAddress enforceOracle tr,
    trace_from (constructor oracleAddress enforceOracle) tr s.

End Contract.

(** ** A mock backend

    A stand-in for the FHE library in the manner of the mock the test suite
    runs against: request identifiers come from a counter, the handles of a
    request are saved under its identifier, the handle of a value is the value
    plus one, and a cleartext verifies when it encodes the value of the single
    saved handle and comes with the one-byte proof [01]. *)
Record MockStore := {
  counterRequest : uint256;
  requestedHandles : gmap Z (list bytes32);
  allowed : list (bytes32 * option address)
}.

Definition mock_verify (handles : list bytes32) (cleartexts proof : bytes)
    : bool :=
  match handles, proof with
  | [h], [x01] => bool_decide (abi_decode_uint256 cleartexts = Some (h - 1))
  | _, _ => false
  end.

(** A proof other than [01] cannot be read; [01] with a cleartext that does
    not match is not signed by the KMS. *)
Definition mock_error (proof : bytes) : Error :=
  match proof with
  | [x01] => CustomError "KMSInvalidSigner"
  | _ => CustomError "DeserializingDecryptionProofFail"
  end.

#[global] Instance mockFHE : FHEBackend := {|
  fhe := MockStore;
  fhe_init := {| counterRequest := 0; requestedHandles := ∅; allowed := [] |};
  asEuint256 v := v + 1;
  allowThis h f :=
    {| counterRequest := counterRequest f;
       requestedHandles := requestedHandles f;
       allowed := (h, None) :: allowed f |};
  allow h a f :=
    {| counterRequest := counterRequest f;
       requestedHandles := requestedHandles f;
       allowed := (h, Some a) :: allowed f |};
  requestDecryption hs f :=
    Some (counterRequest f,
          {| counterRequest := counterRequest f + 1;
             requestedHandles := <[counterRequest f := hs]> (requestedHandles f);
             allowed := allowed f |});
  checkSignatures r cleartexts proof f :=
    mock_verify (default [] (requestedHandles f !! r)) cleartexts proof;
  verifier_error _ _ proof _ := mock_error proof
|}.

(** Running a list of transactions, reverted ones included. *)
Fixpoint run `{FHEBackend} (txs : list (Tx * Call)) (s : State) : State :=
  match txs with
  | [] => s
  | (tx, c) :: rest => run rest (fst (call tx c s))
  end.

(** The successful transactions of a run, with their receipts. *)
Fixpoint history `{FHEBackend} (txs : list (Tx * Call)) (s : State)
    : list (Tx * Call * Receipt) :=
  match txs with
  | [] => []
  | (tx, c) :: rest =>
      match exec tx c s with
      | Ok (r, s') => (tx, c, r) :: history rest s'
      | Revert _ => history rest s
      end
  end.

Definition alice : address := 0xA11CE.
Definition bob : address := 0xB0B.
Definition carol : address := 0xCA401.

Definition from_ (a : address) : Tx :=
  {| sender := a; callee_ok := true; callee_error := None |}.
Definition rejecting (a : address) : Tx :=
  {| sender := a; callee_ok := false; callee_error := None |}.

Definition good_proof : bytes := [x01].
Definition forged_proof : bytes := [xff].

(** Scenarios on the mock backend, used to exercise the theorems. *)
Definition genesis : State := constructor 0 false.

Definition cleartext5 : bytes := abi_encode_uint256 5.
Definition cleartext7 : bytes := abi_encode_uint256 7.

(** Alice stakes 5. *)
Definition one_staked_script : list (Tx * Call) := [(from_ alice, Stake 5)].
Definition one_staked : State := run one_staked_script genesis.

(** ... and redeems certificate 1: request 0 is pending. *)
Definition one_pending_script : list (Tx * Call) :=
  one_staked_script ++ [(from_ alice, Redeem 1)].
Definition one_pending : State := run one_pending_script genesis.

(** ... and the oracle fulfills request 0 with cleartext 5. *)
Definition one_paid_script : list (Tx * Call) :=
  one_pending_script ++ [(from_ bob, Fulfill 0 cleartext5 good_proof)].
Definition one_paid : State := run one_paid_script genesis.

Definition paid5 : Receipt :=
  {| returned := 1; logs := [WithdrawCompleted alice 1 5];
     payout := Some (alice, 5) |}.

(** Alice stakes 5, 7 and 9 and holds certificates 1, 2 and 3. *)
Definition three_staked_script : list (Tx * Call) :=
  [(from_ alice, Stake 5); (from_ alice, Stake 7); (from_ alice, Stake 9)].
Definition three_staked : State := run three_staked_script genesis.

(** ... and redeems the first of them. *)
Definition first_redeemed_script : list (Tx * Call) :=
  three_staked_script ++ [(from_ alice, Redeem 1)].
Definition first_redeemed : State := run first_redeemed_script genesis.

(** Alice stakes 5 and Bob stakes 7; both redeem: requests 0 and 1 pending. *)
Definition two_staked_script : list (Tx * Call) :=
  [(from_ alice, Stake 5); (from_ bob, Stake 7)].
Definition two_staked : State := run two_staked_script genesis.
Definition alice_pending : State := run [(from_ alice, Redeem 1)] two_staked.
Definition two_pending : State := run [(from_ bob, Redeem 2)] alice_pending.

(** ... and the oracle answers Bob first, then Alice. *)
Definition bob_paid : State :=
  run [(from_ carol, Fulfill 1 cleartext7 good_proof)] two_pending.
Definition both_paid : State :=
  run [(from_ carol, Fulfill 0 cleartext5 good_proof)] bob_paid.

Definition paid7 : Receipt :=
  {| returned := 1; logs := [WithdrawCompleted bob 2 7];
     payout := Some (bob, 7) |}.

(** Alice stakes 5 and approves Bob for certificate 1. *)
Definition approved_staked_script : list (Tx * Call) :=
  [(from_ alice, Stake 5); (from_ alice, Approve bob 1)].
Definition approved_staked : State := run approved_staked_script genesis.

(** ** The holdings kept by the enumeration, as functions

    [h_token a i] is the certificate at position [i] of account [a];
    [h_index id] is the position of a certificate in its owner's list. *)
Record Holdings := {
  h_owner : uint256 -> address;
  h_balance : address -> uint256;
  h_token : address -> uint256 -> uint256;
  h_index : uint256 -> uint256
}.

Definition holdings (t : ERC721) : Holdings :=
  {| h_owner id := _ownerOf id t;
     h_balance a := sload 0 (_balances t) a;
     h_token a i := sload 0 (_ownedTokens t) (a, i);
     h_index id := sload 0 (_ownedTokensIndex t) id |}.

(** Two holdings that read the same everywhere. *)
Definition h_same (h h' : Holdings) : Prop :=
  (forall id, h_owner h' id = h_owner h id)
  /\ (forall a, h_balance h' a = h_balance h a)
  /\ (forall a i, h_token h' a i = h_token h a i)
  /\ (forall id, h_index h' id = h_index h id).

(** What minting [id] to [to], or moving it to [to], does to the lists:
    the certificate is appended to the list of [to]. *)
Definition h_add (to : address) (id : uint256) (h : Holdings) : Holdings :=
  let n := h_balance h to in
  {| h_owner x := if decide (x = id) then to else h_owner h x;
     h_balance a := if decide (a = to) then n + 1 else h_balance h a;
     h_token a i :=
       if decide ((a, i) = (to, n)) then id else h_token h a i;
     h_index x := if decide (x = id) then n else h_index h x |}.

(** What taking [id] away from its owner does: the last certificate of the
    owner moves into the position of [id] and the list shrinks by one. *)
Definition h_remove (id : uint256) (h : Holdings) : Holdings :=
  let from := h_owner h id in
  let last := h_balance h from - 1 in
  let pos := h_index h id in
  let moved := h_token h from last in
  {| h_owner x := if decide (x = id) then 0 else h_owner h x;
     h_balance a := if decide (a = from) then last else h_balance h a;
     h_token a i :=
       if decide ((a, i) = (from, last)) then 0
       else if decide ((a, i) = (from, pos)) then moved
       else h_token h a i;
     h_index x :=
       if decide (x = id) then 0
       else if decide (x = moved) then
              if decide (pos = last) then h_index h x else pos
       else h_index h x |}.

(** The enumeration invariant: positions below the balance of an account hold
    exactly the certificates of that account, each at its recorded index. *)
Record holdings_ok (h : Holdings) : Prop := {
  ok_balance : forall a, 0 <= h_balance h a < 2 ^ 256;
  ok_token : forall a i, a <> 0 -> 0 <= i < h_balance h a ->
    h_owner h (h_token h a i) = a /\ h_index h (h_token h a i) = i;
  ok_index : forall id, h_owner h id <> 0 ->
    0 <= h_index h id < h_balance h (h_owner h id)
    /\ h_token h (h_owner h id) (h_index h id) = id
}.

(** The list [tokensOf] is expected to return. *)
Definition owned_list (h : Holdings) (a : address) : list uint256 :=
  h_token h a <$> seqZ 0 (h_balance h a).

Section Invariants.
Context `{B : FHEBackend}.

(** The invariant of the storage between transactions. *)
Record wf (s : State) : Prop := {
  wf_status : _status s = NOT_ENTERED;
  wf_next : 1 <= _nextTokenId s <= MAX_UINT256;
  wf_minted : forall id, _ownerOf id (token s) <> 0 ->
    1 <= id < _nextTokenId s;
  wf_holdings : holdings_ok (holdings (token s));
  wf_stake : forall id, sload 0 (_encryptedStakes s) id <> 0 ->
    _ownerOf id (token s) <> 0;
  wf_pending : forall id, sload false (_isTokenPending s) id = true ->
    _ownerOf id (token s) = 0;
  wf_nobody : forall op, isApprovedForAll 0 op (token s) = false;
  wf_approval : forall id, _ownerOf id (token s) = 0 ->
    _getApproved id (token s) = 0
}.

(** A certificate that was burned: no owner, no balance, an id already used. *)
Definition burned (id : uint256) (s : State) : Prop :=
  _ownerOf id (token s) = 0
  /\ sload 0 (_encryptedStakes s) id = 0
  /\ id < _nextTokenId s.

(** A request whose record has been consumed. *)
Definition consumed `{!FHELaws B} (requestId : uint256) (s : State) : Prop :=
  issued (fheStore s) requestId
  /\ exists_ (sload noPending (_pendingByRequest s) requestId) = false.

(** Every pending record belongs to an issued request. *)
Definition requests_wf `{!FHELaws B} (s : State) : Prop :=
  forall r, exists_ (sload noPending (_pendingByRequest s) r) = true ->
    issued (fheStore s) r.

(** The owner and the encrypted balance of a certificate after a successful
    call. *)
Definition owner_after (tx : Tx) (c : Call) (s : State) (x : Z) : Z :=
  match c with
  | Stake _ =>
      if decide (x = _nextTokenId s) then sender tx
      else _ownerOf x (token s)
  | Redeem id => if decide (x = id) then 0 else _ownerOf x (token s)
  | TransferFrom _ to id | SafeTransferFrom _ to id =>
      if decide (x = id) then to else _ownerOf x (token s)
  | _ => _ownerOf x (token s)
  end.

Definition stake_after (c : Call) (s : State) (x : Z) : Z :=
  match c with
  | Stake v =>
      if decide (x = _nextTokenId s) then asEuint256 v
      else sload 0 (_encryptedStakes s) x
  | Redeem id => if decide (x = id) then 0 else sload 0 (_encryptedStakes s) x
  | _ => sload 0 (_encryptedStakes s) x
  end.

(** Does the caller pass the strict-sender gate of the callback? *)
Definition oracle_gate (tx : Tx) (s : State) : Prop :=
  enforceOracleCheck s = false \/ sender tx = decryptionOracle s.
End Invariants.

(** ** Insertion order, as the specification words [tokensOf]

    The certificates in the order in which their current holder acquired them:
    a stake appends the new certificate to the holdings of the staker, a redeem
    takes the certificate out, a transfer to another account takes it out and
    appends it to the holdings of the receiver. *)
Definition take_out (id : uint256) (l : list (address * uint256))
    : list (address * uint256) :=
  filter (fun p => p.2 <> id) l.

Definition acquire (l : list (address * uint256)) (step : Tx * Call * Receipt)
    : list (address * uint256) :=
  match step with
  | (tx, Stake _, r) => l ++ [(sender tx, returned r)]
  | (_, Redeem id, _) => take_out id l
  | (_, TransferFrom from to id, _) | (_, SafeTransferFrom from to id, _) =>
      if decide (from = to) then l else take_out id l ++ [(to, id)]
  | _ => l
  end.

Definition acquired (tr : list (Tx * Call * Receipt)) : list (address * uint256) :=
  fold_left acquire tr [].

Definition insertion_order (tr : list (Tx * Call * Receipt)) (a : address)
    : list uint256 :=
  (filter (fun p => p.1 = a) (acquired tr)).*2.

(** ** The order kept by the enumeration

    Swap and pop on a list: the last element takes the place of [id] and the
    list loses its last position. *)
Definition swap_pop (id : uint256) (l : list uint256) : list uint256 :=
  match last l with
  | Some moved =>
      take (length l - 1) ((fun y => if decide (y = id) then moved else y) <$> l)
  | None => []
  end.

(** The list of account [a] after a successful call, from its list [ids]
    before the call. *)
Definition list_after `{FHEBackend} (s : State) (tx : Tx) (c : Call)
    (r : Receipt) (a : address) (ids : list uint256) : list uint256 :=
  match c with
  | Stake _ => if decide (sender tx = a) then ids ++ [returned r] else ids
  | Redeem id =>
      if decide (_ownerOf id (token s) = a) then swap_pop id ids else ids
  | TransferFrom _ to id | SafeTransferFrom _ to id =>
      let from := _ownerOf id (token s) in
      if decide (from = to) then ids
      else if decide (from = a) then swap_pop id ids
      else if decide (to = a) then ids ++ [id]
      else ids
  | _ => ids
  end.

(** * Further definitions *)

(** ** The deployment script

    The arguments the script passes to the constructor,
    from the name of the network and from the oracle address the local FHEVM
    plugin reports, when it reports one. *)
Definition localNetworks : list string := ["hardhat"; "localhost"; "anvil"]%string.

Definition sepoliaOracle : address := 0xa02Cda4Ca3a71D7C46997716F4283aa851C28812.

Definition is_local (network : string) : bool :=
  existsb (String.eqb network) localNetworks.

Definition deploy_args (network : string) (oracleGetter : option address)
    : address * bool :=
  let oracleAddress :=
    if is_local network
    then match oracleGetter with
         | Some reported => reported
         | None => sepoliaOracle
         end
    else sepoliaOracle in
  let enforceOracle := negb (is_local network) in
  (oracleAddress, enforceOracle).

Definition deploy `{FHEBackend} (network : string)
    (oracleGetter : option address) : State :=
  constructor (deploy_args network oracleGetter).1
    (deploy_args network oracleGetter).2.

(** ** The pending views of a certificate after a successful call *)
Section After.
Context `{B : FHEBackend}.

Definition flag_after (c : Call) (s : State) (x : Z) : bool :=
  match c with
  | Stake _ =>
      if decide (x = _nextTokenId s) then false
      else sload false (_isTokenPending s) x
  | Redeem id =>
      if decide (x = id) then true else sload false (_isTokenPending s) x
  | Fulfill requestId _ _ =>
      if decide (x = tokenId (sload noPending (_pendingByRequest s) requestId))
      then false
      else sload false (_isTokenPending s) x
  | _ => sload false (_isTokenPending s) x
  end.

Definition request_after (c : Call) (r : Receipt) (s : State) (x : Z) : Z :=
  match c with
  | Stake _ =>
      if decide (x = _nextTokenId s) then 0
      else sload 0 (_requestByToken s) x
  | Redeem id =>
      if decide (x = id) then returned r else sload 0 (_requestByToken s) x
  | Fulfill requestId _ _ =>
      if decide (x = tokenId (sload noPending (_pendingByRequest s) requestId))
      then 0
      else sload 0 (_requestByToken s) x
  | _ => sload 0 (_requestByToken s) x
  end.

(** The pending flags, the request index and the records tell the same
    story: a flagged certificate was issued, has no owner any more and points
    to its record; a record points back to its flagged certificate and names a
    recipient. *)
Record pending_wf (s : State) : Prop := {
  pw_flag : forall id, sload false (_isTokenPending s) id = true ->
    exists_ (sload noPending (_pendingByRequest s)
               (sload 0 (_requestByToken s) id)) = true
    /\ tokenId (sload noPending (_pendingByRequest s)
                  (sload 0 (_requestByToken s) id)) = id;
  pw_record : forall rid,
    exists_ (sload noPending (_pendingByRequest s) rid) = true ->
    sload false (_isTokenPending s)
      (tokenId (sload noPending (_pendingByRequest s) rid)) = true
    /\ sload 0 (_requestByToken s)
         (tokenId (sload noPending (_pendingByRequest s) rid)) = rid
    /\ recipient (sload noPending (_pendingByRequest s) rid) <> 0;
  pw_minted : forall id, sload false (_isTokenPending s) id = true ->
    1 <= id < _nextTokenId s
}.

(** The certificate a call is about. *)
Definition subject (c : Call) (s : State) : option uint256 :=
  match c with
  | Stake _ => Some (_nextTokenId s)
  | Redeem id | Approve _ id | TransferFrom _ _ id | SafeTransferFrom _ _ id =>
      Some id
  | Fulfill requestId _ _ =>
      Some (tokenId (sload noPending (_pendingByRequest s) requestId))
  | SetApprovalForAll _ _ => None
  end.

End After.

(** ** Ether in and out over a history *)
Definition step_deposit (step : Tx * Call * Receipt) : Z :=
  match step with
  | (_, Stake value, _) => value
  | _ => 0
  end.

Definition step_payout (step : Tx * Call * Receipt) : Z :=
  match payout step.2 with
  | Some (_, amount) => amount
  | None => 0
  end.

Definition deposited (tr : list (Tx * Call * Receipt)) : Z :=
  foldr (fun step acc => step_deposit step + acc) 0 tr.

Definition paid_out (tr : list (Tx * Call * Receipt)) : Z :=
  foldr (fun step acc => step_payout step + acc) 0 tr.

(** The certificate ids handed out by the stakes of a history, in order. *)
Definition minted_ids (tr : list (Tx * Call * Receipt)) : list uint256 :=
  omap (fun step => match step with
                    | (_, Stake _, r) => Some (returned r)
                    | _ => None
                    end) tr.

(** ** An oracle that signs only true values

    What the ledger relies on for the amounts it pays: the oracle remembers
    the handles a request was made for, and a cleartext verifies for a request
    made for the handle of a value only when it encodes that value. *)
Class FHESound (B : FHEBackend) := {
  requested : fhe -> uint256 -> list bytes32 -> Prop;
  request_recorded : forall hs f r f',
    requestDecryption hs f = Some (r, f') -> requested f' r hs;
  requested_mono : forall hs f r f' x hs',
    requestDecryption hs f = Some (r, f') ->
    requested f x hs' -> requested f' x hs';
  allowThis_requested : forall h f x hs,
    requested f x hs -> requested (allowThis h f) x hs;
  allow_requested : forall h a f x hs,
    requested f x hs -> requested (allow h a f) x hs;
  signatures_sound : forall f r v cleartexts proof,
    requested f r [asEuint256 v] ->
    checkSignatures r cleartexts proof f = true ->
    abi_decode_uint256 cleartexts = Some v
}.

(** ** The principal owed

    By certificate, the amount staked for it, from the stake that minted the
    certificate until the fulfillment that pays it back. *)
Definition owe (ledger : gmap Z Z) (step : Tx * Call * Receipt) : gmap Z Z :=
  match step with
  | (_, Stake value, r) => <[returned r := value]> ledger
  | (_, Fulfill _ _ _, r) =>
      match logs r with
      | [WithdrawCompleted _ id _] => delete id ledger
      | _ => ledger
      end
  | _ => ledger
  end.

Definition owed (tr : list (Tx * Call * Receipt)) : gmap Z Z :=
  fold_left owe tr ∅.

Definition total (ledger : gmap Z Z) : Z :=
  map_fold (fun _ v acc => v + acc) 0 ledger.

Section LedgerInvariant.
Context `{B : FHEBackend} `{!FHESound B}.

(** The ledger of principals against the storage: what is owed is owed for
    the certificates that are live or under redemption; the handle of a live
    certificate and the request of a pending one are those of its principal;
    a record stems from the redeem of its certificate; and the contract holds
    exactly what is owed. *)
Record ledger_wf (tr : list (Tx * Call * Receipt)) (s : State) : Prop := {
  lw_range : forall id v, owed tr !! id = Some v ->
    0 < v /\ 1 <= id < _nextTokenId s;
  lw_live : forall id, _ownerOf id (token s) <> 0 ->
    exists v, owed tr !! id = Some v
              /\ sload 0 (_encryptedStakes s) id = asEuint256 v;
  lw_record : forall rid,
    exists_ (sload noPending (_pendingByRequest s) rid) = true ->
    exists v,
      owed tr !! tokenId (sload noPending (_pendingByRequest s) rid) = Some v
      /\ requested (fheStore s) rid [asEuint256 v];
  lw_origin : forall rid,
    exists_ (sload noPending (_pendingByRequest s) rid) = true ->
    exists tx r,
      (tx, Redeem (tokenId (sload noPending (_pendingByRequest s) rid)), r) ∈ tr
      /\ returned r = rid
      /\ logs r =
           [WithdrawRequested
              (recipient (sload noPending (_pendingByRequest s) rid))
              (tokenId (sload noPending (_pendingByRequest s) rid)) rid];
  lw_owed : forall id, is_Some (owed tr !! id) ->
    _ownerOf id (token s) <> 0 \/ sload false (_isTokenPending s) id = true;
  lw_balance : ethBalance s = total (owed tr)
}.
End LedgerInvariant.

(** The enumeration of all certificates: a certificate that has an owner
    sits in [_allTokens] at its recorded index. *)
Definition supply_ok (t : ERC721) : Prop :=
  forall id, _ownerOf id t <> 0 ->
    0 <= sload 0 (_allTokensIndex t) id
    /\ _allTokens t !! Z.to_nat (sload 0 (_allTokensIndex t) id) = Some id.

(** A strict deployment with Carol as the oracle: Alice stakes 5 and
    redeems, Carol delivers. *)
Definition strict_genesis : State := constructor carol true.
Definition strict_paid_script : list (Tx * Call) :=
  [(from_ alice, Stake 5); (from_ alice, Redeem 1);
   (from_ carol, Fulfill 0 cleartext5 good_proof)].
Definition strict_paid : State := run strict_paid_script strict_genesis.

(** * Properties *)

(** ** Storage mappings *)

Section MappingFacts.
Context `{Countable K} {V : Type} `{EqDecision V}.

Lemma sload_sstore (d : V) (m : gmap K V) (k k' : K) (v : V) :
  sload d (sstore d k v m) k' = if decide (k' = k) then v else sload d m k'.
Proof.
  unfold sload, sstore.
  destruct (decide (v = d)) as [->|Hv]; destruct (decide (k' = k)) as [->|Hk].
  - by rewrite lookup_delete_eq.
  - by rewrite lookup_delete_ne.
  - by rewrite lookup_insert_eq.
  - by rewrite lookup_insert_ne.
Qed.

Lemma sload_empty (d : V) (k : K) : sload d (∅ : gmap K V) k = d.
Proof. unfold sload. by rewrite lookup_empty. Qed.
End MappingFacts.

Ltac unmonad :=
  unfold require, when, checked_add, checked_sub, array_read, array_write in *;
  unfold bind, ret, gets, modify, revert in *.

Lemma wrap256_small z : 0 <= z < 2 ^ 256 -> wrap256 z = z.
Proof. intros. unfold wrap256. by apply Z.mod_small. Qed.

Lemma wrap256_succ z : 0 <= z < 2 ^ 256 -> 1 <= wrap256 (z + 1) -> z + 1 < 2 ^ 256 /\ wrap256 (z + 1) = z + 1.
Proof.
  intros Hz Hw. destruct (decide (z + 1 = 2 ^ 256)) as [E|E].
  - rewrite E in Hw. unfold wrap256 in Hw. rewrite Z.mod_same in Hw; lia.
  - split; [lia|]. apply wrap256_small. lia.
Qed.

Ltac storage := repeat (rewrite !sload_sstore in * ); simpl in *.


Ltac msimpl :=
  repeat (first [case_bool_decide | case_match]; simpl in *; simplify_eq).

Ltac finish :=
  intros; storage; repeat case_decide; destruct_and?; simplify_eq;
  try done; try lia; try congruence.

Lemma mint_post to id t t' :
  _mint to id t = Ok (tt, t') ->
  0 <= sload 0 (_balances t) to < 2 ^ 256 ->
  to <> 0 /\ _ownerOf id t = 0 /\ sload 0 (_balances t) to + 1 < 2 ^ 256
  /\ h_same (h_add to id (holdings t)) (holdings t')
  /\ _tokenApprovals t' = _tokenApprovals t
  /\ _operatorApprovals t' = _operatorApprovals t.
Proof.
  unfold _mint, _update, ERC721_update, _addTokenToAllTokensEnumeration,
    _addTokenToOwnerEnumeration, balanceOf.
  unmonad. simpl. intros Hm Hb. msimpl.
  rewrite sload_sstore in *. rewrite decide_True in * by done.
  destruct (wrap256_succ _ Hb) as [Hlt Hw]; [done|].
  rewrite Hw.
  replace (sload 0 (_balances t) to + 1 - 1) with (sload 0 (_balances t) to)
    in * by lia.
  unfold h_same, h_add, holdings, _ownerOf; simpl.
  split_and!; finish.
Qed.

Lemma burn_post id t t' :
  _burn id t = Ok (tt, t') ->
  holdings_ok (holdings t) ->
  _ownerOf id t <> 0
  /\ h_same (h_remove id (holdings t)) (holdings t')
  /\ _tokenApprovals t' = sstore 0 id 0 (_tokenApprovals t)
  /\ _operatorApprovals t' = _operatorApprovals t.
Proof.
  unfold _burn, _update, ERC721_update, _removeTokenFromAllTokensEnumeration,
    _removeTokenFromOwnerEnumeration, _approve, balanceOf, array_read, array_write.
  unmonad. simpl. intros Hm [Hb Ht Hi]. msimpl.
  all: pose proof (Hi id ltac:(done)) as [Hpos Hself];
    pose proof (Hb (_ownerOf id t)) as Hrange;
    rewrite !sload_sstore in *; rewrite !decide_True in * by done;
    rewrite (wrap256_small (sload 0 (_balances t) (_ownerOf id t) - 1)) in * by lia;
    unfold h_same, h_remove, holdings, _ownerOf in *; simpl in *.
  - split_and!; finish.
  - split_and!; finish.
Qed.

Lemma not_authorized_nobody spender id t :
  (forall op, isApprovedForAll 0 op t = false) ->
  _getApproved id t = 0 ->
  _isAuthorized 0 spender id t = false.
Proof.
  intros Hop Hap. unfold _isAuthorized. rewrite Hop, Hap.
  repeat case_bool_decide; simplify_eq; done.
Qed.

Lemma transfer_post tx from to id t t' :
  transferFrom tx from to id t = Ok (tt, t') ->
  sender tx <> 0 ->
  holdings_ok (holdings t) ->
  (forall op, isApprovedForAll 0 op t = false) ->
  (_ownerOf id t = 0 -> _getApproved id t = 0) ->
  from = _ownerOf id t /\ from <> 0 /\ to <> 0
  /\ _isAuthorized from (sender tx) id t = true
  /\ (if decide (from = to) then h_same (holdings t) (holdings t')
      else sload 0 (_balances t) to + 1 < 2 ^ 256
           /\ h_same (h_add to id (h_remove id (holdings t))) (holdings t'))
  /\ _tokenApprovals t' = sstore 0 id 0 (_tokenApprovals t)
  /\ _operatorApprovals t' = _operatorApprovals t.
Proof.
  unfold transferFrom, _update, ERC721_update, _checkAuthorized,
    _addTokenToOwnerEnumeration, _addTokenToAllTokensEnumeration,
    _removeTokenFromOwnerEnumeration, _approve, balanceOf.
  unmonad. simpl. intros Hm Hs [Hb Ht Hi] Hop Hap.
  case_bool_decide as Hto; [done|]. simpl in Hm.
  rewrite (bool_decide_eq_false_2 (sender tx = 0)) in Hm by done. simpl in Hm.
  destruct (decide (_ownerOf id t = 0)) as [E0|E0].
  { pose proof (not_authorized_nobody (sender tx) id t Hop (Hap E0)) as Hna.
    rewrite E0 in *. rewrite Hna in *. msimpl. }
  msimpl.
  all: pose proof (Hi id ltac:(done)) as [Hpos Hself];
    match goal with
    | Hb : forall a, 0 <= sload 0 (_balances ?t) a < _ |- _ =>
        pose proof (Hb (_ownerOf id t)) as Hrange;
        rewrite !sload_sstore in *; repeat case_decide; simplify_eq;
        rewrite ?(wrap256_small (sload 0 (_balances t) (_ownerOf id t) - 1))
          in * by lia
    end.
  - match goal with
    | |- context [wrap256 (?b - 1 + 1)] =>
        replace (b - 1 + 1) with b by lia
    end.
    rewrite wrap256_small by lia.
    unfold h_same, holdings, _ownerOf in *; simpl in *.
    split_and!; finish.
  - destruct (wrap256_succ _ (Hb to)) as [Hlt Hw]; [done|].
    rewrite Hw in *.
    match goal with
    | |- context [?b + 1 - 1] => replace (b + 1 - 1) with b by lia
    end.
    unfold h_same, h_add, h_remove, holdings, _ownerOf in *; simpl in *.
    split_and!; try done.
    + finish.
    + finish.
    + finish.
    + finish.
  - destruct (wrap256_succ _ (Hb to)) as [Hlt Hw]; [done|].
    rewrite Hw in *.
    match goal with
    | |- context [?b + 1 - 1] => replace (b + 1 - 1) with b by lia
    end.
    unfold h_same, h_add, h_remove, holdings, _ownerOf in *; simpl in *.
    split_and!; try done.
    + finish.
    + finish.
    + finish.
    + finish.
Qed.

(** ** The enumeration invariant *)

Lemma holdings_ok_same h h' : h_same h h' -> holdings_ok h -> holdings_ok h'.
Proof.
  intros (Ho & Hb & Ht & Hi) [Kb Kt Ki]. split.
  - intros a. rewrite Hb. apply Kb.
  - intros a i Ha Hr. rewrite Hb in Hr. rewrite !Ht, Ho, Hi. by apply Kt.
  - intros id Hid. rewrite !Ho in *. rewrite Hi, Hb, Ht. by apply Ki.
Qed.

Lemma h_add_ok to id h :
  holdings_ok h -> to <> 0 -> h_owner h id = 0 ->
  h_balance h to + 1 < 2 ^ 256 ->
  holdings_ok (h_add to id h).
Proof.
  intros [Kb Kt Ki] Hto Hfree Hlt. split; unfold h_add; simpl.
  - intros a. case_decide; [subst; specialize (Kb to); lia | apply Kb].
  - intros a i Ha Hr.
    destruct (decide ((a, i) = (to, h_balance h to))) as [E|E].
    + simplify_eq. rewrite !decide_True by done. done.
    + assert (0 <= i < h_balance h a) as Hr'.
      { destruct (decide (a = to)) as [->|]; simpl in Hr; [|done].
        assert (i <> h_balance h to) by congruence. lia. }
      destruct (Kt a i Ha Hr') as [Ko Kx].
      assert (h_token h a i <> id) by congruence.
      rewrite !decide_False by done. done.
  - intros x. destruct (decide (x = id)) as [->|Hx].
    + intros _. rewrite !decide_True by done. split; [specialize (Kb to); lia|done].
    + simpl. intros Hown. destruct (Ki x Hown) as [Kr Kself].
      destruct (decide (h_owner h x = to)) as [E|E].
      * rewrite E in *. rewrite decide_False by (intros [= ?]; lia).
        split; [lia|done].
      * rewrite decide_False by congruence. done.
Qed.

Lemma h_remove_ok id h :
  holdings_ok h -> h_owner h id <> 0 -> holdings_ok (h_remove id h).
Proof.
  intros [Kb Kt Ki] Hid.
  destruct (Ki id Hid) as [Hpos Hself].
  set (from := h_owner h id) in *.
  set (last := h_balance h from - 1).
  assert (Hlast : 0 <= last < h_balance h from) by (unfold last; lia).
  destruct (Kt from last Hid Hlast) as [Hmo Hmi].
  split; unfold h_remove; simpl; fold from; fold last.
  - intros a. case_decide; [subst; specialize (Kb from); lia | apply Kb].
  - intros a i Ha Hr.
    assert (0 <= i < h_balance h a /\ (a, i) <> (from, last)) as [Hr' Hne].
    { destruct (decide (a = from)) as [->|]; simpl in Hr;
        [split; [lia|intros [= ?]; lia] |].
      split; [done|congruence]. }
    rewrite (decide_False (P := (a, i) = (from, last))) by done.
    destruct (Kt a i Ha Hr') as [Ko Kx].
    destruct (decide ((a, i) = (from, h_index h id))) as [E|E].
    + injection E as Ea Ei. subst a i.
      assert (h_token h from last <> id) by (intros E'; rewrite E' in Hmi; congruence).
      repeat case_decide; try done; congruence.
    + assert (h_token h a i <> id).
      { intros E'. rewrite E' in *. fold from in Ko. congruence. }
      assert (h_token h a i <> h_token h from last).
      { intros E'. rewrite E' in *. congruence. }
      repeat case_decide; try done; congruence.
  - intros x. destruct (decide (x = id)) as [->|Hx]; [done|].
    simpl. intros Hown.
    destruct (Ki x Hown) as [Kr Kself].
    destruct (decide (x = h_token h from last)) as [Hm|Hm].
    + rewrite Hm in Kr, Kself, Hown |- *. rewrite Hmo in *.
      destruct (decide (h_index h id = last)) as [El|El].
      * exfalso. apply Hx. rewrite <- Hself, El. done.
      * split; [rewrite decide_True by done; lia|].
        repeat case_decide; try done; congruence.
    + assert ((h_owner h x, h_index h x) <> (from, last)).
      { intros [= E1 E2]. apply Hm. rewrite <- Kself, E1, E2. done. }
      assert ((h_owner h x, h_index h x) <> (from, h_index h id)).
      { intros [= E1 E2]. apply Hx. rewrite <- Kself, <- Hself, E1, E2. done. }
      split; [|repeat case_decide; try done; congruence].
      destruct (decide (h_owner h x = from)) as [E|E]; [|done].
      rewrite E in *.
      assert (h_index h x <> last) by congruence. lia.
Qed.

(** ** The list returned by [tokensOf] *)

Lemma owned_list_lookup h a (k : nat) :
  (Z.of_nat k < h_balance h a) ->
  owned_list h a !! k = Some (h_token h a (Z.of_nat k)).
Proof.
  intros Hk. unfold owned_list. rewrite list_lookup_fmap.
  rewrite lookup_seqZ_lt by lia. simpl. by rewrite Z.add_0_l.
Qed.

Lemma owned_list_length h a :
  0 <= h_balance h a -> Z.of_nat (length (owned_list h a)) = h_balance h a.
Proof. intros. unfold owned_list. rewrite length_fmap, length_seqZ. lia. Qed.

Lemma owned_list_elem h a id :
  holdings_ok h -> a <> 0 ->
  id ∈ owned_list h a <-> h_owner h id = a.
Proof.
  intros [Kb Kt Ki] Ha. unfold owned_list. rewrite list_elem_of_fmap. split.
  - intros (i & -> & Hi). apply elem_of_seqZ in Hi.
    by apply Kt; [|lia].
  - intros Hid. subst a. destruct (Ki id Ha) as [Hr Hs].
    exists (h_index h id). split; [done|]. apply elem_of_seqZ. lia.
Qed.

Lemma owned_list_NoDup h a :
  holdings_ok h -> a <> 0 -> NoDup (owned_list h a).
Proof.
  intros [Kb Kt Ki] Ha. unfold owned_list.
  apply NoDup_fmap_2_strong; [|apply NoDup_seqZ].
  intros i j Hi Hj E. apply elem_of_seqZ in Hi, Hj.
  destruct (Kt a i Ha ltac:(lia)) as [_ Ei].
  destruct (Kt a j Ha ltac:(lia)) as [_ Ej].
  congruence.
Qed.

(** An account never holds more certificates than were minted. *)
Lemma balance_bound h a n :
  holdings_ok h -> a <> 0 ->
  (forall id, h_owner h id <> 0 -> 1 <= id < n) ->
  h_balance h a <= Z.max 0 (n - 1).
Proof.
  intros Hok Ha Hminted.
  assert (owned_list h a ⊆+ seqZ 1 (n - 1)) as Hsub.
  { apply NoDup_submseteq; [by apply owned_list_NoDup|].
    intros id Hid. apply owned_list_elem in Hid; [|done..].
    apply elem_of_seqZ. specialize (Hminted id). lia. }
  apply submseteq_length in Hsub. rewrite length_seqZ in Hsub.
  pose proof (owned_list_length h a) as Hl.
  destruct Hok as [Kb _ _]. specialize (Kb a). lia.
Qed.

Lemma owned_list_add to id h a :
  0 <= h_balance h to ->
  owned_list (h_add to id h) a =
    if decide (a = to) then owned_list h to ++ [id] else owned_list h a.
Proof.
  intros Hb. unfold owned_list, h_add; simpl. case_decide as E.
  - subst a. rewrite seqZ_app by lia. rewrite fmap_app. simpl.
    rewrite decide_True by (f_equal; lia). f_equal.
    apply list_fmap_ext. intros k i Hi%list_elem_of_lookup_2%elem_of_seqZ.
    rewrite decide_False; [done|]. intros [= ?]. lia.
  - apply list_fmap_ext. intros k i _. rewrite decide_False; [done|]. congruence.
Qed.

Lemma owned_list_same h h' a :
  h_same h h' -> owned_list h' a = owned_list h a.
Proof.
  intros (_ & Hb & Ht & _). unfold owned_list. rewrite Hb.
  apply list_fmap_ext. intros. apply Ht.
Qed.

Lemma tokensOf_loop_spec a t (n : nat) (i : Z) :
  a <> 0 -> 0 <= i -> i + Z.of_nat n <= sload 0 (_balances t) a ->
  tokensOf_loop a n i t = Ok (h_token (holdings t) a <$> seqZ i (Z.of_nat n), t).
Proof.
  intros Ha. revert i. induction n as [|n IH]; intros i Hi Hn.
  - done.
  - simpl tokensOf_loop. unfold bind, tokenOfOwnerByIndex, balanceOf, bind.
    rewrite bool_decide_eq_false_2 by done.
    rewrite bool_decide_eq_false_2 by lia.
    unfold gets. rewrite IH by lia. unfold ret.
    replace (Z.of_nat (S n)) with (1 + Z.of_nat n) by lia.
    rewrite (seqZ_cons i) by lia. simpl. repeat f_equal; lia.
Qed.

Section Views.
Context `{B : FHEBackend}.

Lemma tokensOf_spec a (s : State) :
  a <> 0 -> 0 <= sload 0 (_balances (token s)) a ->
  tokensOf a s = Ok (owned_list (holdings (token s)) a).
Proof.
  intros Ha Hb. unfold tokensOf, bind, balanceOf.
  rewrite bool_decide_eq_false_2 by done.
  rewrite tokensOf_loop_spec by (try done; lia).
  unfold owned_list. simpl. rewrite Z2Nat.id by done. done.
Qed.
End Views.

(** ** What a successful call did *)

Ltac units := repeat match goal with u : () |- _ => destruct u end.

Section Inversion.
Context `{B : FHEBackend}.

Lemma stake_inv tx v (s : State) r s' :
  stake tx v s = Ok (r, s') ->
  _status s = NOT_ENTERED /\ 0 < v /\ _nextTokenId s + 1 <= MAX_UINT256
  /\ callee_ok tx = true
  /\ exists t',
      _mint (sender tx) (_nextTokenId s) (token s) = Ok (tt, t')
      /\ r = {| returned := _nextTokenId s;
                logs := [StakeMinted (sender tx) (_nextTokenId s)
                           (asEuint256 v)];
                payout := None |}
      /\ s' = {| _status := NOT_ENTERED; token := t';
                 decryptionOracle := decryptionOracle s;
                 enforceOracleCheck := enforceOracleCheck s;
                 _nextTokenId := _nextTokenId s + 1;
                 _encryptedStakes :=
                   sstore 0 (_nextTokenId s) (asEuint256 v)
                     (_encryptedStakes s);
                 _pendingByRequest := _pendingByRequest s;
                 _requestByToken :=
                   sstore 0 (_nextTokenId s) 0 (_requestByToken s);
                 _isTokenPending :=
                   sstore false (_nextTokenId s) false (_isTokenPending s);
                 ethBalance := ethBalance s + v;
                 fheStore :=
                   allow (asEuint256 v) (sender tx)
                     (allowThis (asEuint256 v) (fheStore s)) |}.
Proof.
  unfold stake, nonReentrant, liftToken, _safeMint, checkOnERC721Received,
    FHE_toBytes32.
  unmonad. simpl. intros Hm. msimpl. simpl in *. units.
  split_and!; try done. eexists. split_and!; try done.
  all: try by destruct s.
Qed.

Lemma redeem_inv tx id (s : State) r s' :
  redeem tx id s = Ok (r, s') ->
  _status s = NOT_ENTERED
  /\ _ownerOf id (token s) <> 0
  /\ _isAuthorized (_ownerOf id (token s)) (sender tx) id (token s) = true
  /\ sload false (_isTokenPending s) id = false
  /\ sload 0 (_encryptedStakes s) id <> 0
  /\ exists t' requestId f',
      _burn id (token s) = Ok (tt, t')
      /\ requestDecryption [sload 0 (_encryptedStakes s) id] (fheStore s)
         = Some (requestId, f')
      /\ r = {| returned := requestId;
                logs := [WithdrawRequested (_ownerOf id (token s)) id
                           requestId];
                payout := None |}
      /\ s' = {| _status := NOT_ENTERED; token := t';
                 decryptionOracle := decryptionOracle s;
                 enforceOracleCheck := enforceOracleCheck s;
                 _nextTokenId := _nextTokenId s;
                 _encryptedStakes := sstore 0 id 0 (_encryptedStakes s);
                 _pendingByRequest :=
                   sstore noPending requestId
                     {| recipient := _ownerOf id (token s); tokenId := id;
                        exists_ := true |}
                     (_pendingByRequest s);
                 _requestByToken :=
                   sstore 0 id requestId (_requestByToken s);
                 _isTokenPending :=
                   sstore false id true (_isTokenPending s);
                 ethBalance := ethBalance s;
                 fheStore := f' |}.
Proof.
  unfold redeem, nonReentrant, liftToken, FHE_requestDecryption,
    FHE_isInitialized, FHE_toBytes32.
  unmonad. simpl. intros Hm. msimpl. simpl in *. units.
  match goal with H : negb _ = true |- _ => apply negb_true_iff in H end.
  split_and!; try done. do 3 eexists. split_and!; try done.
  all: try by destruct s.
Qed.

Lemma fulfill_effects_inv tx requestId cleartexts proof (s : State) pa s' :
  fulfill_effects tx requestId cleartexts proof s = Ok (pa, s') ->
  oracle_gate tx s
  /\ exists_ (sload noPending (_pendingByRequest s) requestId) = true
  /\ checkSignatures requestId cleartexts proof (fheStore s) = true
  /\ abi_decode_uint256 cleartexts = Some pa.2
  /\ pa.1 = sload noPending (_pendingByRequest s) requestId
  /\ s' = {| _status := _status s; token := token s;
             decryptionOracle := decryptionOracle s;
             enforceOracleCheck := enforceOracleCheck s;
             _nextTokenId := _nextTokenId s;
             _encryptedStakes := _encryptedStakes s;
             _pendingByRequest :=
               sstore noPending requestId noPending (_pendingByRequest s);
             _requestByToken :=
               sstore 0 (tokenId pa.1) 0 (_requestByToken s);
             _isTokenPending :=
               sstore false (tokenId pa.1) false (_isTokenPending s);
             ethBalance := ethBalance s;
             fheStore := fheStore s |}.
Proof.
  unfold fulfill_effects, FHE_checkSignatures, abi_decode, oracle_gate.
  unmonad. simpl. intros Hm.
  msimpl; simpl in *; split_and!; auto;
    match goal with s : State |- _ => destruct s; simpl in *; by subst end.
Qed.

Lemma onDecryptionFulfilled_inv tx requestId cleartexts proof (s : State) r s' :
  onDecryptionFulfilled tx requestId cleartexts proof s = Ok (r, s') ->
  _status s = NOT_ENTERED
  /\ exists pending amount mid,
      fulfill_effects tx requestId cleartexts proof
        (set_status (fun _ => ENTERED) s) = Ok ((pending, amount), mid)
      /\ amount <= ethBalance s /\ callee_ok tx = true
      /\ r = {| returned := 1;
                logs := [WithdrawCompleted (recipient pending)
                           (tokenId pending) amount];
                payout := Some (recipient pending, amount) |}
      /\ s' = set_status (fun _ => NOT_ENTERED)
                (set_ethBalance (fun b => b - amount) mid).
Proof.
  unfold onDecryptionFulfilled, nonReentrant, fulfill_interaction, send_value.
  unmonad. simpl. intros Hm.
  destruct (_status s) eqn:Hst; simpl in Hm; [|done].
  destruct (fulfill_effects _ _ _ _ _) as [[[pending amount] mid]|] eqn:He;
    [|done].
  pose proof (fulfill_effects_inv _ _ _ _ _ _ _ He) as (_ & _ & _ & _ & _ & ->).
  simpl in *. msimpl. destruct_and?.
  split; [done|]. do 3 eexists. split_and!; try done.
Qed.
End Inversion.

Lemma approve_post tx to id t t' :
  approve tx to id t = Ok (tt, t') ->
  _ownerOf id t <> 0 /\ t' = set_tokenApprovals (sstore 0 id to) t.
Proof.
  unfold approve, _approve, _requireOwned. unmonad. simpl. intros Hm.
  msimpl; units; done.
Qed.

Lemma setApprovalForAll_post tx operator approved t t' :
  setApprovalForAll tx operator approved t = Ok (tt, t') ->
  operator <> 0
  /\ t' = set_operatorApprovals
            (sstore false (sender tx, operator) approved) t.
Proof.
  unfold setApprovalForAll, _setApprovalForAll. unmonad. intros Hm.
  msimpl. done.
Qed.

Lemma safeTransferFrom_inv tx from to id t t' :
  safeTransferFrom tx from to id t = Ok (tt, t') ->
  transferFrom tx from to id t = Ok (tt, t') /\ callee_ok tx = true.
Proof.
  unfold safeTransferFrom, checkOnERC721Received. unmonad. intros Hm.
  msimpl. units. done.
Qed.

Section TokenCalls.
Context `{B : FHEBackend}.

Lemma liftToken_inv {A} (m : M ERC721 A) (s : State) a s' :
  liftToken m s = Ok (a, s') ->
  exists t', m (token s) = Ok (a, t') /\ s' = set_token (fun _ => t') s.
Proof.
  unfold liftToken. intros Hm. msimpl. eauto.
Qed.

Lemma token_call_inv (m : M ERC721 unit) (s : State) r s' :
  (liftToken m ;;; ret noReceipt) s = Ok (r, s') ->
  exists t', m (token s) = Ok (tt, t') /\ s' = set_token (fun _ => t') s
             /\ r = noReceipt.
Proof.
  unmonad. intros Hm.
  destruct (liftToken m s) as [[[] s1]|] eqn:E; [|done].
  apply liftToken_inv in E as (t' & E & ->). simplify_eq. eauto.
Qed.
End TokenCalls.

(** ** The storage invariant holds between transactions *)

Section Preservation.
Context `{B : FHEBackend}.

Lemma constructor_wf oracleAddress enforceOracle :
  wf (constructor oracleAddress enforceOracle).
Proof.
  split; simpl; try done.
  split; unfold holdings, _ownerOf; simpl; intros;
    rewrite ?sload_empty in *; try done; try lia.
Qed.

Lemma stake_wf tx v (s : State) r s' :
  wf s -> stake tx v s = Ok (r, s') -> wf s'.
Proof.
  intros [Hst Hn Hmi Hh Hsk Hp Hno Hap] Hm.
  apply stake_inv in Hm as (_ & Hv & Hnext & Hok & t' & Hmint & -> & ->).
  apply mint_post in Hmint as (Hto & Hfree & Hlt & Hsame & Hta & Hoa);
    [|apply Hh].
  pose proof Hsame as (Ho & _).
  split; simpl.
  - done.
  - lia.
  - intros id. change (_ownerOf id t') with (h_owner (holdings t') id).
    rewrite Ho. simpl. case_decide; [lia|]. intros Hx%Hmi. lia.
  - eapply holdings_ok_same; [done|]. by apply h_add_ok.
  - intros id. change (_ownerOf id t') with (h_owner (holdings t') id).
    rewrite Ho, sload_sstore. simpl. case_decide; [done|]. apply Hsk.
  - intros id. change (_ownerOf id t') with (h_owner (holdings t') id).
    rewrite Ho, sload_sstore. simpl. case_decide; [done|]. apply Hp.
  - intros op. unfold isApprovedForAll. rewrite Hoa. apply Hno.
  - intros id. change (_ownerOf id t') with (h_owner (holdings t') id).
    rewrite Ho. simpl. case_decide; [done|].
    unfold _getApproved. rewrite Hta. apply Hap.
Qed.

Lemma redeem_wf tx id (s : State) r s' :
  wf s -> redeem tx id s = Ok (r, s') -> wf s'.
Proof.
  intros [Hst Hn Hmi Hh Hsk Hp Hno Hap] Hm.
  apply redeem_inv in Hm
    as (_ & Hown & _ & _ & _ & t' & rid & f' & Hburn & _ & -> & ->).
  apply burn_post in Hburn as (_ & Hsame & Hta & Hoa); [|done].
  pose proof Hsame as (Ho & _).
  split; simpl.
  - done.
  - done.
  - intros x. change (_ownerOf x t') with (h_owner (holdings t') x).
    rewrite Ho. simpl. case_decide; [done|]. apply Hmi.
  - eapply holdings_ok_same; [done|]. by apply h_remove_ok.
  - intros x. change (_ownerOf x t') with (h_owner (holdings t') x).
    rewrite Ho, sload_sstore. simpl. case_decide; [done|]. apply Hsk.
  - intros x. change (_ownerOf x t') with (h_owner (holdings t') x).
    rewrite Ho, sload_sstore. simpl. case_decide; [done|]. apply Hp.
  - intros op. unfold isApprovedForAll. rewrite Hoa. apply Hno.
  - intros x. change (_ownerOf x t') with (h_owner (holdings t') x).
    rewrite Ho. unfold _getApproved. rewrite Hta, sload_sstore. simpl.
    case_decide; [done|]. apply Hap.
Qed.

Lemma fulfill_wf tx rid c p (s : State) r s' :
  wf s -> onDecryptionFulfilled tx rid c p s = Ok (r, s') -> wf s'.
Proof.
  intros [Hst Hn Hmi Hh Hsk Hp Hno Hap] Hm.
  apply onDecryptionFulfilled_inv in Hm
    as (_ & pending & amount & mid & He & _ & _ & -> & ->).
  apply fulfill_effects_inv in He as (_ & _ & _ & _ & _ & ->).
  split; simpl; try done.
  intros x. rewrite sload_sstore. case_decide; [done|]. apply Hp.
Qed.

Lemma set_token_wf (s : State) t' :
  wf s ->
  (forall id, _ownerOf id t' <> 0 -> 1 <= id < _nextTokenId s) ->
  holdings_ok (holdings t') ->
  (forall id, _ownerOf id (token s) <> 0 -> _ownerOf id t' <> 0) ->
  (forall id, _ownerOf id (token s) = 0 -> _ownerOf id t' = 0) ->
  (forall op, isApprovedForAll 0 op t' = false) ->
  (forall id, _ownerOf id t' = 0 -> _getApproved id t' = 0) ->
  wf (set_token (fun _ => t') s).
Proof.
  intros [Hst Hn Hmi Hh Hsk Hp Hno Hap] ? ? Hl Hd ? ?.
  split; simpl; auto.
Qed.

Lemma transferFrom_wf tx from to id (s : State) t' :
  wf s -> sender tx <> 0 ->
  transferFrom tx from to id (token s) = Ok (tt, t') ->
  wf (set_token (fun _ => t') s).
Proof.
  intros Hwf Hs Hm. pose proof Hwf as [Hst Hn Hmi Hh Hsk Hp Hno Hap].
  apply transfer_post in Hm
    as (-> & Hown & Hto & _ & Hcase & Hta & Hoa); [|done..|apply Hap].
  assert (forall x, _ownerOf x t' =
            if decide (x = id) then to else _ownerOf x (token s)) as Ho.
  { intros x. change (_ownerOf x t') with (h_owner (holdings t') x).
    destruct (decide (_ownerOf id (token s) = to)) as [E|E].
    - destruct Hcase as (Ho & _). rewrite Ho. simpl.
      case_decide; congruence.
    - destruct Hcase as (_ & Ho & _). rewrite Ho. simpl.
      by repeat case_decide. }
  apply set_token_wf; try done.
  - intros x. rewrite Ho.
    destruct (decide (x = id)) as [->|]; [intros _; by apply Hmi|apply Hmi].
  - destruct (decide (_ownerOf id (token s) = to)) as [E|E].
    + eapply holdings_ok_same; done.
    + destruct Hcase as (Hlt & Hsame).
      eapply holdings_ok_same; [done|].
      apply h_add_ok; simpl; try done.
      * by apply h_remove_ok.
      * by rewrite decide_True.
      * rewrite decide_False by done. done.
  - intros x. rewrite Ho. destruct (decide (x = id)); auto.
  - intros x. rewrite Ho. destruct (decide (x = id)) as [->|]; done.
  - intros op. unfold isApprovedForAll. rewrite Hoa. apply Hno.
  - intros x. rewrite Ho. unfold _getApproved. rewrite Hta, sload_sstore.
    destruct (decide (x = id)); [done|]. apply Hap.
Qed.

Lemma exec_wf tx c (s : State) r s' :
  wf s -> sender tx <> 0 -> exec tx c s = Ok (r, s') -> wf s'.
Proof.
  intros Hwf Hs Hm. destruct c; simpl in Hm.
  - by eapply stake_wf.
  - by eapply redeem_wf.
  - by eapply fulfill_wf.
  - apply token_call_inv in Hm as (t' & Hm & -> & _).
    apply approve_post in Hm as (Hown & ->).
    destruct Hwf as [Hst Hn Hmi Hh Hsk Hp Hno Hap].
    split; simpl; try done.
    intros x Hx. unfold _getApproved. simpl. rewrite sload_sstore.
    case_decide; [by subst|by apply Hap].
  - apply token_call_inv in Hm as (t' & Hm & -> & _).
    apply setApprovalForAll_post in Hm as (Hop & ->).
    destruct Hwf as [Hst Hn Hmi Hh Hsk Hp Hno Hap].
    split; simpl; try done.
    intros op. unfold isApprovedForAll. simpl. rewrite sload_sstore.
    case_decide; [congruence|apply Hno].
  - apply token_call_inv in Hm as (t' & Hm & -> & _).
    by eapply transferFrom_wf.
  - apply token_call_inv in Hm as (t' & Hm & -> & _).
    apply safeTransferFrom_inv in Hm as (Hm & _).
    by eapply transferFrom_wf.
Qed.
End Preservation.

(** ** Histories *)

Section Traces.
Context `{B : FHEBackend}.

Lemma trace_wf (s0 s : State) tr : wf s0 -> trace_from s0 tr s -> wf s.
Proof. intros H0. induction 1; [done|]. by eapply exec_wf. Qed.

Lemma reachable_wf (s : State) : reachable s -> wf s.
Proof.
  intros (o & e & tr & Htr). eapply trace_wf; [|done]. apply constructor_wf.
Qed.

Lemma trace_reachable (s0 s : State) tr :
  reachable s0 -> trace_from s0 tr s -> reachable s.
Proof.
  intros (o & e & tr0 & H0). induction 1 as [|tr s tx c r s' _ IH Hs Hm].
  - by exists o, e, tr0.
  - destruct IH as (o' & e' & tr' & IH).
    exists o', e', (tr' ++ [(tx, c, r)]). by econstructor.
Qed.

Lemma trace_step (s s' : State) tx c r :
  sender tx <> 0 -> exec tx c s = Ok (r, s') ->
  trace_from s [(tx, c, r)] s'.
Proof. intros. apply (trace_snoc s [] s); [constructor|done..]. Qed.

(** The four inherited entry points only write the token storage. *)
Lemma token_only tx c (s : State) r s' :
  exec tx c s = Ok (r, s') ->
  match c with
  | Stake _ | Redeem _ | Fulfill _ _ _ => True
  | _ => exists t', s' = set_token (fun _ => t') s /\ r = noReceipt
  end.
Proof.
  destruct c; simpl; try done; intros Hm;
    apply token_call_inv in Hm as (t' & _ & -> & ->); eauto.
Qed.

(** The id counter never decreases. *)
Lemma exec_next tx c (s : State) r s' :
  exec tx c s = Ok (r, s') -> _nextTokenId s <= _nextTokenId s'.
Proof.
  intros Hm. pose proof (token_only _ _ _ _ _ Hm) as Ht.
  destruct c; simpl in *;
    try (destruct Ht as (t' & -> & _); simpl; lia).
  - apply stake_inv in Hm as (_ & _ & _ & _ & t' & _ & _ & ->). simpl. lia.
  - apply redeem_inv in Hm
      as (_ & _ & _ & _ & _ & t' & rid & f' & _ & _ & _ & ->). simpl. lia.
  - apply onDecryptionFulfilled_inv in Hm
      as (_ & pending & amount & mid & He & _ & _ & _ & ->).
    apply fulfill_effects_inv in He as (_ & _ & _ & _ & _ & ->). simpl. lia.
Qed.

Lemma transfer_owner tx from to id (s : State) t' :
  wf s -> sender tx <> 0 ->
  transferFrom tx from to id (token s) = Ok (tt, t') ->
  _ownerOf id (token s) <> 0 /\ to <> 0
  /\ forall x, _ownerOf x t' =
        if decide (x = id) then to else _ownerOf x (token s).
Proof.
  intros Hwf Hs Hm.
  apply transfer_post in Hm
    as (-> & Hown & Hto & _ & Hcase & _); [|done|apply Hwf..].
  split_and!; try done.
  intros x. change (_ownerOf x t') with (h_owner (holdings t') x).
  destruct (decide (_ownerOf id (token s) = to)) as [E|E].
  - destruct Hcase as (Ho & _). rewrite Ho. simpl.
    case_decide; congruence.
  - destruct Hcase as (_ & Ho & _). rewrite Ho. simpl.
    by repeat case_decide.
Qed.

Lemma exec_owner tx c (s : State) r s' x :
  wf s -> sender tx <> 0 -> exec tx c s = Ok (r, s') ->
  _ownerOf x (token s') = owner_after tx c s x.
Proof.
  intros Hwf Hs Hm. destruct c; simpl in Hm; unfold owner_after.
  - apply stake_inv in Hm as (_ & _ & _ & _ & t' & Hmint & _ & ->).
    apply mint_post in Hmint as (_ & _ & _ & (Ho & _) & _);
      [|apply Hwf].
    apply Ho.
  - apply redeem_inv in Hm
      as (_ & _ & _ & _ & _ & t' & rid & f' & Hburn & _ & _ & ->).
    apply burn_post in Hburn as (_ & (Ho & _) & _); [|apply Hwf].
    apply Ho.
  - apply onDecryptionFulfilled_inv in Hm
      as (_ & pending & amount & mid & He & _ & _ & _ & ->).
    by apply fulfill_effects_inv in He as (_ & _ & _ & _ & _ & ->).
  - apply token_call_inv in Hm as (t' & Hm & -> & _).
    by apply approve_post in Hm as (_ & ->).
  - apply token_call_inv in Hm as (t' & Hm & -> & _).
    by apply setApprovalForAll_post in Hm as (_ & ->).
  - apply token_call_inv in Hm as (t' & Hm & -> & _).
    by apply transfer_owner in Hm as (_ & _ & Ho).
  - apply token_call_inv in Hm as (t' & Hm & -> & _).
    apply safeTransferFrom_inv in Hm as (Hm & _).
    by apply transfer_owner in Hm as (_ & _ & Ho).
Qed.

Lemma exec_stakes tx c (s : State) r s' x :
  exec tx c s = Ok (r, s') ->
  sload 0 (_encryptedStakes s') x = stake_after c s x.
Proof.
  intros Hm. pose proof (token_only _ _ _ _ _ Hm) as Ht.
  destruct c; simpl in *;
    try (by destruct Ht as (t' & -> & _)).
  - apply stake_inv in Hm as (_ & _ & _ & _ & t' & _ & _ & ->). simpl.
    apply sload_sstore.
  - apply redeem_inv in Hm
      as (_ & _ & _ & _ & _ & t' & rid & f' & _ & _ & _ & ->). simpl.
    apply sload_sstore.
  - apply onDecryptionFulfilled_inv in Hm
      as (_ & pending & amount & mid & He & _ & _ & _ & ->).
    by apply fulfill_effects_inv in He as (_ & _ & _ & _ & _ & ->).
Qed.

(** Only a live certificate can be moved. *)
Lemma exec_moves_live tx c (s : State) r s' :
  wf s -> sender tx <> 0 -> exec tx c s = Ok (r, s') ->
  match c with
  | Redeem id | TransferFrom _ _ id | SafeTransferFrom _ _ id =>
      _ownerOf id (token s) <> 0
  | _ => True
  end.
Proof.
  intros Hwf Hs Hm. destruct c; simpl in Hm; try done.
  - by apply redeem_inv in Hm as (_ & ? & _).
  - apply token_call_inv in Hm as (t' & Hm & -> & _).
    by apply transfer_owner in Hm as (? & _).
  - apply token_call_inv in Hm as (t' & Hm & -> & _).
    apply safeTransferFrom_inv in Hm as (Hm & _).
    by apply transfer_owner in Hm as (? & _).
Qed.

(** A burned certificate stays burned. *)
Lemma exec_burned tx c (s : State) r s' id :
  wf s -> sender tx <> 0 -> exec tx c s = Ok (r, s') ->
  burned id s -> burned id s'.
Proof.
  intros Hwf Hs Hm (Hown & Hstake & Hlt).
  pose proof (exec_next _ _ _ _ _ Hm) as Hnext.
  pose proof (exec_moves_live _ _ _ _ _ Hwf Hs Hm) as Hlive.
  unfold burned.
  rewrite (exec_owner _ _ _ _ _ _ Hwf Hs Hm), (exec_stakes _ _ _ _ _ _ Hm).
  split_and!; [| |lia];
    destruct c; simpl in *; repeat case_decide; subst; try done; lia.
Qed.

Lemma trace_burned (s s' : State) tr id :
  wf s -> trace_from s tr s' -> burned id s -> burned id s'.
Proof.
  intros Hwf Htr Hb. induction Htr as [|tr s1 tx c r s2 Htr IH Hs Hm]; [done|].
  eapply exec_burned; [by eapply trace_wf|done..|by apply IH].
Qed.
End Traces.

(** ** Decryption requests *)

Section Requests.
Context `{B : FHEBackend} `{!FHELaws B}.

Abbreviation record s rid := (sload noPending (_pendingByRequest s) rid).

Lemma exec_issued tx c (s : State) r s' x :
  exec tx c s = Ok (r, s') ->
  issued (fheStore s) x -> issued (fheStore s') x.
Proof.
  intros Hm Hx. pose proof (token_only _ _ _ _ _ Hm) as Ht.
  destruct c; simpl in *;
    try (by destruct Ht as (t' & -> & _)).
  - apply stake_inv in Hm as (_ & _ & _ & _ & t' & _ & _ & ->). simpl.
    by apply allow_issued, allowThis_issued.
  - apply redeem_inv in Hm
      as (_ & _ & _ & _ & _ & t' & rid & f' & _ & Hreq & _ & ->). simpl.
    by eapply request_mono.
  - apply onDecryptionFulfilled_inv in Hm
      as (_ & pending & amount & mid & He & _ & _ & _ & ->).
    by apply fulfill_effects_inv in He as (_ & _ & _ & _ & _ & ->).
Qed.

(** The record of a request after a successful call: a redeem creates the
    record of the request it is given, a fulfillment deletes the record of
    its request, and nothing else touches a record. *)
Lemma exec_record tx c (s : State) r s' rid :
  exec tx c s = Ok (r, s') ->
  record s' rid =
    match c with
    | Redeem id =>
        if decide (rid = returned r)
        then {| recipient := _ownerOf id (token s); tokenId := id;
                exists_ := true |}
        else record s rid
    | Fulfill rid' _ _ => if decide (rid = rid') then noPending else record s rid
    | _ => record s rid
    end.
Proof.
  intros Hm. pose proof (token_only _ _ _ _ _ Hm) as Ht.
  destruct c; simpl in *;
    try (by destruct Ht as (t' & -> & _)).
  - by apply stake_inv in Hm as (_ & _ & _ & _ & t' & _ & _ & ->).
  - apply redeem_inv in Hm
      as (_ & _ & _ & _ & _ & t' & rid' & f' & _ & _ & -> & ->). simpl.
    apply sload_sstore.
  - apply onDecryptionFulfilled_inv in Hm
      as (_ & pending & amount & mid & He & _ & _ & _ & ->).
    apply fulfill_effects_inv in He as (_ & _ & _ & _ & _ & ->). simpl.
    apply sload_sstore.
Qed.

(** A redeem is given a request identifier that was never issued before. *)
Lemma redeem_fresh tx id (s : State) r s' :
  redeem tx id s = Ok (r, s') ->
  ~ issued (fheStore s) (returned r) /\ issued (fheStore s') (returned r).
Proof.
  intros Hm. apply redeem_inv in Hm
    as (_ & _ & _ & _ & _ & t' & rid' & f' & _ & Hreq & -> & ->). simpl.
  split; [by eapply request_fresh | by eapply request_issued].
Qed.

Lemma exec_requests_wf tx c (s : State) r s' :
  requests_wf s -> exec tx c s = Ok (r, s') -> requests_wf s'.
Proof.
  intros Hwf Hm rid. rewrite (exec_record _ _ _ _ _ _ Hm).
  pose proof (exec_issued _ _ _ _ _ rid Hm) as Hmono.
  destruct c; auto.
  - case_decide as E; [|auto]. intros _. subst rid.
    by apply redeem_fresh in Hm as (_ & ?).
  - case_decide; [done|auto].
Qed.

Lemma constructor_requests_wf o e : requests_wf (constructor o e).
Proof. intros rid. simpl. by rewrite sload_empty. Qed.

Lemma trace_requests_wf (s s' : State) tr :
  requests_wf s -> trace_from s tr s' -> requests_wf s'.
Proof. intros H0. induction 1; [done|]. by eapply exec_requests_wf. Qed.

Lemma reachable_requests_wf (s : State) : reachable s -> requests_wf s.
Proof.
  intros (o & e & tr & Htr). eapply trace_requests_wf; [|done].
  apply constructor_requests_wf.
Qed.

(** What a successful fulfillment pays, and to whom. *)
Lemma fulfill_pays tx rid c p (s : State) r s' :
  onDecryptionFulfilled tx rid c p s = Ok (r, s') ->
  exists amount,
    abi_decode_uint256 c = Some amount
    /\ exists_ (record s rid) = true
    /\ checkSignatures rid c p (fheStore s) = true
    /\ payout r = Some (recipient (record s rid), amount)
    /\ ethBalance s' = ethBalance s - amount
    /\ amount <= ethBalance s.
Proof.
  intros Hm. apply onDecryptionFulfilled_inv in Hm
    as (_ & pending & amount & mid & He & Hle & _ & -> & ->).
  apply fulfill_effects_inv in He as (_ & Hex & Hsig & Hdec & Hrec & ->).
  simpl in *. subst pending. exists amount. by split_and!.
Qed.

(** A consumed request stays consumed. *)
Lemma exec_consumed tx c (s : State) r s' rid :
  exec tx c s = Ok (r, s') -> consumed rid s -> consumed rid s'.
Proof.
  intros Hm (Hiss & Hgone). split; [by eapply exec_issued|].
  rewrite (exec_record _ _ _ _ _ _ Hm). destruct c; try done.
  - case_decide as E; [|done]. subst rid.
    by apply redeem_fresh in Hm as (? & _).
  - by case_decide.
Qed.

Lemma trace_consumed (s s' : State) tr rid :
  trace_from s tr s' -> consumed rid s -> consumed rid s'.
Proof. induction 1; [done|]. intros. eapply exec_consumed; eauto. Qed.

Lemma fulfill_consumes tx rid c p (s : State) r s' :
  requests_wf s ->
  onDecryptionFulfilled tx rid c p s = Ok (r, s') -> consumed rid s'.
Proof.
  intros Hwf Hm. split.
  - eapply (exec_issued tx (Fulfill rid c p)); [done|].
    apply Hwf. by apply fulfill_pays in Hm as (? & _ & ? & _).
  - rewrite (exec_record tx (Fulfill rid c p) s r s' rid Hm).
    by rewrite decide_True.
Qed.

(** Fulfilling a request without a record fails; the error is
    [UnknownRequest] once the caller is past the strict-sender gate. *)
Lemma fulfill_no_record tx rid c p (s : State) :
  _status s = NOT_ENTERED ->
  exists_ (record s rid) = false ->
  exists e, onDecryptionFulfilled tx rid c p s = Revert e
            /\ (oracle_gate tx s -> e = UnknownRequest)
            /\ (~ oracle_gate tx s -> e = InvalidOracle).
Proof.
  intros Hst Hgone.
  unfold onDecryptionFulfilled, nonReentrant, fulfill_effects, oracle_gate.
  unmonad. simpl. rewrite Hst. simpl.
  destruct (enforceOracleCheck s); [case_bool_decide|]; simpl;
    rewrite ?Hgone; eexists; (split; [done|]); split; intros;
    try done; naive_solver.
Qed.
End Requests.

(** ** Outcomes of a transaction *)

Section Immutables.
Context `{B : FHEBackend}.

Lemma exec_immutable tx c (s : State) r s' :
  exec tx c s = Ok (r, s') ->
  enforceOracleCheck s' = enforceOracleCheck s
  /\ decryptionOracle s' = decryptionOracle s.
Proof.
  intros Hm. pose proof (token_only _ _ _ _ _ Hm) as Ht.
  destruct c; simpl in *;
    try (by destruct Ht as (t' & -> & _)).
  - by apply stake_inv in Hm as (_ & _ & _ & _ & t' & _ & _ & ->).
  - by apply redeem_inv in Hm
      as (_ & _ & _ & _ & _ & t' & rid & f' & _ & _ & _ & ->).
  - apply onDecryptionFulfilled_inv in Hm
      as (_ & pending & amount & mid & He & _ & _ & _ & ->).
    by apply fulfill_effects_inv in He as (_ & _ & _ & _ & _ & ->).
Qed.

Lemma exec_gate tx c (s : State) r s' tx' :
  exec tx c s = Ok (r, s') -> oracle_gate tx' s -> oracle_gate tx' s'.
Proof.
  intros Hm. apply exec_immutable in Hm as (He & Ho).
  unfold oracle_gate. by rewrite He, Ho.
Qed.

Lemma call_reverted tx c (s : State) e :
  exec tx c s = Revert e -> call tx c s = (s, Reverted e).
Proof. unfold call. by intros ->. Qed.

Lemma call_success tx c (s : State) r s' :
  exec tx c s = Ok (r, s') -> call tx c s = (s', Success r).
Proof. unfold call. by intros ->. Qed.

(** The value transfer decides the outcome once the checks have passed. *)
Lemma fulfill_forward tx rid c p (s : State) pending amount mid :
  _status s = NOT_ENTERED ->
  fulfill_effects tx rid c p (set_status (fun _ => ENTERED) s)
    = Ok ((pending, amount), mid) ->
  onDecryptionFulfilled tx rid c p s =
    if bool_decide (amount <= ethBalance s) && callee_ok tx
    then Ok ({| returned := 1;
                logs := [WithdrawCompleted (recipient pending)
                           (tokenId pending) amount];
                payout := Some (recipient pending, amount) |},
             set_status (fun _ => NOT_ENTERED)
               (set_ethBalance (fun b => b - amount) mid))
    else Revert TransferFailed.
Proof.
  intros Hst He.
  unfold onDecryptionFulfilled, nonReentrant, fulfill_interaction, send_value.
  unmonad. simpl. rewrite Hst. simpl. rewrite He.
  apply fulfill_effects_inv in He as (_ & _ & _ & _ & _ & ->). simpl.
  by destruct (bool_decide _ && callee_ok tx).
Qed.

(** The checks of the callback look at the sender only. *)
Lemma fulfill_effects_sender tx tx' rid c p (s : State) :
  sender tx' = sender tx ->
  fulfill_effects tx' rid c p s = fulfill_effects tx rid c p s.
Proof. intros E. unfold fulfill_effects. by rewrite E. Qed.
End Immutables.

(** ** Payouts *)

Section MoreMapping.
Context `{Countable K} {V : Type} `{EqDecision V}.

Lemma sstore_zero (d : V) (k : K) (m : gmap K V) :
  sstore d k d m = delete k m.
Proof. unfold sstore. by rewrite decide_True. Qed.

Lemma sstore_zero_commute (d : V) (k k' : K) (m : gmap K V) :
  sstore d k d (sstore d k' d m) = sstore d k' d (sstore d k d m).
Proof. rewrite !sstore_zero. apply delete_delete. Qed.
End MoreMapping.

Lemma be_uint_acc (data : list Byte.byte) (acc : Z) :
  0 <= acc ->
  0 <= fold_left (fun acc b => acc * 256 + Z.of_N (Byte.to_N b)) data acc.
Proof.
  revert acc. induction data as [|b data IH]; intros acc Hacc; simpl; [done|].
  apply IH. lia.
Qed.

(** A decoded cleartext is a non-negative amount. *)
Lemma abi_decode_nonneg (data : list Byte.byte) amount :
  abi_decode_uint256 data = Some amount -> 0 <= amount.
Proof.
  unfold abi_decode_uint256. case_bool_decide; [done|].
  intros [= <-]. by apply be_uint_acc.
Qed.

Section Payouts.
Context `{B : FHEBackend} `{!FHELaws B}.

Abbreviation record s rid := (sload noPending (_pendingByRequest s) rid).

Lemma fulfill_effects_forward tx rid c p (s : State) amount :
  oracle_gate tx s ->
  exists_ (record s rid) = true ->
  checkSignatures rid c p (fheStore s) = true ->
  abi_decode_uint256 c = Some amount ->
  fulfill_effects tx rid c p s =
    Ok ((record s rid, amount),
        set_requestByToken (sstore 0 (tokenId (record s rid)) 0)
          (set_isTokenPending (sstore false (tokenId (record s rid)) false)
             (set_pendingByRequest (sstore noPending rid noPending) s))).
Proof.
  intros Hgate Hex Hsig Hdec.
  unfold fulfill_effects, FHE_checkSignatures, abi_decode. unmonad. simpl.
  destruct (enforceOracleCheck s) eqn:Hen; simpl.
  - destruct Hgate as [?|Hs]; [congruence|].
    rewrite bool_decide_eq_true_2 by done. simpl.
    rewrite Hex. simpl. rewrite Hsig. simpl. by rewrite Hdec.
  - rewrite Hex. simpl. rewrite Hsig. simpl. by rewrite Hdec.
Qed.

(** The record of a request stays as the redeem wrote it until the request
    is fulfilled, and every fulfillment of the request pays its recipient. *)
Lemma trace_payout (s1 s2 : State) tr rid R :
  requests_wf s1 ->
  record s1 rid = R -> exists_ R = true ->
  trace_from s1 tr s2 ->
  (record s2 rid = R \/ consumed rid s2)
  /\ forall tx c p r,
      (tx, Fulfill rid c p, r) ∈ tr ->
      exists amount,
        abi_decode_uint256 c = Some amount
        /\ payout r = Some (recipient R, amount).
Proof.
  intros Hreq HR Hex Htr.
  induction Htr as [|tr s tx c r s' Htr [IHrec IHpay] Hs Hm].
  { split; [by left|]. intros ? ? ? ? Hin. by apply elem_of_nil in Hin. }
  pose proof (trace_requests_wf _ _ _ Hreq Htr) as Hreq'.
  assert (Hold : forall tx0 c0 p0 r0,
    (tx0, Fulfill rid c0 p0, r0) ∈ tr ++ [(tx, c, r)] ->
    (tx0, Fulfill rid c0 p0, r0) ∈ tr
    \/ (c = Fulfill rid c0 p0 /\ r0 = r)).
  { intros ? ? ? ? [Hin|Hin%list_elem_of_singleton]%elem_of_app;
      [by left|right]. by simplify_eq. }
  destruct IHrec as [Hrec|Hcons].
  - assert ((exists c0 p0, c = Fulfill rid c0 p0)
            \/ ~ (exists c0 p0, c = Fulfill rid c0 p0))
      as [(c0 & p0 & ->)|Hother].
    { destruct c as [| |rid' c0 p0| | | |];
        try (right; intros (? & ? & ?); done).
      destruct (decide (rid' = rid)) as [->|];
        [left; eauto | right; intros (? & ? & ?); congruence]. }
    + split; [right; by eapply fulfill_consumes|].
      intros tx0 c1 p1 r1 [Hin|[Heq ->]]%Hold; [by eapply IHpay|].
      simplify_eq. simpl in Hm.
      apply fulfill_pays in Hm as (amount & ? & _ & _ & Hpay & _).
      exists amount. by rewrite Hrec in Hpay.
    + split.
      * left. rewrite (exec_record _ _ _ _ _ _ Hm).
        destruct c; try done.
        -- case_decide as E; [|done]. subst rid. exfalso.
           apply redeem_fresh in Hm as (Hfresh & _). apply Hfresh.
           apply Hreq'. by rewrite Hrec.
        -- case_decide as E; [|done]. subst. exfalso. apply Hother. eauto.
      * intros tx0 c1 p1 r1 [Hin|[Heq ->]]%Hold; [by eapply IHpay|].
        exfalso. apply Hother. eauto.
  - split; [right; by eapply exec_consumed|].
    intros tx0 c1 p1 r1 [Hin|[Heq ->]]%Hold; [by eapply IHpay|].
    subst c. simpl in Hm. exfalso.
    apply fulfill_pays in Hm as (amount & _ & Hex' & _).
    destruct Hcons as (_ & Hgone). congruence.
Qed.

(** Fulfillments of two different requests commute. *)
Lemma fulfill_commute (s : State) txa rida ca pa ra sa txb ridb cb pb rb sb :
  rida <> ridb ->
  exec txa (Fulfill rida ca pa) s = Ok (ra, sa) ->
  exec txb (Fulfill ridb cb pb) sa = Ok (rb, sb) ->
  exists sb',
    exec txb (Fulfill ridb cb pb) s = Ok (rb, sb')
    /\ exec txa (Fulfill rida ca pa) sb' = Ok (ra, sb).
Proof.
  intros Hne Ha Hb. simpl in *.
  apply onDecryptionFulfilled_inv in Ha
    as (Hst & pa' & amta & mida & Hea & Hlea & Hoka & -> & ->).
  apply fulfill_effects_inv in Hea
    as (Hga & Hexa & Hsiga & Hdeca & Hreca & ->). simpl in *.
  apply onDecryptionFulfilled_inv in Hb
    as (_ & pb' & amtb & midb & Heb & Hleb & Hokb & -> & ->).
  apply fulfill_effects_inv in Heb
    as (Hgb & Hexb & Hsigb & Hdecb & Hrecb & ->). simpl in *.
  rewrite sload_sstore, decide_False in Hexb, Hrecb by done.
  subst pa' pb'.
  pose proof (abi_decode_nonneg _ _ Hdeca).
  pose proof (abi_decode_nonneg _ _ Hdecb).
  eexists. split.
  - erewrite fulfill_forward; [|done|].
    2:{ apply fulfill_effects_forward; simpl; done. }
    simpl. rewrite bool_decide_eq_true_2 by lia. rewrite Hokb. simpl.
    reflexivity.
  - erewrite fulfill_forward; [|done|].
    2:{ apply fulfill_effects_forward; simpl; try done.
        by rewrite sload_sstore, decide_False. }
    simpl. rewrite bool_decide_eq_true_2 by lia. rewrite Hoka. simpl.
    rewrite sload_sstore, decide_False by done.
    do 2 f_equal. clear -Hne.
    destruct s as [st tk dor enf nx es pr rt ip eb fs].
    cbv [set_status set_ethBalance set_requestByToken set_isTokenPending
         set_pendingByRequest _status token decryptionOracle
         enforceOracleCheck _nextTokenId _encryptedStakes _pendingByRequest
         _requestByToken _isTokenPending ethBalance fheStore].
    f_equal; try apply sstore_zero_commute. lia.
Qed.
End Payouts.

(** ** Minting and redeeming *)

(** Minting an unused id to a receiver whose balance does not overflow
    succeeds. *)
Lemma mint_forward to id t :
  to <> 0 -> _ownerOf id t = 0 ->
  0 <= sload 0 (_balances t) to -> sload 0 (_balances t) to + 1 < 2 ^ 256 ->
  exists t', _mint to id t = Ok (tt, t').
Proof.
  intros Hto Hfree Hb Hlt.
  destruct (_mint to id t) as [[[] t']|e] eqn:E; [eauto|]. exfalso.
  revert E.
  unfold _mint, _update, ERC721_update, _addTokenToAllTokensEnumeration,
    _addTokenToOwnerEnumeration, balanceOf.
  unmonad. simpl. intros E. msimpl.
  rewrite sload_sstore, decide_True in * by done.
  rewrite wrap256_small in * by lia. lia.
Qed.

Section Minting.
Context `{B : FHEBackend}.

Lemma stake_forward tx v (s : State) t' :
  _status s = NOT_ENTERED -> 0 < v ->
  _nextTokenId s + 1 <= MAX_UINT256 -> callee_ok tx = true ->
  _mint (sender tx) (_nextTokenId s) (token s) = Ok (tt, t') ->
  exists r s', stake tx v s = Ok (r, s').
Proof.
  intros Hst Hv Hn Hok Hmint.
  unfold stake, nonReentrant, liftToken, _safeMint, checkOnERC721Received.
  unmonad. simpl. rewrite Hst. simpl.
  rewrite bool_decide_eq_true_2 by done. simpl.
  rewrite bool_decide_eq_true_2 by done. simpl.
  rewrite Hmint, Hok. simpl. eauto.
Qed.

(** Every id returned by a stake is below the id counter. *)
Lemma trace_minted_below (s0 s : State) tr :
  trace_from s0 tr s ->
  forall tx v r, (tx, Stake v, r) ∈ tr ->
    _nextTokenId s0 <= returned r < _nextTokenId s.
Proof.
  induction 1 as [|tr s tx c r s' Htr IH Hs Hm]; intros tx0 v0 r0 Hin.
  { by apply elem_of_nil in Hin. }
  pose proof (exec_next _ _ _ _ _ Hm) as Hnext.
  assert (_nextTokenId s0 <= _nextTokenId s) as Hmono.
  { clear -Htr. induction Htr as [|? ? ? ? ? ? ? IH' ? Hm']; [done|].
    apply exec_next in Hm'. lia. }
  apply elem_of_app in Hin as [Hin|Hin%list_elem_of_singleton].
  - specialize (IH _ _ _ Hin). lia.
  - simplify_eq. simpl in Hm.
    apply stake_inv in Hm as (_ & _ & _ & _ & t' & _ & -> & ->). simpl. lia.
Qed.

Lemma redeem_burned_forward tx id (s : State) :
  _status s = NOT_ENTERED -> _ownerOf id (token s) = 0 ->
  redeem tx id s = Revert InvalidCertificate.
Proof.
  intros Hst Hown. unfold redeem, nonReentrant. unmonad. simpl.
  rewrite Hst. simpl. rewrite Hown. done.
Qed.

(** In a well-formed storage the pending-flag check of [redeem] never is
    the check that rejects. *)
Lemma redeem_never_pending tx id (s : State) :
  wf s -> redeem tx id s <> Revert RedemptionAlreadyPending.
Proof.
  intros Hwf. unfold redeem, nonReentrant. unmonad. simpl.
  rewrite (wf_status _ Hwf). simpl.
  case_bool_decide as Hown; simpl; [done|].
  destruct (_isAuthorized _ _ _ _); simpl; [|done].
  destruct (sload false (_isTokenPending s) id) eqn:Hp; simpl.
  { by apply (wf_pending _ Hwf) in Hp. }
  destruct (FHE_isInitialized _); simpl; [|done].
  unfold liftToken. simpl.
  destruct (_burn id (token s)) as [[[] t']|e] eqn:Hb; simpl.
  - unfold FHE_requestDecryption. simpl.
    by destruct (requestDecryption _ _) as [[rid f']|].
  - intros [= ->]. revert Hb.
    unfold _burn, _update, ERC721_update, _removeTokenFromAllTokensEnumeration,
      _removeTokenFromOwnerEnumeration, _approve, balanceOf.
    unmonad. simpl. intros Hb. msimpl.
Qed.
End Minting.

(** ** Insertion order *)

Lemma take_out_elem id (l : list (Z * Z)) a x :
  (a, x) ∈ take_out id l <-> (a, x) ∈ l /\ x <> id.
Proof. unfold take_out. rewrite list_elem_of_filter. simpl. tauto. Qed.

Lemma take_out_NoDup id (l : list (Z * Z)) : NoDup l.*2 -> NoDup (take_out id l).*2.
Proof.
  intros Hnd. refine (sublist_NoDup _ _ Hnd _).
  apply fmap_sublist. unfold take_out. apply sublist_filter.
Qed.

(** Moving a certificate in the insertion-ordered holdings. *)
Lemma acquire_move (l : list (Z * Z)) (own : Z -> Z) from to id :
  NoDup l.*2 ->
  (forall a x, (a, x) ∈ l <-> own x = a /\ a <> 0) ->
  own id = from -> from <> 0 -> to <> 0 ->
  let l' := if decide (from = to) then l else take_out id l ++ [(to, id)] in
  NoDup l'.*2
  /\ forall a x, (a, x) ∈ l' <->
        (if decide (x = id) then to else own x) = a /\ a <> 0.
Proof.
  intros Hnd IH Hown Hfrom Hto l'. subst l'.
  destruct (decide (from = to)) as [E|E].
  - split; [done|]. intros a x. rewrite IH.
    case_decide; [subst x|]; split; intros [? ?]; split; congruence.
  - split.
    + rewrite fmap_app. apply NoDup_app.
      split_and!; [by apply take_out_NoDup| |apply NoDup_singleton].
      intros x ([a y] & -> & Hin%take_out_elem)%list_elem_of_fmap
        Hx%list_elem_of_singleton.
      simpl in *. tauto.
    + intros a x. rewrite elem_of_app, list_elem_of_singleton, take_out_elem, IH.
      case_decide as Ex; [subst x|].
      * split; [intros [[_ ?]|[= -> ]]; done|]. intros [<- _]. by right.
      * split; [intros [[? _]|[= ? ?]]; done|]. intros ?. by left.
Qed.

Section Acquired.
Context `{B : FHEBackend}.

Lemma acquired_snoc tr step : acquired (tr ++ [step]) = acquire (acquired tr) step.
Proof. unfold acquired. by rewrite fold_left_app. Qed.

(** The insertion-ordered holdings list exactly the owned certificates. *)
Lemma acquired_spec (s0 s : State) tr :
  wf s0 -> (forall id, _ownerOf id (token s0) = 0) ->
  trace_from s0 tr s ->
  NoDup (acquired tr).*2
  /\ forall a id, (a, id) ∈ acquired tr <->
                  (_ownerOf id (token s) = a /\ a <> 0).
Proof.
  intros Hwf0 Hempty Htr.
  induction Htr as [|tr s tx c r s' Htr [IHnd IH] Hs Hm].
  { split; [constructor|]. intros a id. rewrite Hempty. split.
    - intros Hin. by apply elem_of_nil in Hin.
    - intros [<- ?]. done. }
  pose proof (trace_wf _ _ _ Hwf0 Htr) as Hwf.
  pose proof (exec_moves_live _ _ _ _ _ Hwf Hs Hm) as Hlive.
  assert (Hown : forall x, _ownerOf x (token s') = owner_after tx c s x)
    by (intros; by eapply exec_owner).
  assert (Hnotin : forall x, _ownerOf x (token s) = 0 -> x ∉ (acquired tr).*2).
  { intros x Hx ([a y] & -> & Hin)%list_elem_of_fmap. simpl in Hx.
    apply IH in Hin as [? ?]. congruence. }
  rewrite acquired_snoc.
  destruct c; simpl in *.
  - (* stake *)
    apply stake_inv in Hm as (_ & _ & _ & _ & t' & Hmint & -> & _). simpl.
    assert (_ownerOf (_nextTokenId s) (token s) = 0) as Hfree.
    { destruct (decide (_ownerOf (_nextTokenId s) (token s) = 0)) as [|Hne];
        [done|]. apply (wf_minted _ Hwf) in Hne. lia. }
    split.
    + rewrite fmap_app. apply NoDup_app. split_and!; [done| |apply NoDup_singleton].
      intros x Hx Hx'%list_elem_of_singleton. simpl in Hx'. subst x.
      by apply (Hnotin _ Hfree).
    + intros a id. rewrite elem_of_app, list_elem_of_singleton, IH, Hown.
      case_decide as E.
      * subst id. split; [intros [[? ?]|[= -> ]]; [congruence|done]|].
        intros [<- _]. by right.
      * split; [intros [?|[= ? ?]]; done|]. intros ?. by left.
  - (* redeem *)
    split; [by apply take_out_NoDup|].
    intros a x. rewrite take_out_elem, IH, Hown.
    case_decide as E; [subst x|]; split; try tauto; intros [? ?]; congruence.
  - split; [done|]. intros a x. rewrite Hown. apply IH.
  - split; [done|]. intros a x. rewrite Hown. apply IH.
  - split; [done|]. intros a x. rewrite Hown. apply IH.
  - (* transferFrom *)
    apply token_call_inv in Hm as (t' & Hm & -> & _).
    apply transfer_post in Hm as (-> & ? & Hto & _); [|done|apply Hwf..].
    destruct (acquire_move (acquired tr) (fun x => _ownerOf x (token s))
                (_ownerOf id (token s)) to id) as [Hnd' Hspec]; try done.
    split; [done|]. intros a x. rewrite Hspec. by rewrite Hown.
  - (* safeTransferFrom *)
    apply token_call_inv in Hm as (t' & Hm & -> & _).
    apply safeTransferFrom_inv in Hm as (Hm & _).
    apply transfer_post in Hm as (-> & ? & Hto & _); [|done|apply Hwf..].
    destruct (acquire_move (acquired tr) (fun x => _ownerOf x (token s))
                (_ownerOf id (token s)) to id) as [Hnd' Hspec]; try done.
    split; [done|]. intros a x. rewrite Hspec. by rewrite Hown.
Qed.

Lemma insertion_order_elem (s0 s : State) tr a id :
  wf s0 -> (forall id, _ownerOf id (token s0) = 0) ->
  trace_from s0 tr s -> a <> 0 ->
  id ∈ insertion_order tr a <-> _ownerOf id (token s) = a.
Proof.
  intros Hwf0 Hempty Htr Ha.
  destruct (acquired_spec _ _ _ Hwf0 Hempty Htr) as [_ Hspec].
  unfold insertion_order. rewrite list_elem_of_fmap. split.
  - intros ([a' x] & -> & [Ea Hin]%list_elem_of_filter). simpl in *.
    subst a'. by apply Hspec in Hin as [? _].
  - intros Hown. exists (a, id). split; [done|].
    apply list_elem_of_filter. split; [done|]. by apply Hspec.
Qed.

Lemma insertion_order_NoDup (s0 s : State) tr a :
  wf s0 -> (forall id, _ownerOf id (token s0) = 0) ->
  trace_from s0 tr s -> NoDup (insertion_order tr a).
Proof.
  intros Hwf0 Hempty Htr.
  destruct (acquired_spec _ _ _ Hwf0 Hempty Htr) as [Hnd _].
  unfold insertion_order. refine (sublist_NoDup _ _ Hnd _).
  apply fmap_sublist, sublist_filter.
Qed.

Lemma trace_cons (s s' s'' : State) tx c r tr :
  sender tx <> 0 -> exec tx c s = Ok (r, s') ->
  trace_from s' tr s'' -> trace_from s ((tx, c, r) :: tr) s''.
Proof.
  intros Hs Hm. induction 1 as [|tr s1 tx1 c1 r1 s2 _ IH Hs1 Hm1].
  - by apply trace_step.
  - rewrite app_comm_cons. by econstructor.
Qed.

Lemma history_trace (txs : list (Tx * Call)) (s : State) :
  Forall (fun p => sender p.1 <> 0) txs ->
  trace_from s (history txs s) (run txs s).
Proof.
  intros Hall. revert s. induction Hall as [|[tx c] txs Hs _ IH]; intros s.
  - constructor.
  - simpl. unfold call. destruct (exec tx c s) as [[r s']|e] eqn:E; simpl.
    + by eapply trace_cons.
    + apply IH.
Qed.
End Acquired.

(** ** Two callbacks *)

Lemma authorized_sender owner spender id t :
  _isAuthorized owner spender id t = true -> spender <> 0.
Proof.
  unfold _isAuthorized. intros [Hs _]%andb_true_iff.
  apply negb_true_iff in Hs. by apply bool_decide_eq_false in Hs.
Qed.

Section TwoCallbacks.
Context `{B : FHEBackend} `{!FHELaws B}.

Abbreviation record s rid := (sload noPending (_pendingByRequest s) rid).

Lemma redeem_sender tx id (s : State) r s' :
  redeem tx id s = Ok (r, s') -> sender tx <> 0.
Proof.
  intros Hm. apply redeem_inv in Hm as (_ & _ & Hauth & _).
  by eapply authorized_sender.
Qed.

(** Two pending requests fulfilled one after the other: each callback pays
    the recipient of its own record the amount of its own cleartext, checked
    against its own request, and the other order gives the same receipts and
    the same storage. *)
Lemma two_callbacks (s : State) txa rida ca pa ra sa txb ridb cb pb rb sb :
  rida <> ridb ->
  exec txa (Fulfill rida ca pa) s = Ok (ra, sa) ->
  exec txb (Fulfill ridb cb pb) sa = Ok (rb, sb) ->
  (exists amta amtb,
      abi_decode_uint256 ca = Some amta
      /\ abi_decode_uint256 cb = Some amtb
      /\ checkSignatures rida ca pa (fheStore s) = true
      /\ checkSignatures ridb cb pb (fheStore s) = true
      /\ payout ra = Some (recipient (record s rida), amta)
      /\ payout rb = Some (recipient (record s ridb), amtb))
  /\ exists sb',
      exec txb (Fulfill ridb cb pb) s = Ok (rb, sb')
      /\ exec txa (Fulfill rida ca pa) sb' = Ok (ra, sb).
Proof.
  intros Hne Ha Hb.
  destruct (fulfill_commute _ _ _ _ _ _ _ _ _ _ _ _ _ Hne Ha Hb)
    as (sb' & Hb' & Ha').
  split; [|by exists sb'].
  simpl in Ha, Hb'.
  apply fulfill_pays in Ha as (amta & ? & _ & ? & ? & _).
  apply fulfill_pays in Hb' as (amtb & ? & _ & ? & ? & _).
  exists amta, amtb. by split_and!.
Qed.
End TwoCallbacks.

(** ** The order of the list *)

Lemma owned_list_last h a :
  0 < h_balance h a ->
  last (owned_list h a) = Some (h_token h a (h_balance h a - 1)).
Proof.
  intros Hb. rewrite last_lookup.
  pose proof (owned_list_length h a ltac:(lia)) as Hlen.
  replace (Init.Nat.pred (length (owned_list h a)))
    with (Z.to_nat (h_balance h a - 1)) by lia.
  rewrite owned_list_lookup by lia. do 2 f_equal. lia.
Qed.

(** Taking a certificate away is swap and pop on the list of its owner and
    leaves every other list alone. *)
Lemma owned_list_remove id h a :
  holdings_ok h -> h_owner h id <> 0 -> a <> 0 ->
  owned_list (h_remove id h) a =
    if decide (h_owner h id = a) then swap_pop id (owned_list h a)
    else owned_list h a.
Proof.
  intros Hok Hid Ha. pose proof Hok as [Kb Kt Ki].
  destruct (Ki id Hid) as [Hpos Hself].
  case_decide as E.
  - subst a. unfold swap_pop.
    rewrite owned_list_last by lia.
    apply list_eq. intros k.
    pose proof (owned_list_length h (h_owner h id) ltac:(lia)) as Hlen.
    assert (h_balance (h_remove id h) (h_owner h id)
            = h_balance h (h_owner h id) - 1) as Hbal.
    { simpl. by rewrite decide_True. }
    destruct (decide (Z.of_nat k < h_balance h (h_owner h id) - 1)) as [Hk|Hk].
    + rewrite owned_list_lookup by (rewrite Hbal; lia).
      rewrite lookup_take_lt by lia.
      rewrite list_lookup_fmap, owned_list_lookup by lia. simpl.
      f_equal.
      rewrite decide_False by (intros [= ?]; lia).
      destruct (Kt (h_owner h id) (Z.of_nat k) Hid ltac:(lia)) as [_ Hidx].
      destruct (decide (Z.of_nat k = h_index h id)) as [Ek|Ek].
      * rewrite decide_True by (by rewrite Ek).
        rewrite Ek, Hself. by rewrite decide_True.
      * rewrite decide_False by (intros [= ?]; lia).
        rewrite decide_False; [done|]. intros E'. rewrite E' in Hidx. lia.
    + rewrite lookup_take_ge by lia.
      apply lookup_ge_None.
      pose proof (owned_list_length (h_remove id h) (h_owner h id)) as Hl.
      rewrite Hbal in Hl. lia.
  - unfold owned_list. simpl. rewrite decide_False by congruence.
    apply list_fmap_ext. intros k i _.
    rewrite !decide_False; [done|congruence..].
Qed.

Section ListAfter.
Context `{B : FHEBackend}.

Lemma transfer_list tx from to id (s : State) t' a :
  wf s -> sender tx <> 0 -> a <> 0 ->
  transferFrom tx from to id (token s) = Ok (tt, t') ->
  owned_list (holdings t') a =
    list_after s tx (TransferFrom from to id) noReceipt a
      (owned_list (holdings (token s)) a).
Proof.
  intros Hwf Hs Ha Hm. pose proof (wf_holdings _ Hwf) as Hok.
  apply transfer_post in Hm as (-> & Hlive & Hto & _ & Hcase & _);
    [|done|apply Hwf..].
  simpl.
  destruct (decide (_ownerOf id (token s) = to)) as [E|E].
  - by apply owned_list_same.
  - destruct Hcase as (Hlt & Hsame).
    rewrite (owned_list_same _ _ _ Hsame).
    pose proof (h_remove_ok id _ Hok Hlive) as Hok'.
    rewrite owned_list_add by apply Hok'.
    rewrite !owned_list_remove by done. simpl.
    repeat case_decide; try done; congruence.
Qed.

(** The list of an account after a successful call. *)
Lemma owned_after tx c (s : State) r s' a :
  wf s -> sender tx <> 0 -> a <> 0 ->
  exec tx c s = Ok (r, s') ->
  owned_list (holdings (token s')) a =
    list_after s tx c r a (owned_list (holdings (token s)) a).
Proof.
  intros Hwf Hs Ha Hm. pose proof (wf_holdings _ Hwf) as Hok.
  destruct c; simpl in Hm.
  - apply stake_inv in Hm as (_ & _ & _ & _ & t' & Hmint & -> & ->). simpl.
    apply mint_post in Hmint as (_ & _ & _ & Hsame & _); [|apply Hok].
    rewrite (owned_list_same _ _ _ Hsame).
    rewrite owned_list_add by apply Hok.
    repeat case_decide; try done; congruence.
  - apply redeem_inv in Hm
      as (_ & Hlive & _ & _ & _ & t' & rid & f' & Hburn & _ & -> & ->).
    simpl.
    apply burn_post in Hburn as (_ & Hsame & _); [|done].
    rewrite (owned_list_same _ _ _ Hsame).
    by rewrite owned_list_remove.
  - apply onDecryptionFulfilled_inv in Hm
      as (_ & pending & amount & mid & He & _ & _ & _ & ->).
    by apply fulfill_effects_inv in He as (_ & _ & _ & _ & _ & ->).
  - apply token_call_inv in Hm as (t' & Hm & -> & _).
    by apply approve_post in Hm as (_ & ->).
  - apply token_call_inv in Hm as (t' & Hm & -> & _).
    by apply setApprovalForAll_post in Hm as (_ & ->).
  - apply token_call_inv in Hm as (t' & Hm & -> & _).
    by apply (transfer_list tx from to id s t' a).
  - apply token_call_inv in Hm as (t' & Hm & -> & _).
    apply safeTransferFrom_inv in Hm as (Hm & _).
    by apply (transfer_list tx from to id s t' a).
Qed.
End ListAfter.

(** ** Requests over a history *)

Section LaterCallbacks.
Context `{B : FHEBackend} `{!FHELaws B}.

Abbreviation record s rid := (sload noPending (_pendingByRequest s) rid).

Lemma trace_issued (s s' : State) tr x :
  trace_from s tr s' -> issued (fheStore s) x -> issued (fheStore s') x.
Proof. induction 1; [done|]. intros. eapply exec_issued; eauto. Qed.

(** A record stays as it is as long as no fulfillment of its request
    succeeds. *)
Lemma trace_unanswered (s s' : State) tr rid R :
  requests_wf s -> record s rid = R -> exists_ R = true ->
  trace_from s tr s' ->
  (forall tx c p r, (tx, Fulfill rid c p, r) ∉ tr) ->
  record s' rid = R.
Proof.
  intros Hrq HR Hex. induction 1 as [|tr s1 tx c r s2 Htr IH Hs Hm]; [done|].
  intros Hnone.
  assert (record s1 rid = R) as Hrec.
  { apply IH. intros tx0 c0 p0 r0 Hin. eapply Hnone.
    apply elem_of_app. left. exact Hin. }
  pose proof (trace_requests_wf _ _ _ Hrq Htr) as Hrq1.
  rewrite (exec_record _ _ _ _ _ _ Hm). destruct c; try done.
  - case_decide as E; [|done].
    assert (issued (fheStore s1) rid) as Hiss.
    { apply Hrq1. by rewrite Hrec. }
    apply redeem_fresh in Hm as [Hfresh _]. by rewrite <- E in Hfresh.
  - case_decide as E; [|done]. subst requestId. exfalso.
    eapply Hnone. apply elem_of_app. right.
    apply list_elem_of_singleton. reflexivity.
Qed.

(** Whenever, after whatever history, a fulfillment of a request succeeds,
    it pays the recipient of the record of the request the amount of its own
    cleartext, verified against that request, and the balance of the contract
    drops by that amount. *)
Lemma later_fulfillment (s sa sb : State) tr rid R tx c p r :
  requests_wf s -> record s rid = R -> exists_ R = true ->
  trace_from s tr sa ->
  exec tx (Fulfill rid c p) sa = Ok (r, sb) ->
  exists amount,
    abi_decode_uint256 c = Some amount
    /\ checkSignatures rid c p (fheStore sa) = true
    /\ payout r = Some (recipient R, amount)
    /\ logs r = [WithdrawCompleted (recipient R) (tokenId R) amount]
    /\ ethBalance sb = ethBalance sa - amount.
Proof.
  intros Hrq HR Hex Htr Hm.
  destruct (trace_payout _ _ _ _ _ Hrq HR Hex Htr) as ([Hrec|[_ Hgone]] & _).
  - simpl in Hm. apply onDecryptionFulfilled_inv in Hm
      as (_ & pending & amount & mid & He & _ & _ & -> & ->).
    apply fulfill_effects_inv in He as (_ & _ & Hsig & Hdec & Hp & ->).
    simpl in *. subst pending. rewrite Hrec. exists amount. by split_and!.
  - simpl in Hm. apply fulfill_pays in Hm as (_ & _ & Hex' & _). congruence.
Qed.
End LaterCallbacks.

(** * The claims *)

Section Claims.
Context `{B : FHEBackend} `{!FHELaws B}.

Abbreviation record s rid := (sload noPending (_pendingByRequest s) rid).

(** C1.  A request is paid at most once.  When [onDecryptionFulfilled]
    succeeds for a request, the storage in which the value transfer is made
    ([mid]) already has the record of the request deleted and the pending
    flag and request index of its certificate cleared; the same call again
    fails [UnknownRequest]; and in every later state every call with that
    request identifier, with whatever cleartext and proof and from whatever
    caller, fails and leaves the storage as it is, with [UnknownRequest] as
    soon as the caller is past the strict-sender gate. *)
Theorem fulfill_at_most_once (s : State) tx rid c p r s1 :
  reachable s ->
  exec tx (Fulfill rid c p) s = Ok (r, s1) ->
  (exists pending amount mid,
      fulfill_effects tx rid c p (set_status (fun _ => ENTERED) s)
        = Ok ((pending, amount), mid)
      /\ record mid rid = noPending
      /\ sload false (_isTokenPending mid) (tokenId pending) = false
      /\ sload 0 (_requestByToken mid) (tokenId pending) = 0
      /\ payout r = Some (recipient pending, amount))
  /\ (forall c' p',
        call tx (Fulfill rid c' p') s1 = (s1, Reverted UnknownRequest))
  /\ (forall tr s2 tx' c' p',
        trace_from s1 tr s2 ->
        exists e,
          call tx' (Fulfill rid c' p') s2 = (s2, Reverted e)
          /\ (oracle_gate tx' s2 -> e = UnknownRequest)).
Proof.
  intros Hr Hm. simpl in Hm.
  pose proof (reachable_wf _ Hr) as Hwf.
  pose proof (reachable_requests_wf _ Hr) as Hreq.
  pose proof (fulfill_consumes _ _ _ _ _ _ _ Hreq Hm) as Hcons.
  assert (Hwf1 : wf s1) by (by eapply fulfill_wf).
  assert (Hlater : forall tr s2 tx' c' p',
    trace_from s1 tr s2 ->
    exists e, call tx' (Fulfill rid c' p') s2 = (s2, Reverted e)
              /\ (oracle_gate tx' s2 -> e = UnknownRequest)).
  { intros tr s2 tx' c' p' Htr.
    pose proof (trace_wf _ _ _ Hwf1 Htr) as Hwf2.
    pose proof (trace_consumed _ _ _ _ Htr Hcons) as (_ & Hgone).
    destruct (fulfill_no_record tx' rid c' p' s2 (wf_status _ Hwf2) Hgone)
      as (e & He & Hgate & _).
    exists e. split; [by apply call_reverted|done]. }
  split_and!; [|intros c' p'|done].
  - apply onDecryptionFulfilled_inv in Hm
      as (_ & pending & amount & mid & He & _ & _ & -> & ->).
    exists pending, amount, mid. split; [done|].
    apply fulfill_effects_inv in He as (_ & _ & _ & _ & _ & ->). simpl.
    rewrite !sload_sstore, !decide_True by done. done.
  - destruct (Hlater [] s1 tx c' p' (trace_nil s1)) as (e & He & Hgate).
    rewrite He, Hgate; [done|].
    apply (exec_gate tx (Fulfill rid c p) s r s1); [done|].
    apply onDecryptionFulfilled_inv in Hm as (_ & ? & ? & ? & He' & _).
    apply fulfill_effects_inv in He' as (Hg & _). apply Hg.
Qed.

(** C2, amended.  A callback whose proof does not verify against the
    handles submitted under its request identifier always fails, transfers
    nothing and leaves the storage, the balance included, unchanged.  When
    the request still has its record and the caller is past the strict-sender
    gate the error is the one the library's proof check reverts with,
    whichever that is; the two earlier checks come first: [InvalidOracle]
    for a caller the gate rejects, [UnknownRequest] for a request without a
    record. *)
Theorem fulfill_bad_proof (s : State) tx rid c p :
  reachable s ->
  checkSignatures rid c p (fheStore s) = false ->
  exists e,
    call tx (Fulfill rid c p) s = (s, Reverted e)
    /\ (~ oracle_gate tx s -> e = InvalidOracle)
    /\ (oracle_gate tx s -> exists_ (record s rid) = false ->
        e = UnknownRequest)
    /\ (oracle_gate tx s -> exists_ (record s rid) = true ->
        e = verifier_error rid c p (fheStore s)).
Proof.
  intros Hr%reachable_wf Hsig.
  destruct (exists_ (record s rid)) eqn:Hex.
  - unfold call. simpl.
    unfold onDecryptionFulfilled, nonReentrant, fulfill_effects,
      FHE_checkSignatures, oracle_gate.
    unmonad. simpl. rewrite (wf_status _ Hr). simpl.
    destruct (enforceOracleCheck s); [case_bool_decide|]; simpl;
      rewrite ?Hex; simpl; rewrite ?Hsig; simpl;
      eexists; (split; [reflexivity|]);
      split_and!; intros; try done; intuition congruence.
  - destruct (fulfill_no_record tx rid c p s (wf_status _ Hr) Hex)
      as (e & He & Hgate & Hnogate).
    exists e. split; [by apply call_reverted|].
    split_and!; intros; auto; done.
Qed.

(** C3, amended.  When the checks of the callback pass and the value
    transfer fails (the contract holds less than the amount, or the
    recipient does not accept it), the call reverts with [TransferFailed]
    and the whole storage is as before the call: the record of the request
    is still there.  The same callback succeeds later, once the transfer
    goes through, pays the recorded recipient and only then consumes the
    record. *)
Theorem transfer_failure_rolls_back (s : State) tx rid c p pending amount mid :
  reachable s ->
  fulfill_effects tx rid c p (set_status (fun _ => ENTERED) s)
    = Ok ((pending, amount), mid) ->
  ethBalance s < amount \/ callee_ok tx = false ->
  call tx (Fulfill rid c p) s = (s, Reverted TransferFailed)
  /\ record s rid = pending /\ exists_ pending = true
  /\ forall tx',
      sender tx' = sender tx -> callee_ok tx' = true ->
      amount <= ethBalance s ->
      exists s',
        call tx' (Fulfill rid c p) s =
          (s', Success {| returned := 1;
                          logs := [WithdrawCompleted (recipient pending)
                                     (tokenId pending) amount];
                          payout := Some (recipient pending, amount) |})
        /\ exists_ (record s' rid) = false.
Proof.
  intros Hr%reachable_wf He Hfail.
  pose proof (wf_status _ Hr) as Hst.
  split_and!.
  - apply call_reverted. simpl.
    rewrite (fulfill_forward _ _ _ _ _ _ _ _ Hst He).
    destruct Hfail as [Hlt| ->].
    + by rewrite bool_decide_eq_false_2 by lia.
    + by rewrite andb_false_r.
  - apply fulfill_effects_inv in He as (_ & _ & _ & _ & Hrec & _).
    simpl in Hrec. by subst.
  - apply fulfill_effects_inv in He as (_ & Hex & _ & _ & Hrec & _).
    simpl in Hrec. by subst.
  - intros tx' Hs Hok Hle. eexists. split.
    + apply call_success. simpl.
      rewrite <- (fulfill_effects_sender tx tx') in He by done.
      rewrite (fulfill_forward _ _ _ _ _ _ _ _ Hst He).
      by rewrite bool_decide_eq_true_2, Hok.
    + apply fulfill_effects_inv in He as (_ & _ & _ & _ & _ & ->). simpl.
      by rewrite sload_sstore, decide_True.
Qed.

(** C4, amended.  At most one [redeem] of a certificate ever succeeds: in
    every state after a successful [redeem id], [getEncryptedStake id] fails
    [StakeNotFound] and [redeem id] fails [InvalidCertificate] for every
    caller.  What enforces it is the ownership check on the burned, never
    re-issued certificate; the pending-flag check is not: in no such state
    does any [redeem] fail [RedemptionAlreadyPending]. *)
Theorem redeem_succeeds_once (s : State) tx id r s1 :
  reachable s ->
  exec tx (Redeem id) s = Ok (r, s1) ->
  forall tr s2,
    trace_from s1 tr s2 ->
    getEncryptedStake id s2 = Revert StakeNotFound
    /\ (forall tx', call tx' (Redeem id) s2 = (s2, Reverted InvalidCertificate))
    /\ (forall tx' id',
          exec tx' (Redeem id') s2 <> Revert RedemptionAlreadyPending).
Proof.
  intros Hr%reachable_wf Hm tr s2 Htr.
  pose proof (redeem_sender _ _ _ _ _ Hm) as Hs.
  assert (Hwf1 : wf s1) by exact (redeem_wf tx id s r s1 Hr Hm).
  pose proof (trace_wf _ _ _ Hwf1 Htr) as Hwf2.
  assert (burned id s1) as Hb.
  { pose proof (exec_moves_live _ _ _ _ _ Hr Hs Hm) as Hlive.
    pose proof (exec_next _ _ _ _ _ Hm) as Hnext.
    pose proof (wf_minted _ Hr _ Hlive) as Hrange.
    unfold burned.
    rewrite (exec_owner _ _ _ _ _ _ Hr Hs Hm), (exec_stakes _ _ _ _ _ _ Hm).
    simpl. rewrite !decide_True by done. split_and!; [done..|lia]. }
  apply (trace_burned _ _ _ _ Hwf1 Htr) in Hb as (Hown & Hstake & _).
  split_and!.
  - unfold getEncryptedStake, FHE_isInitialized. rewrite Hstake. done.
  - intros tx'. apply call_reverted. simpl.
    by apply redeem_burned_forward; [apply Hwf2|].
  - intros tx' id'. simpl. by apply redeem_never_pending.
Qed.

(** C5.  [stake] with a zero amount fails [ZeroAmount] and leaves the whole
    storage as it was: no certificate, no counter change, no encrypted
    balance, no pending entry, no value kept. *)
Theorem stake_zero_rejected (s : State) tx :
  reachable s -> call tx (Stake 0) s = (s, Reverted ZeroAmount).
Proof.
  intros Hr%reachable_wf. apply call_reverted. simpl.
  unfold stake, nonReentrant. unmonad. simpl.
  by rewrite (wf_status _ Hr).
Qed.

(** C6.  [redeem] of a live certificate by a caller who is not its owner,
    not an operator approved by its owner and not the address approved for
    the certificate fails [Unauthorized] and leaves the whole storage, and
    so the certificate, its encrypted balance and the pending state, as it
    was. *)
Theorem redeem_unauthorized (s : State) tx id :
  reachable s ->
  _ownerOf id (token s) <> 0 ->
  sender tx <> _ownerOf id (token s) ->
  isApprovedForAll (_ownerOf id (token s)) (sender tx) (token s) = false ->
  _getApproved id (token s) <> sender tx ->
  call tx (Redeem id) s = (s, Reverted Unauthorized).
Proof.
  intros Hr%reachable_wf Hlive Hne Hop Hap. apply call_reverted. simpl.
  unfold redeem, nonReentrant, _isAuthorized. unmonad. simpl.
  rewrite (wf_status _ Hr). simpl.
  rewrite bool_decide_eq_false_2 by done. simpl.
  rewrite Hop.
  rewrite (bool_decide_eq_false_2 (_ownerOf id (token s) = sender tx))
    by done.
  rewrite (bool_decide_eq_false_2 (_getApproved id (token s) = sender tx))
    by done.
  by rewrite andb_false_r.
Qed.

(** C7, amended.  For every amount above zero, [stake] by a caller who can
    receive the certificate (an externally owned account, or a contract that
    accepts it), while the id counter is below its maximum, succeeds.  It
    returns the id counter, which then advances by one; the id is above
    every id returned by an earlier stake, burned or not, and had no owner;
    afterwards it belongs to the caller and the encrypted balance bound to
    it is the handle of [amount], which [getEncryptedStake] returns. *)
Theorem stake_mints_fresh (s : State) oracleAddress enforceOracle tr tx amount :
  trace_from (constructor oracleAddress enforceOracle) tr s ->
  0 < amount ->
  sender tx <> 0 ->
  callee_ok tx = true ->
  _nextTokenId s < MAX_UINT256 ->
  exists r s',
    exec tx (Stake amount) s = Ok (r, s')
    /\ returned r = _nextTokenId s
    /\ _nextTokenId s' = _nextTokenId s + 1
    /\ (forall tx0 v0 r0, (tx0, Stake v0, r0) ∈ tr -> returned r0 < returned r)
    /\ _ownerOf (returned r) (token s) = 0
    /\ _ownerOf (returned r) (token s') = sender tx
    /\ sload 0 (_encryptedStakes s') (returned r) = asEuint256 amount
    /\ (asEuint256 amount <> 0 ->
        getEncryptedStake (returned r) s' = Ok (asEuint256 amount)).
Proof.
  intros Htr Hv Hs Hok Hmax.
  pose proof (trace_wf _ _ _ (constructor_wf _ _) Htr) as Hwf.
  assert (_ownerOf (_nextTokenId s) (token s) = 0) as Hfree.
  { destruct (decide (_ownerOf (_nextTokenId s) (token s) = 0)) as [|Hne];
      [done|]. apply (wf_minted _ Hwf) in Hne. lia. }
  pose proof (ok_balance _ (wf_holdings _ Hwf) (sender tx)) as Hb.
  pose proof (balance_bound _ (sender tx) _ (wf_holdings _ Hwf) Hs
                (wf_minted _ Hwf)) as Hbound.
  pose proof (wf_next _ Hwf) as Hn. simpl in Hb, Hbound.
  destruct (mint_forward (sender tx) (_nextTokenId s) (token s))
    as (t' & Hmint); [done..|lia|unfold MAX_UINT256 in *; lia|].
  destruct (stake_forward tx amount s t') as (r & s' & Hm);
    [apply Hwf|done|lia|done..|].
  exists r, s'. split; [done|].
  pose proof (exec_owner tx (Stake amount) s r s' (_nextTokenId s) Hwf Hs Hm)
    as Hown.
  pose proof (exec_stakes tx (Stake amount) s r s' (_nextTokenId s) Hm)
    as Hstake.
  simpl in Hown, Hstake. rewrite decide_True in Hown, Hstake by done.
  apply stake_inv in Hm as (_ & _ & _ & _ & t'' & _ & -> & ->). simpl in *.
  split_and!; try done.
  - intros tx0 v0 r0 Hin.
    by apply (trace_minted_below _ _ _ Htr) in Hin as [_ ?].
  - intros Hinit. unfold getEncryptedStake, FHE_isInitialized. simpl.
    rewrite Hstake. by rewrite bool_decide_eq_false_2.
Qed.

(** C8.  Two certificates redeemed one after the other, with whatever
    history in between that leaves the first request unanswered, get two
    different request identifiers, each with its own record: the owner of its
    own certificate as recipient.  When the oracle then answers both
    requests, in either order, each callback pays the amount of its own
    cleartext, verified against the handles of its own request, to the
    recipient of its own request, and the balance of the contract drops by
    that amount each time; both orders give the same receipts and end in the
    same storage.  The same holds for a callback of either request after any
    later history: it pays its own recipient its own amount, and the balance
    drops by it. *)
Theorem callbacks_never_swap (s : State) tx1 id1 r1 s1 tr s1' tx2 id2 r2 s2 :
  reachable s ->
  exec tx1 (Redeem id1) s = Ok (r1, s1) ->
  trace_from s1 tr s1' ->
  (forall tx c p r, (tx, Fulfill (returned r1) c p, r) ∉ tr) ->
  exec tx2 (Redeem id2) s1' = Ok (r2, s2) ->
  let ridA := returned r1 in
  let ridB := returned r2 in
  let ownerA := _ownerOf id1 (token s) in
  let ownerB := _ownerOf id2 (token s1') in
  id1 <> id2 /\ ridA <> ridB
  /\ record s2 ridA =
       {| recipient := ownerA; tokenId := id1; exists_ := true |}
  /\ record s2 ridB =
       {| recipient := ownerB; tokenId := id2; exists_ := true |}
  /\ (exists fA fB,
        requestDecryption [sload 0 (_encryptedStakes s) id1] (fheStore s)
          = Some (ridA, fA)
        /\ requestDecryption [sload 0 (_encryptedStakes s1') id2]
             (fheStore s1')
          = Some (ridB, fB))
  /\ (forall txa ca pa ra sa txb cb pb rb sb,
        exec txa (Fulfill ridA ca pa) s2 = Ok (ra, sa) ->
        exec txb (Fulfill ridB cb pb) sa = Ok (rb, sb) ->
        (exists amtA amtB,
            abi_decode_uint256 ca = Some amtA
            /\ abi_decode_uint256 cb = Some amtB
            /\ checkSignatures ridA ca pa (fheStore s2) = true
            /\ checkSignatures ridB cb pb (fheStore s2) = true
            /\ payout ra = Some (ownerA, amtA)
            /\ payout rb = Some (ownerB, amtB)
            /\ ethBalance sa = ethBalance s2 - amtA
            /\ ethBalance sb = ethBalance sa - amtB)
        /\ exists sb',
            exec txb (Fulfill ridB cb pb) s2 = Ok (rb, sb')
            /\ exec txa (Fulfill ridA ca pa) sb' = Ok (ra, sb))
  /\ (forall txa ca pa ra sa txb cb pb rb sb,
        exec txb (Fulfill ridB cb pb) s2 = Ok (rb, sb) ->
        exec txa (Fulfill ridA ca pa) sb = Ok (ra, sa) ->
        (exists amtA amtB,
            abi_decode_uint256 ca = Some amtA
            /\ abi_decode_uint256 cb = Some amtB
            /\ checkSignatures ridA ca pa (fheStore s2) = true
            /\ checkSignatures ridB cb pb (fheStore s2) = true
            /\ payout ra = Some (ownerA, amtA)
            /\ payout rb = Some (ownerB, amtB)
            /\ ethBalance sb = ethBalance s2 - amtB
            /\ ethBalance sa = ethBalance sb - amtA)
        /\ exists sa',
            exec txa (Fulfill ridA ca pa) s2 = Ok (ra, sa')
            /\ exec txb (Fulfill ridB cb pb) sa' = Ok (rb, sa))
  /\ (forall later sa tx c p r sb,
        trace_from s2 later sa ->
        (exec tx (Fulfill ridA c p) sa = Ok (r, sb) ->
         exists amount,
           abi_decode_uint256 c = Some amount
           /\ checkSignatures ridA c p (fheStore sa) = true
           /\ payout r = Some (ownerA, amount)
           /\ logs r = [WithdrawCompleted ownerA id1 amount]
           /\ ethBalance sb = ethBalance sa - amount)
        /\ (exec tx (Fulfill ridB c p) sa = Ok (r, sb) ->
            exists amount,
              abi_decode_uint256 c = Some amount
              /\ checkSignatures ridB c p (fheStore sa) = true
              /\ payout r = Some (ownerB, amount)
              /\ logs r = [WithdrawCompleted ownerB id2 amount]
              /\ ethBalance sb = ethBalance sa - amount)).
Proof.
  intros Hr Hm1 Htr Hnone Hm2 ridA ridB ownerA ownerB.
  pose proof (reachable_wf _ Hr) as Hwf.
  pose proof (reachable_requests_wf _ Hr) as Hreq.
  pose proof (redeem_sender _ _ _ _ _ Hm1) as Hs1.
  pose proof (redeem_sender _ _ _ _ _ Hm2) as Hs2.
  assert (Hwf1 : wf s1) by exact (redeem_wf tx1 id1 s r1 s1 Hwf Hm1).
  pose proof (trace_wf _ _ _ Hwf1 Htr) as Hwf1'.
  pose proof (exec_requests_wf _ _ _ _ _ Hreq Hm1) as Hreq1.
  pose proof (trace_requests_wf _ _ _ Hreq1 Htr) as Hreq1'.
  pose proof (exec_requests_wf _ _ _ _ _ Hreq1' Hm2) as Hreq2.
  (* the two certificates differ: the first one is burned *)
  assert (burned id1 s1) as Hb.
  { pose proof (exec_moves_live _ _ _ _ _ Hwf Hs1 Hm1) as Hlive.
    pose proof (exec_next _ _ _ _ _ Hm1) as Hnext.
    pose proof (wf_minted _ Hwf _ Hlive) as Hrange.
    unfold burned.
    rewrite (exec_owner _ _ _ _ _ _ Hwf Hs1 Hm1), (exec_stakes _ _ _ _ _ _ Hm1).
    simpl. rewrite !decide_True by done. split_and!; [done..|lia]. }
  apply (trace_burned _ _ _ _ Hwf1 Htr) in Hb as (Hgone & _).
  pose proof (exec_moves_live _ _ _ _ _ Hwf1' Hs2 Hm2) as Hlive2.
  simpl in Hlive2.
  assert (id1 <> id2) as Hid by (intros <-; done).
  (* the two requests differ *)
  pose proof (redeem_fresh _ _ _ _ _ Hm1) as [_ HissA].
  apply (trace_issued _ _ _ _ Htr) in HissA.
  pose proof (redeem_fresh _ _ _ _ _ Hm2) as [HfreshB _].
  assert (ridA <> ridB) as Hrid.
  { unfold ridA, ridB. intros E. apply HfreshB. by rewrite <- E. }
  (* the two records *)
  pose proof (exec_record _ _ _ _ _ ridA Hm1) as HrecA1.
  simpl in HrecA1. fold ridA in HrecA1. rewrite decide_True in HrecA1 by done.
  pose proof (trace_unanswered _ _ _ _ _ Hreq1 HrecA1 eq_refl Htr Hnone)
    as HrecA1'.
  pose proof (exec_record _ _ _ _ _ ridA Hm2) as HrecA.
  pose proof (exec_record _ _ _ _ _ ridB Hm2) as HrecB.
  simpl in HrecA, HrecB. fold ridA ridB in HrecA, HrecB.
  rewrite decide_True in HrecB by done.
  rewrite decide_False, HrecA1' in HrecA by done.
  fold ownerA in HrecA. fold ownerB in HrecB.
  split_and!; try done.
  - simpl in Hm1, Hm2.
    apply redeem_inv in Hm1
      as (_ & _ & _ & _ & _ & t1 & rid1 & f1 & _ & Hq1 & -> & _).
    apply redeem_inv in Hm2
      as (_ & _ & _ & _ & _ & t2 & rid2 & f2 & _ & Hq2 & -> & _).
    by exists f1, f2.
  - intros txa ca pa ra sa txb cb pb rb sb Ha Hb.
    destruct (two_callbacks _ _ _ _ _ _ _ _ _ _ _ _ _ Hrid Ha Hb)
      as [(amtA & amtB & HdA & HdB & ? & ? & HpA & HpB) Hcomm].
    split; [|done]. rewrite HrecA in HpA. rewrite HrecB in HpB.
    simpl in Ha, Hb.
    apply fulfill_pays in Ha as (a' & HdA' & _ & _ & _ & HbA & _).
    apply fulfill_pays in Hb as (b' & HdB' & _ & _ & _ & HbB & _).
    rewrite HdA in HdA'. rewrite HdB in HdB'. simplify_eq.
    exists a', b'. by split_and!.
  - intros txa ca pa ra sa txb cb pb rb sb Hb Ha.
    assert (ridB <> ridA) as Hrid' by congruence.
    destruct (two_callbacks _ _ _ _ _ _ _ _ _ _ _ _ _ Hrid' Hb Ha)
      as [(amtB & amtA & HdB & HdA & ? & ? & HpB & HpA) Hcomm].
    split; [|done]. rewrite HrecA in HpA. rewrite HrecB in HpB.
    simpl in Ha, Hb.
    apply fulfill_pays in Ha as (a' & HdA' & _ & _ & _ & HbA & _).
    apply fulfill_pays in Hb as (b' & HdB' & _ & _ & _ & HbB & _).
    rewrite HdA in HdA'. rewrite HdB in HdB'. simplify_eq.
    exists a', b'. by split_and!.
  - intros later sa tx c p r sb Hlater. split; intros Hm.
    + by destruct (later_fulfillment _ _ _ _ _ _ _ _ _ _ Hreq2 HrecA eq_refl
                     Hlater Hm) as (amount & ?); exists amount.
    + by destruct (later_fulfillment _ _ _ _ _ _ _ _ _ _ Hreq2 HrecB eq_refl
                     Hlater Hm) as (amount & ?); exists amount.
Qed.

(** C9, amended.  For every address other than zero, [tokensOf] returns a
    list without duplicates of exactly the certificates the address owns, a
    permutation of its holdings in insertion order, read from the storage
    at call time.  The order is the one the enumeration keeps
    ([list_after]): a stake or an incoming transfer appends the certificate,
    a redeem or an outgoing transfer moves the last certificate of the list
    into the place of the one that leaves. *)
Theorem tokensOf_lists_holdings (s : State) oracleAddress enforceOracle tr a :
  trace_from (constructor oracleAddress enforceOracle) tr s ->
  a <> 0 ->
  exists ids,
    tokensOf a s = Ok ids
    /\ NoDup ids
    /\ (forall id, id ∈ ids <-> _ownerOf id (token s) = a)
    /\ ids ≡ₚ insertion_order tr a
    /\ (forall tx c r s',
          sender tx <> 0 ->
          exec tx c s = Ok (r, s') ->
          tokensOf a s' = Ok (list_after s tx c r a ids)).
Proof.
  intros Htr Ha.
  pose proof (trace_wf _ _ _ (constructor_wf _ _) Htr) as Hwf.
  pose proof (wf_holdings _ Hwf) as Hok.
  exists (owned_list (holdings (token s)) a).
  assert (forall id, _ownerOf id (token (constructor oracleAddress enforceOracle)) = 0)
    as Hempty by (intros; unfold _ownerOf; simpl; by rewrite sload_empty).
  split_and!.
  - apply tokensOf_spec; [done|]. apply (ok_balance _ Hok).
  - by apply owned_list_NoDup.
  - intros id. by rewrite owned_list_elem.
  - apply NoDup_Permutation.
    + by apply owned_list_NoDup.
    + by eapply insertion_order_NoDup; [apply constructor_wf|..].
    + intros id. rewrite owned_list_elem by done.
      by rewrite (insertion_order_elem _ _ _ _ _ (constructor_wf _ _) Hempty Htr).
  - intros tx c r s' Hs Hm.
    pose proof (exec_wf _ _ _ _ _ Hwf Hs Hm) as Hwf'.
    rewrite tokensOf_spec; [|done|apply (ok_balance _ (wf_holdings _ Hwf'))].
    by rewrite (owned_after _ _ _ _ _ _ Hwf Hs Ha Hm).
Qed.

(** C10.  A successful [redeem] records the owner of the certificate at
    that time as the recipient, whoever the caller is (the owner or someone
    the owner approved), and announces that owner in its event; every later
    fulfillment of the request pays the amount of its cleartext to that
    owner: the receipt and the event name the owner, and the balance of the
    contract drops by the amount. *)
Theorem beneficiary_is_owner (s : State) tx id r s1 :
  reachable s ->
  exec tx (Redeem id) s = Ok (r, s1) ->
  record s1 (returned r) =
    {| recipient := _ownerOf id (token s); tokenId := id; exists_ := true |}
  /\ logs r = [WithdrawRequested (_ownerOf id (token s)) id (returned r)]
  /\ (forall tr s2 tx' c p r',
        trace_from s1 tr s2 ->
        (tx', Fulfill (returned r) c p, r') ∈ tr ->
        exists amount,
          abi_decode_uint256 c = Some amount
          /\ payout r' = Some (_ownerOf id (token s), amount))
  /\ (forall tr sa tx' c p r' sb,
        trace_from s1 tr sa ->
        exec tx' (Fulfill (returned r) c p) sa = Ok (r', sb) ->
        exists amount,
          abi_decode_uint256 c = Some amount
          /\ checkSignatures (returned r) c p (fheStore sa) = true
          /\ payout r' = Some (_ownerOf id (token s), amount)
          /\ logs r' = [WithdrawCompleted (_ownerOf id (token s)) id amount]
          /\ ethBalance sb = ethBalance sa - amount).
Proof.
  intros Hr Hm.
  pose proof (reachable_requests_wf _ Hr) as Hreq.
  pose proof (exec_requests_wf _ _ _ _ _ Hreq Hm) as Hreq1.
  pose proof (exec_record _ _ _ _ _ (returned r) Hm) as Hrec.
  simpl in Hrec. rewrite decide_True in Hrec by done.
  split_and!; [done| | |].
  - simpl in Hm. by apply redeem_inv in Hm
      as (_ & _ & _ & _ & _ & t' & rid & f' & _ & _ & -> & _).
  - intros tr s2 tx' c p r' Htr Hin.
    by destruct (trace_payout _ _ _ _ _ Hreq1 Hrec eq_refl Htr)
      as (_ & Hpay); eapply Hpay.
  - intros tr sa tx' c p r' sb Htr Hf.
    by destruct (later_fulfillment _ _ _ _ _ _ _ _ _ _ Hreq1 Hrec eq_refl
                   Htr Hf) as (amount & ?); exists amount.
Qed.
End Claims.

(** * Further properties *)

(** ** Deployment and the oracle gate *)

Section Deployment.
Context `{B : FHEBackend}.

Lemma trace_immutable (s0 s : State) tr :
  trace_from s0 tr s ->
  enforceOracleCheck s = enforceOracleCheck s0
  /\ decryptionOracle s = decryptionOracle s0.
Proof.
  induction 1 as [|tr s tx c r s' _ [IHe IHo] _ Hm]; [done|].
  apply exec_immutable in Hm as [-> ->]. done.
Qed.

Lemma fulfill_gate tx rid c p (s : State) r s' :
  exec tx (Fulfill rid c p) s = Ok (r, s') -> oracle_gate tx s.
Proof.
  simpl. intros Hm. apply onDecryptionFulfilled_inv in Hm
    as (_ & pending & amount & mid & He & _).
  by apply fulfill_effects_inv in He as (Hg & _).
Qed.

Lemma trace_fulfill_gate (s0 s : State) tr tx rid c p r :
  trace_from s0 tr s -> (tx, Fulfill rid c p, r) ∈ tr ->
  enforceOracleCheck s0 = false \/ sender tx = decryptionOracle s0.
Proof.
  induction 1 as [|tr s tx' c' r' s' Htr IH _ Hm]; intros Hin.
  - by apply elem_of_nil in Hin.
  - apply elem_of_app in Hin as [Hin|Hin]; [by apply IH|].
    apply list_elem_of_singleton in Hin. simplify_eq.
    apply fulfill_gate in Hm. apply trace_immutable in Htr as [He Ho].
    unfold oracle_gate in Hm. by rewrite He, Ho in Hm.
Qed.

Lemma gate_rejects tx rid c p (s : State) :
  _status s = NOT_ENTERED -> enforceOracleCheck s = true ->
  sender tx <> decryptionOracle s ->
  exec tx (Fulfill rid c p) s = Revert InvalidOracle.
Proof.
  intros Hst He Hs. simpl.
  unfold onDecryptionFulfilled, nonReentrant, fulfill_effects.
  unmonad. simpl. rewrite Hst. simpl. rewrite He. simpl.
  by rewrite bool_decide_eq_false_2.
Qed.

(** X1.  The oracle address and the strictness flag are fixed by the
    constructor: the zero address stands for the Sepolia oracle, and in every
    state of every history the two are as deployed; the oracle address is
    never zero. *)
Theorem oracle_fixed_at_deployment oracleAddress enforceOracle tr (s : State) :
  trace_from (constructor oracleAddress enforceOracle) tr s ->
  decryptionOracle s =
    (if decide (oracleAddress = 0) then SepoliaZamaOracleAddress
     else oracleAddress)
  /\ enforceOracleCheck s = enforceOracle
  /\ decryptionOracle s <> 0.
Proof.
  intros Htr. apply trace_immutable in Htr as [-> ->]. simpl.
  case_bool_decide; case_decide; try done.
Qed.

(** X2.  Under the strict check only the oracle delivers: every fulfillment
    of a history was sent by the oracle address, and a callback from any other
    address fails [InvalidOracle], whatever its arguments, and changes
    nothing. *)
Theorem only_oracle_fulfills oracleAddress tr (s : State) :
  trace_from (constructor oracleAddress true) tr s ->
  (forall tx rid c p r, (tx, Fulfill rid c p, r) ∈ tr ->
     sender tx = decryptionOracle s)
  /\ (forall tx rid c p, sender tx <> decryptionOracle s ->
        call tx (Fulfill rid c p) s = (s, Reverted InvalidOracle)).
Proof.
  intros Htr. pose proof (trace_immutable _ _ _ Htr) as [He Ho].
  pose proof (trace_wf _ _ _ (constructor_wf _ _) Htr) as Hwf.
  split.
  - intros tx rid c p r Hin.
    destruct (trace_fulfill_gate _ _ _ _ _ _ _ _ Htr Hin) as [?|?]; [done|].
    by rewrite Ho.
  - intros tx rid c p Hs. apply call_reverted.
    apply gate_rejects; [apply Hwf|by rewrite He|done].
Qed.

(** X3.  What the deployment script sets up.  On a network other than
    [hardhat], [localhost] and [anvil] the contract is deployed with the
    Sepolia oracle and the strict check, so that in every history only the
    Sepolia oracle address delivers; on a local network the strict check is
    off and the oracle is the address the plugin reports, or the Sepolia one
    when it reports none or zero. *)
Theorem deployment_gate network oracleGetter tr (s : State) :
  trace_from (deploy network oracleGetter) tr s ->
  if is_local network
  then enforceOracleCheck s = false
       /\ decryptionOracle s =
            match oracleGetter with
            | Some reported =>
                if decide (reported = 0) then sepoliaOracle else reported
            | None => sepoliaOracle
            end
  else enforceOracleCheck s = true
       /\ decryptionOracle s = sepoliaOracle
       /\ forall tx rid c p r, (tx, Fulfill rid c p, r) ∈ tr ->
            sender tx = sepoliaOracle.
Proof.
  unfold deploy, deploy_args. intros Htr.
  pose proof (trace_immutable _ _ _ Htr) as [He Ho].
  destruct (is_local network) eqn:Hl; simpl in *.
  - split; [done|]. rewrite Ho.
    destruct oracleGetter as [a|]; [|done].
    case_bool_decide; case_decide; done.
  - split_and!; [done|by rewrite Ho|].
    intros tx rid c p r Hin.
    destruct (trace_fulfill_gate _ _ _ _ _ _ _ _ Htr Hin) as [?|?]; done.
Qed.
End Deployment.

(** ** The pending views *)

Section PendingViews.
Context `{B : FHEBackend} `{!FHELaws B}.

Abbreviation record s rid := (sload noPending (_pendingByRequest s) rid).
Abbreviation flag s id := (sload false (_isTokenPending s) id).
Abbreviation request s id := (sload 0 (_requestByToken s) id).

Lemma exec_flag tx c (s : State) r s' x :
  exec tx c s = Ok (r, s') -> flag s' x = flag_after c s x.
Proof.
  intros Hm. pose proof (token_only _ _ _ _ _ Hm) as Ht.
  destruct c; simpl in *;
    try (by destruct Ht as (t' & -> & _)).
  - apply stake_inv in Hm as (_ & _ & _ & _ & t' & _ & _ & ->). simpl.
    apply sload_sstore.
  - apply redeem_inv in Hm
      as (_ & _ & _ & _ & _ & t' & rid & f' & _ & _ & _ & ->). simpl.
    apply sload_sstore.
  - apply onDecryptionFulfilled_inv in Hm
      as (_ & pending & amount & mid & He & _ & _ & _ & ->).
    apply fulfill_effects_inv in He as (_ & _ & _ & _ & Hp & ->). simpl in *.
    subst pending. apply sload_sstore.
Qed.

Lemma exec_request tx c (s : State) r s' x :
  exec tx c s = Ok (r, s') -> request s' x = request_after c r s x.
Proof.
  intros Hm. pose proof (token_only _ _ _ _ _ Hm) as Ht.
  destruct c; simpl in *;
    try (by destruct Ht as (t' & -> & _)).
  - apply stake_inv in Hm as (_ & _ & _ & _ & t' & _ & _ & ->). simpl.
    apply sload_sstore.
  - apply redeem_inv in Hm
      as (_ & _ & _ & _ & _ & t' & rid & f' & _ & _ & -> & ->). simpl.
    apply sload_sstore.
  - apply onDecryptionFulfilled_inv in Hm
      as (_ & pending & amount & mid & He & _ & _ & _ & ->).
    apply fulfill_effects_inv in He as (_ & _ & _ & _ & Hp & ->). simpl in *.
    subst pending. apply sload_sstore.
Qed.

Lemma constructor_pending_wf o e : pending_wf (constructor o e).
Proof. split; simpl; intros ?; by rewrite sload_empty. Qed.

Lemma exec_pending_wf tx c (s : State) r s' :
  wf s -> requests_wf s -> pending_wf s -> sender tx <> 0 ->
  exec tx c s = Ok (r, s') -> pending_wf s'.
Proof.
  intros Hwf Hrq [Hf Hr Hmi] Hs Hm.
  pose proof (exec_next _ _ _ _ _ Hm) as Hnext.
  pose proof (exec_moves_live _ _ _ _ _ Hwf Hs Hm) as Hlive.
  assert (forall rid, exists_ (record s rid) = true ->
            _ownerOf (tokenId (record s rid)) (token s) = 0) as Hgone.
  { intros rid Hex. apply (wf_pending _ Hwf). by apply Hr. }
  split.
  - intros id.
    rewrite (exec_flag _ _ _ _ _ _ Hm), (exec_request _ _ _ _ _ _ Hm),
      !(exec_record _ _ _ _ _ _ Hm).
    destruct c; simpl; auto.
    + case_decide; [done|]. auto.
    + destruct (decide (id = id0)) as [->|Hne].
      * intros _. by rewrite decide_True.
      * intros Hfl. destruct (Hf _ Hfl) as [Hex Htok].
        case_decide as E; [|done].
        apply Hrq in Hex. apply redeem_fresh in Hm as [Hfresh _].
        by rewrite <- E in Hfresh.
    + case_decide as E; [done|]. intros Hfl.
      destruct (Hf _ Hfl) as [Hex Htok].
      case_decide as E'; [|done]. rewrite E' in Htok. congruence.
  - intros rid.
    rewrite !(exec_record _ _ _ _ _ _ Hm).
    destruct c; simpl;
      try (intros Hex; rewrite (exec_flag _ _ _ _ _ _ Hm),
             (exec_request _ _ _ _ _ _ Hm); simpl; by apply Hr).
    + intros Hex. rewrite (exec_flag _ _ _ _ _ _ Hm),
        (exec_request _ _ _ _ _ _ Hm). simpl.
      destruct (Hr _ Hex) as (Hfl & Hrq' & Hrec). apply Hmi in Hfl.
      rewrite !decide_False by lia. by apply Hr.
    + rewrite (exec_flag _ _ _ _ _ _ Hm), (exec_request _ _ _ _ _ _ Hm).
      simpl. case_decide as E.
      * intros _. simpl. by rewrite !decide_True.
      * intros Hex. pose proof (Hgone _ Hex) as Hg.
        rewrite !decide_False by congruence. by apply Hr.
    + rewrite (exec_flag _ _ _ _ _ _ Hm), (exec_request _ _ _ _ _ _ Hm).
      simpl. case_decide as E; [done|]. intros Hex.
      destruct (Hr _ Hex) as (Hfl & Hrq' & Hrec).
      assert (tokenId (record s rid) <> tokenId (record s requestId)) as Hne.
      { intros Heq. apply fulfill_pays in Hm as (_ & _ & Hex' & _).
        destruct (Hr _ Hex') as (_ & Hrq'' & _). congruence. }
      rewrite !decide_False by done. done.
  - intros id. rewrite (exec_flag _ _ _ _ _ _ Hm).
    destruct c; simpl;
      try (intros Hfl%Hmi; lia).
    + case_decide; [done|]. intros Hfl%Hmi. lia.
    + case_decide as E; [|intros Hfl%Hmi; lia]. subst. intros _.
      apply (wf_minted _ Hwf) in Hlive. lia.
    + case_decide; [done|]. intros Hfl%Hmi. lia.
Qed.

Lemma trace_pending_wf (s0 s : State) tr :
  wf s0 -> requests_wf s0 -> pending_wf s0 ->
  trace_from s0 tr s -> pending_wf s.
Proof.
  intros Hwf Hrq Hp. induction 1 as [|tr s tx c r s' Htr IH Hs Hm]; [done|].
  eapply exec_pending_wf; [by eapply trace_wf|by eapply trace_requests_wf|
    by apply IH|done..].
Qed.

Lemma reachable_pending_wf (s : State) : reachable s -> pending_wf s.
Proof.
  intros (o & e & tr & Htr).
  eapply trace_pending_wf; [apply constructor_wf|apply constructor_requests_wf|
    apply constructor_pending_wf|done].
Qed.
End PendingViews.

Section PendingTheorems.
Context `{B : FHEBackend} `{!FHELaws B}.

Abbreviation record s rid := (sload noPending (_pendingByRequest s) rid).

Lemma tokensOf_account a (s : State) ids : tokensOf a s = Ok ids -> a <> 0.
Proof.
  unfold tokensOf, bind, balanceOf. intros Hm ->.
  by rewrite bool_decide_eq_true_2 in Hm.
Qed.

Lemma tokensOf_owned a (s : State) ids id :
  wf s -> tokensOf a s = Ok ids ->
  id ∈ ids <-> _ownerOf id (token s) = a.
Proof.
  intros Hwf Hm. pose proof (tokensOf_account _ _ _ Hm) as Ha.
  rewrite tokensOf_spec in Hm;
    [|done|apply (ok_balance _ (wf_holdings _ Hwf))].
  simplify_eq. by apply owned_list_elem; [apply Hwf|].
Qed.

(** X4.  An id that was never handed out (zero, or at or above the id
    counter) behaves as a missing key everywhere: its encrypted balance
    cannot be read, it cannot be redeemed and the attempt changes nothing, it
    is not pending, has no request, and is in nobody's list. *)
Theorem unissued_id_rejected (s : State) id :
  reachable s -> ~ (1 <= id < _nextTokenId s) ->
  getEncryptedStake id s = Revert StakeNotFound
  /\ (forall tx, call tx (Redeem id) s = (s, Reverted InvalidCertificate))
  /\ isTokenPending id s = false
  /\ pendingRequestForToken id s = 0
  /\ forall a ids, tokensOf a s = Ok ids -> id ∉ ids.
Proof.
  intros Hr Hid. pose proof (reachable_wf _ Hr) as Hwf.
  pose proof (reachable_pending_wf _ Hr) as Hp.
  assert (_ownerOf id (token s) = 0) as Hown.
  { destruct (decide (_ownerOf id (token s) = 0)) as [|Hne]; [done|].
    by apply (wf_minted _ Hwf) in Hne. }
  assert (sload false (_isTokenPending s) id = false) as Hfl.
  { destruct (sload false (_isTokenPending s) id) eqn:E; [|done].
    by apply (pw_minted _ Hp) in E. }
  split_and!.
  - unfold getEncryptedStake, FHE_isInitialized.
    destruct (decide (sload 0 (_encryptedStakes s) id = 0)) as [->|Hne];
      [done|]. by apply (wf_stake _ Hwf) in Hne.
  - intros tx. apply call_reverted. simpl.
    by apply redeem_burned_forward; [apply Hwf|].
  - done.
  - unfold pendingRequestForToken. by rewrite Hfl.
  - intros a ids Hm Hin.
    apply (tokensOf_owned _ _ _ _ Hwf Hm) in Hin.
    apply tokensOf_account in Hm. congruence.
Qed.

(** X5.  The two pending views agree with the withdrawal records.  A
    certificate is flagged pending exactly when some request has a record for
    it; that request is then the only one, it is the one
    [pendingRequestForToken] returns, and the certificate has no owner and no
    encrypted balance any more.  For a certificate that is not flagged the
    request view is zero. *)
Theorem pending_views_match_records (s : State) id :
  reachable s ->
  (isTokenPending id s = true <->
     exists rid, exists_ (record s rid) = true /\ tokenId (record s rid) = id)
  /\ (forall rid, exists_ (record s rid) = true -> tokenId (record s rid) = id ->
        pendingRequestForToken id s = rid
        /\ _ownerOf id (token s) = 0
        /\ getEncryptedStake id s = Revert StakeNotFound)
  /\ (isTokenPending id s = false -> pendingRequestForToken id s = 0).
Proof.
  intros Hr. pose proof (reachable_wf _ Hr) as Hwf.
  pose proof (reachable_pending_wf _ Hr) as Hp.
  unfold isTokenPending, pendingRequestForToken. split_and!.
  - split.
    + intros Hfl. destruct (pw_flag _ Hp _ Hfl) as [Hex Htok]. eauto.
    + intros (rid & Hex & <-). by apply (pw_record _ Hp).
  - intros rid Hex <-. destruct (pw_record _ Hp _ Hex) as (Hfl & Hrq & _).
    rewrite Hfl. simpl. pose proof (wf_pending _ Hwf _ Hfl) as Hown.
    split_and!; [done..|].
    unfold getEncryptedStake, FHE_isInitialized.
    destruct (decide (sload 0 (_encryptedStakes s)
                        (tokenId (record s rid)) = 0)) as [->|Hne]; [done|].
    by apply (wf_stake _ Hwf) in Hne.
  - by intros ->.
Qed.

(** X6.  No ether leaves the contract except through a fulfillment, and a
    fulfillment never pays the zero address nor a negative amount. *)
Theorem payouts_only_by_fulfillment oracleAddress enforceOracle tr (s : State) :
  trace_from (constructor oracleAddress enforceOracle) tr s ->
  forall tx c r a amount,
    (tx, c, r) ∈ tr -> payout r = Some (a, amount) ->
    a <> 0 /\ 0 <= amount
    /\ exists rid cleartexts proof, c = Fulfill rid cleartexts proof.
Proof.
  intros Htr tx c r a amount.
  remember (constructor oracleAddress enforceOracle) as s0 eqn:E0.
  induction Htr as [|tr s tx' c' r' s' Htr IH Hs Hm]; intros Hin Hp.
  - by apply elem_of_nil in Hin.
  - apply elem_of_app in Hin as [Hin|Hin]; [by apply IH|].
    apply list_elem_of_singleton in Hin. simplify_eq.
    assert (pending_wf s) as Hpw.
    { eapply trace_pending_wf; [apply constructor_wf|
        apply constructor_requests_wf|apply constructor_pending_wf|done]. }
    pose proof (token_only _ _ _ _ _ Hm) as Ht.
    destruct c'; simpl in *;
      try (by destruct Ht as (t' & _ & ->)).
    + by apply stake_inv in Hm as (_ & _ & _ & _ & t' & _ & -> & _).
    + by apply redeem_inv in Hm
        as (_ & _ & _ & _ & _ & t' & rid & f' & _ & _ & -> & _).
    + apply fulfill_pays in Hm as (amt & Hdec & Hex & _ & Hpay & _).
      rewrite Hpay in Hp. simplify_eq.
      split_and!; [by apply (pw_record _ Hpw)|by eapply abi_decode_nonneg|eauto].
Qed.
End PendingTheorems.

(** ** The life of a redemption *)

Section Lifecycle.
Context `{B : FHEBackend} `{!FHELaws B}.

Abbreviation record s rid := (sload noPending (_pendingByRequest s) rid).
Abbreviation flag s id := (sload false (_isTokenPending s) id).

Lemma redeem_burned tx id (s : State) r s1 :
  wf s -> exec tx (Redeem id) s = Ok (r, s1) -> burned id s1.
Proof.
  intros Hwf Hm. pose proof (redeem_sender _ _ _ _ _ Hm) as Hs.
  pose proof (exec_moves_live _ _ _ _ _ Hwf Hs Hm) as Hlive.
  pose proof (exec_next _ _ _ _ _ Hm) as Hnext.
  pose proof (wf_minted _ Hwf _ Hlive) as Hrange.
  unfold burned.
  rewrite (exec_owner _ _ _ _ _ _ Hwf Hs Hm), (exec_stakes _ _ _ _ _ _ Hm).
  simpl. rewrite !decide_True by done. split_and!; [done..|lia].
Qed.

Lemma trace_lifecycle (s1 s2 : State) tr rid R :
  wf s1 -> requests_wf s1 -> burned (tokenId R) s1 ->
  record s1 rid = R -> exists_ R = true ->
  trace_from s1 tr s2 ->
  ((forall tx c p r, (tx, Fulfill rid c p, r) ∉ tr) /\ record s2 rid = R)
  \/ ((exists tx c p r, (tx, Fulfill rid c p, r) ∈ tr)
      /\ flag s2 (tokenId R) = false).
Proof.
  intros Hwf Hrq Hb HR Hex.
  induction 1 as [|tr s tx c r s' Htr IH Hs Hm].
  { left. split; [|done]. intros ? ? ? ? Hin. by apply elem_of_nil in Hin. }
  pose proof (trace_wf _ _ _ Hwf Htr) as Hwf'.
  pose proof (trace_requests_wf _ _ _ Hrq Htr) as Hrq'.
  pose proof (trace_burned _ _ _ _ Hwf Htr Hb) as (Hown & _).
  pose proof (exec_moves_live _ _ _ _ _ Hwf' Hs Hm) as Hlive.
  destruct IH as [[Hnone Hrec]|[(tx0 & c0 & p0 & r0 & Hin) Hfl]].
  - assert ((exists cl p, c = Fulfill rid cl p)
            \/ (forall cl p, c <> Fulfill rid cl p)) as [(cl & p & ->)|Hother].
    { destruct c; try (right; intros; discriminate).
      destruct (decide (requestId = rid)) as [->|]; [left; eauto|].
      right. intros ? ? [=]. done. }
    + right. split.
      * exists tx, cl, p, r. apply elem_of_app. right.
        by apply list_elem_of_singleton.
      * rewrite (exec_flag _ _ _ _ _ _ Hm). simpl.
        rewrite Hrec. by rewrite decide_True.
    + left. split.
      * intros tx1 c1 p1 r1 Hin. apply elem_of_app in Hin as [Hin|Hin].
        { by apply Hnone in Hin. }
        apply list_elem_of_singleton in Hin. simplify_eq.
        by eapply Hother.
      * rewrite (exec_record _ _ _ _ _ _ Hm).
        destruct c; try done.
        { case_decide as E; [|done].
          assert (issued (fheStore s) rid) as Hiss.
          { apply Hrq'. by rewrite Hrec. }
          apply redeem_fresh in Hm as [Hfresh _]. by rewrite <- E in Hfresh. }
        { case_decide as E; [|done]. subst. by edestruct Hother. }
  - right. split.
    + exists tx0, c0, p0, r0. apply elem_of_app. by left.
    + rewrite (exec_flag _ _ _ _ _ _ Hm).
      destruct c; simpl; try done.
      * by case_decide.
      * case_decide as E; [|done]. by rewrite <- E in Hlive.
      * by case_decide.
Qed.

(** X7.  The pending views over the life of a redemption.  Right after a
    successful [redeem] the certificate is flagged pending and
    [pendingRequestForToken] returns the request of the redeem.  In every
    later state this stays so as long as no fulfillment of that request has
    succeeded; once one has, the flag is cleared and the request view is zero
    for good. *)
Theorem pending_lifecycle (s : State) tx id r s1 tr s2 :
  reachable s ->
  exec tx (Redeem id) s = Ok (r, s1) ->
  trace_from s1 tr s2 ->
  (isTokenPending id s1 = true /\ pendingRequestForToken id s1 = returned r)
  /\ ((forall tx' c p r', (tx', Fulfill (returned r) c p, r') ∉ tr) ->
        isTokenPending id s2 = true
        /\ pendingRequestForToken id s2 = returned r)
  /\ ((exists tx' c p r', (tx', Fulfill (returned r) c p, r') ∈ tr) ->
        isTokenPending id s2 = false /\ pendingRequestForToken id s2 = 0).
Proof.
  intros Hr Hm Htr. pose proof (reachable_wf _ Hr) as Hwf.
  pose proof (redeem_sender _ _ _ _ _ Hm) as Hs.
  pose proof (exec_wf _ _ _ _ _ Hwf Hs Hm) as Hwf1.
  pose proof (exec_requests_wf _ _ _ _ _ (reachable_requests_wf _ Hr) Hm)
    as Hrq1.
  assert (reachable s1) as Hr1.
  { eapply trace_reachable; [done|]. by apply trace_step. }
  assert (reachable s2) as Hr2 by (by eapply trace_reachable).
  pose proof (reachable_pending_wf _ Hr2) as Hp2.
  pose proof (redeem_burned _ _ _ _ _ Hwf Hm) as Hb.
  pose proof (exec_record _ _ _ _ _ (returned r) Hm) as Hrec.
  simpl in Hrec. rewrite decide_True in Hrec by done.
  pose proof (trace_lifecycle s1 s2 tr (returned r)
                {| recipient := _ownerOf id (token s); tokenId := id;
                   exists_ := true |} Hwf1 Hrq1 Hb Hrec eq_refl Htr) as Hl.
  simpl in Hl.
  unfold isTokenPending, pendingRequestForToken.
  split; [|split].
  - rewrite (exec_flag _ _ _ _ _ _ Hm), (exec_request _ _ _ _ _ _ Hm).
    simpl. by rewrite !decide_True.
  - intros Hnone.
    destruct Hl as [[_ Hrec2]|[(? & ? & ? & ? & Hin) _]].
    + destruct (pw_record _ Hp2 (returned r)) as (Hfl & Hrq & _).
      { by rewrite Hrec2. }
      rewrite Hrec2 in Hfl, Hrq. simpl in *. by rewrite Hfl.
    + by apply Hnone in Hin.
  - intros (tx' & c & p & r' & Hin).
    destruct Hl as [[Hnone _]|[_ Hfl]].
    + by apply Hnone in Hin.
    + by rewrite Hfl.
Qed.
End Lifecycle.

(** ** Encrypted balances of live certificates *)

Section Balances.
Context `{B : FHEBackend}.

Lemma exec_minted tx c (s : State) r s' id :
  wf s -> sender tx <> 0 -> exec tx c s = Ok (r, s') ->
  _ownerOf id (token s') <> 0 ->
  _ownerOf id (token s) <> 0
  \/ exists v, c = Stake v /\ returned r = id /\ id = _nextTokenId s /\ 0 < v.
Proof.
  intros Hwf Hs Hm. pose proof (exec_moves_live _ _ _ _ _ Hwf Hs Hm) as Hlive.
  rewrite (exec_owner _ _ _ _ _ id Hwf Hs Hm).
  destruct c; simpl; auto; try (case_decide; subst; auto).
  intros _. right. simpl in Hm.
  apply stake_inv in Hm as (_ & ? & _ & _ & t' & _ & -> & _). eauto.
Qed.

Lemma trace_next (s0 s : State) tr :
  trace_from s0 tr s -> _nextTokenId s0 <= _nextTokenId s.
Proof.
  induction 1 as [|? ? ? ? ? ? ? IH ? Hm]; [done|].
  apply exec_next in Hm. lia.
Qed.

Lemma live_stake_handle (s0 s : State) tr id :
  wf s0 -> (forall x, _ownerOf x (token s0) = 0) ->
  trace_from s0 tr s ->
  _ownerOf id (token s) <> 0 ->
  exists tx v r,
    (tx, Stake v, r) ∈ tr /\ returned r = id /\ 0 < v
    /\ sload 0 (_encryptedStakes s) id = asEuint256 v.
Proof.
  intros Hwf0 Hempty Htr.
  induction Htr as [|tr s tx c r s' Htr IH Hs Hm]; intros Hown.
  { by rewrite Hempty in Hown. }
  pose proof (trace_wf _ _ _ Hwf0 Htr) as Hwf.
  destruct (exec_minted _ _ _ _ _ _ Hwf Hs Hm Hown)
    as [Hold|(v & -> & Hid & Hnext & Hv)].
  - destruct (IH Hold) as (tx0 & v0 & r0 & Hin & Hid & Hv & Hst).
    exists tx0, v0, r0. split_and!; try done.
    { apply elem_of_app. by left. }
    rewrite (exec_stakes _ _ _ _ _ _ Hm).
    pose proof (wf_minted _ Hwf _ Hold) as Hrange.
    destruct c; simpl; try done.
    + by rewrite decide_False by lia.
    + case_decide as E; [|done]. subst id0.
      rewrite (exec_owner _ _ _ _ _ _ Hwf Hs Hm) in Hown. simpl in Hown.
      by rewrite decide_True in Hown.
  - exists tx, v, r. split_and!; try done.
    { apply elem_of_app. right. by apply list_elem_of_singleton. }
    rewrite (exec_stakes _ _ _ _ _ _ Hm). simpl. by rewrite decide_True.
Qed.

Lemma constructor_empty o e x : _ownerOf x (token (constructor o e)) = 0.
Proof. unfold _ownerOf. simpl. by rewrite sload_empty. Qed.

(** X8.  The encrypted balance of a live certificate.  Every certificate
    that has an owner was handed out by a stake of the history, and whatever
    happened since (transfers, approvals, other stakes and redemptions) the
    handle bound to it is the handle of the amount of that stake;
    [getEncryptedStake] returns it. *)
Theorem live_certificate_balance oracleAddress enforceOracle tr (s : State) id :
  trace_from (constructor oracleAddress enforceOracle) tr s ->
  _ownerOf id (token s) <> 0 ->
  exists tx v r,
    (tx, Stake v, r) ∈ tr /\ returned r = id /\ 0 < v
    /\ sload 0 (_encryptedStakes s) id = asEuint256 v
    /\ (FHE_isInitialized (asEuint256 v) = true ->
        getEncryptedStake id s = Ok (asEuint256 v)).
Proof.
  intros Htr Hown.
  destruct (live_stake_handle _ _ _ _ (constructor_wf _ _)
              (constructor_empty _ _) Htr Hown)
    as (tx & v & r & Hin & Hid & Hv & Hst).
  exists tx, v, r. split_and!; try done.
  intros Hinit. unfold getEncryptedStake. by rewrite Hst, Hinit.
Qed.

(** X9.  What [tokensOf] lists can be inspected: every certificate in the
    list of an account belongs to that account, is not pending, has no
    request, and, the library handing out no null handle for a positive
    amount, its encrypted balance can be read. *)
Theorem listed_certificates_are_live (s : State) a ids :
  (forall v, 0 < v -> asEuint256 v <> 0) ->
  reachable s ->
  tokensOf a s = Ok ids ->
  forall id, id ∈ ids ->
    _ownerOf id (token s) = a
    /\ isTokenPending id s = false
    /\ pendingRequestForToken id s = 0
    /\ exists h, getEncryptedStake id s = Ok h /\ h <> 0.
Proof.
  intros Hnn Hr Hm id Hin. pose proof (reachable_wf _ Hr) as Hwf.
  apply (tokensOf_owned _ _ _ _ Hwf Hm) in Hin.
  apply tokensOf_account in Hm.
  assert (_ownerOf id (token s) <> 0) as Hown by congruence.
  assert (sload false (_isTokenPending s) id = false) as Hfl.
  { destruct (sload false (_isTokenPending s) id) eqn:E; [|done].
    by apply (wf_pending _ Hwf) in E. }
  unfold isTokenPending, pendingRequestForToken. rewrite Hfl.
  split_and!; try done.
  destruct Hr as (o & e & tr & Htr).
  destruct (live_stake_handle _ _ _ _ (constructor_wf _ _)
              (constructor_empty _ _) Htr Hown)
    as (tx & v & r & _ & _ & Hv & Hst).
  exists (asEuint256 v). split; [|by apply Hnn].
  unfold getEncryptedStake, FHE_isInitialized. rewrite Hst.
  rewrite bool_decide_eq_false_2; [done|by apply Hnn].
Qed.
End Balances.

(** ** Ether, ids and the reentrancy guard *)

Section Ether.
Context `{B : FHEBackend}.

Lemma deposited_snoc tr step :
  deposited (tr ++ [step]) = deposited tr + step_deposit step.
Proof.
  unfold deposited. induction tr as [|x tr IH]; simpl; [lia|].
  rewrite IH. lia.
Qed.

Lemma paid_out_snoc tr step :
  paid_out (tr ++ [step]) = paid_out tr + step_payout step.
Proof.
  unfold paid_out. induction tr as [|x tr IH]; simpl; [lia|].
  rewrite IH. lia.
Qed.

Lemma exec_ether tx c (s : State) r s' :
  exec tx c s = Ok (r, s') ->
  ethBalance s' = ethBalance s + step_deposit (tx, c, r) - step_payout (tx, c, r)
  /\ (0 <= ethBalance s -> 0 <= ethBalance s').
Proof.
  intros Hm. pose proof (token_only _ _ _ _ _ Hm) as Ht.
  unfold step_payout.
  destruct c; simpl in *;
    try (destruct Ht as (t' & -> & ->); simpl; lia).
  - apply stake_inv in Hm as (_ & Hv & _ & _ & t' & _ & -> & ->). simpl. lia.
  - apply redeem_inv in Hm
      as (_ & _ & _ & _ & _ & t' & rid & f' & _ & _ & -> & ->). simpl. lia.
  - apply fulfill_pays in Hm as (amount & Hdec & _ & _ & -> & -> & Hle).
    apply abi_decode_nonneg in Hdec. lia.
Qed.

Lemma trace_ether (s0 s : State) tr :
  0 <= ethBalance s0 ->
  trace_from s0 tr s ->
  ethBalance s = ethBalance s0 + deposited tr - paid_out tr
  /\ 0 <= ethBalance s.
Proof.
  intros H0. induction 1 as [|tr s tx c r s' Htr [IH IH0] Hs Hm].
  - simpl. unfold deposited, paid_out. simpl. lia.
  - rewrite deposited_snoc, paid_out_snoc.
    apply exec_ether in Hm as (-> & Hnn). split; [lia|]. apply Hnn. lia.
Qed.

(** X10.  Ether is conserved.  The balance of the contract is what the
    stakes of its history brought in less what its fulfillments paid out; it
    is never overdrawn, so over any history the payouts sum to no more than
    the deposits.  (The balance is the one the entry points of the contract
    move; it has no other payable function.) *)
Theorem ether_conserved oracleAddress enforceOracle tr (s : State) :
  trace_from (constructor oracleAddress enforceOracle) tr s ->
  ethBalance s = deposited tr - paid_out tr
  /\ 0 <= ethBalance s
  /\ paid_out tr <= deposited tr.
Proof.
  intros Htr. apply trace_ether in Htr as [He H0]; [|done].
  simpl in He. lia.
Qed.

Lemma minted_ids_snoc tr step :
  minted_ids (tr ++ [step]) =
    minted_ids tr ++ match step with
                     | (_, Stake _, r) => [returned r]
                     | _ => []
                     end.
Proof.
  unfold minted_ids. rewrite omap_app. f_equal.
  by destruct step as [[tx []] r].
Qed.

Lemma trace_minted_ids (s0 s : State) tr :
  trace_from s0 tr s ->
  _nextTokenId s0 <= _nextTokenId s
  /\ minted_ids tr = seqZ (_nextTokenId s0) (_nextTokenId s - _nextTokenId s0).
Proof.
  induction 1 as [|tr s tx c r s' Htr [IHle IH] Hs Hm].
  - split; [lia|]. by rewrite Z.sub_diag.
  - rewrite minted_ids_snoc, IH.
    pose proof (token_only _ _ _ _ _ Hm) as Ht.
    destruct c; simpl in *;
      try (destruct Ht as (t' & -> & ->); simpl; split; [lia|];
           by rewrite app_nil_r).
    + apply stake_inv in Hm as (_ & _ & _ & _ & t' & _ & -> & ->). simpl.
      split; [lia|].
      replace (_nextTokenId s + 1 - _nextTokenId s0)
        with ((_nextTokenId s - _nextTokenId s0) + 1) by lia.
      rewrite seqZ_app by lia. f_equal.
      replace (_nextTokenId s0 + (_nextTokenId s - _nextTokenId s0))
        with (_nextTokenId s) by lia.
      done.
    + apply redeem_inv in Hm
        as (_ & _ & _ & _ & _ & t' & rid & f' & _ & _ & -> & ->). simpl.
      split; [lia|]. by rewrite app_nil_r.
    + apply onDecryptionFulfilled_inv in Hm
        as (_ & pending & amount & mid & He & _ & _ & _ & ->).
      apply fulfill_effects_inv in He as (_ & _ & _ & _ & _ & ->). simpl.
      split; [lia|]. by rewrite app_nil_r.
Qed.

(** X11.  Certificates are numbered in the order of staking, from one and
    without gaps: the ids returned by the successful stakes of a history are
    1, 2, ... up to the id counter less one, whatever else happened in
    between; a failed stake, a redeem or a transfer uses up no id. *)
Theorem ids_are_consecutive oracleAddress enforceOracle tr (s : State) :
  trace_from (constructor oracleAddress enforceOracle) tr s ->
  minted_ids tr = seqZ 1 (_nextTokenId s - 1)
  /\ Z.of_nat (length (minted_ids tr)) = _nextTokenId s - 1.
Proof.
  intros Htr. apply trace_minted_ids in Htr as [Hle ->]. simpl in *.
  split; [done|]. rewrite length_seqZ. lia.
Qed.

End Ether.

(** ** Decoding the cleartext *)

Lemma be_uint_bound (data : list Byte.byte) (acc : Z) :
  0 <= acc ->
  fold_left (fun acc b => acc * 256 + Z.of_N (Byte.to_N b)) data acc
    < (acc + 1) * 256 ^ Z.of_nat (length data).
Proof.
  revert acc. induction data as [|b data IH]; intros acc Hacc; simpl length.
  - simpl. lia.
  - simpl fold_left.
    pose proof (Byte.to_N_bounded b) as Hb.
    eapply Z.lt_le_trans; [apply IH; lia|].
    rewrite Nat2Z.inj_succ, Z.pow_succ_r by lia.
    assert (0 < 256 ^ Z.of_nat (length data)) by (apply Z.pow_pos_nonneg; lia).
    nia.
Qed.

Lemma abi_decode_spec (data : list Byte.byte) amount :
  abi_decode_uint256 data = Some amount ->
  (32 <= length data)%nat /\ amount = be_uint (take 32 data)
  /\ 0 <= amount <= MAX_UINT256.
Proof.
  unfold abi_decode_uint256. case_bool_decide as Hlen; [done|].
  intros [= <-]. split; [lia|]. split; [done|].
  unfold be_uint, MAX_UINT256. split; [by apply be_uint_acc|].
  pose proof (be_uint_bound (take 32 data) 0 ltac:(done)) as Hb.
  rewrite length_take_le in Hb by lia.
  change (256 ^ Z.of_nat 32) with (2 ^ 256) in Hb. lia.
Qed.

Lemma be_bytes_length n z acc :
  length (be_bytes n z acc) = (n + length acc)%nat.
Proof.
  revert z acc. induction n as [|n IH]; intros z acc; simpl; [done|].
  rewrite IH. simpl. lia.
Qed.

Lemma be_bytes_fold n z acc a :
  fold_left (fun acc b => acc * 256 + Z.of_N (Byte.to_N b)) (be_bytes n z acc) a
  = fold_left (fun acc b => acc * 256 + Z.of_N (Byte.to_N b)) acc
      (a * 256 ^ Z.of_nat n + z mod 256 ^ Z.of_nat n).
Proof.
  revert z acc a. induction n as [|n IH]; intros z acc a.
  - simpl. rewrite Z.mod_1_r. f_equal. lia.
  - simpl be_bytes. rewrite IH. simpl fold_left. f_equal.
    assert (Byte.to_N (default x00 (Byte.of_N (Z.to_N (z mod 256))))
            = Z.to_N (z mod 256)) as ->.
    { destruct (Byte.of_N (Z.to_N (z mod 256))) as [b|] eqn:E.
      - simpl. by apply Byte.to_of_N.
      - apply Byte.of_N_None_iff in E.
        pose proof (Z.mod_pos_bound z 256 ltac:(lia)). lia. }
    rewrite Z2N.id by (apply Z.mod_pos_bound; lia).
    rewrite Nat2Z.inj_succ, Z.pow_succ_r by lia.
    rewrite (Z.rem_mul_r z 256 (256 ^ Z.of_nat n))
      by (try apply Z.pow_pos_nonneg; lia).
    lia.
Qed.

Section Decoding.
Context `{B : FHEBackend}.

(** X13.  The cleartext of a callback is read as one ABI word.  A callback
    whose cleartext is shorter than 32 bytes (the empty one included) fails
    and changes nothing, whoever sends it and whatever the proof. *)
Theorem short_cleartext_rejected (s : State) tx rid c p :
  (length c < 32)%nat ->
  exists e, call tx (Fulfill rid c p) s = (s, Reverted e).
Proof.
  intros Hlen. unfold call.
  destruct (exec tx (Fulfill rid c p) s) as [[r s']|e] eqn:Hm; [|eauto].
  simpl in Hm. apply fulfill_pays in Hm as (amount & Hdec & _).
  apply abi_decode_spec in Hdec as (? & _). lia.
Qed.

(** X14.  What a successful callback pays is the big-endian value of the first
    32 bytes of its cleartext, a [uint256]; the bytes after them are ignored.
    The event reports the same amount. *)
Theorem payout_is_decoded_word (s : State) tx rid c p r s' :
  exec tx (Fulfill rid c p) s = Ok (r, s') ->
  (32 <= length c)%nat
  /\ 0 <= be_uint (take 32 c) <= MAX_UINT256
  /\ payout r =
       Some (recipient (sload noPending (_pendingByRequest s) rid),
             be_uint (take 32 c))
  /\ logs r =
       [WithdrawCompleted (recipient (sload noPending (_pendingByRequest s) rid))
          (tokenId (sload noPending (_pendingByRequest s) rid))
          (be_uint (take 32 c))]
  /\ ethBalance s' = ethBalance s - be_uint (take 32 c).
Proof.
  simpl. intros Hm. apply onDecryptionFulfilled_inv in Hm
    as (_ & pending & amount & mid & He & _ & _ & -> & ->).
  apply fulfill_effects_inv in He as (_ & _ & _ & Hdec & Hrec & ->).
  simpl in *. subst pending.
  apply abi_decode_spec in Hdec as (Hlen & -> & Hrange). done.
Qed.
End Decoding.

(** X15.  ABI round trip: the 32-byte encoding of a [uint256], followed by any
    bytes, decodes to the value. *)
Theorem abi_round_trip (v : Z) (rest : list Byte.byte) :
  0 <= v <= MAX_UINT256 ->
  length (abi_encode_uint256 v) = 32%nat
  /\ abi_decode_uint256 (abi_encode_uint256 v ++ rest) = Some v.
Proof.
  intros Hv. unfold abi_encode_uint256, abi_decode_uint256.
  pose proof (be_bytes_length 32 v []) as Hlen.
  change (length (be_bytes 32 v []) = 32%nat) in Hlen.
  split; [done|].
  rewrite bool_decide_eq_false_2 by (rewrite length_app; lia).
  f_equal. rewrite <- Hlen at 1. rewrite take_app_length.
  unfold be_uint. rewrite be_bytes_fold. simpl fold_left.
  change (256 ^ Z.of_nat 32) with (2 ^ 256).
  unfold MAX_UINT256 in Hv. rewrite Z.mod_small by lia. lia.
Qed.

(** ** The ledger of principals *)

Lemma owed_snoc tr step : owed (tr ++ [step]) = owe (owed tr) step.
Proof. unfold owed. by rewrite fold_left_app. Qed.

Lemma total_empty : total ∅ = 0.
Proof. unfold total. by rewrite map_fold_empty. Qed.

Lemma total_insert (m : gmap Z Z) i x :
  m !! i = None -> total (<[i := x]> m) = x + total m.
Proof.
  intros Hi. unfold total. rewrite map_fold_insert_L; [done| |done].
  intros. lia.
Qed.

Lemma total_delete (m : gmap Z Z) i x :
  m !! i = Some x -> total m = x + total (delete i m).
Proof.
  intros Hi. unfold total.
  rewrite (map_fold_delete_L _ _ i x m); [done| |done].
  intros. lia.
Qed.

Lemma total_nonneg (m : gmap Z Z) :
  (forall i x, m !! i = Some x -> 0 <= x) -> 0 <= total m.
Proof.
  induction m as [|i x m Hi IH] using map_ind; intros Hpos.
  - by rewrite total_empty.
  - rewrite total_insert by done.
    assert (0 <= x) by (apply (Hpos i); by rewrite lookup_insert_eq).
    assert (0 <= total m); [|lia].
    apply IH. intros j y Hj. apply (Hpos j).
    rewrite lookup_insert_ne; [done|]. intros ->. congruence.
Qed.

Lemma total_lookup (m : gmap Z Z) i x :
  (forall j y, m !! j = Some y -> 0 <= y) -> m !! i = Some x -> x <= total m.
Proof.
  intros Hpos Hi. rewrite (total_delete _ _ _ Hi).
  assert (0 <= total (delete i m)); [|lia].
  apply total_nonneg. intros j y Hj.
  apply lookup_delete_Some in Hj as [_ Hj]. by eapply Hpos.
Qed.

(** What is owed for a certificate is the amount of the stake that minted
    it. *)
Lemma owed_stake tr id v :
  owed tr !! id = Some v ->
  exists tx r, (tx, Stake v, r) ∈ tr /\ returned r = id.
Proof.
  induction tr as [|step tr IH] using rev_ind.
  - unfold owed. simpl. by rewrite lookup_empty.
  - rewrite owed_snoc. intros Hl.
    assert ((exists tx r, step = (tx, Stake v, r) /\ returned r = id)
            \/ owed tr !! id = Some v) as [(tx & r & -> & Hid)|Hold].
    { destruct step as [[tx c] r]. destruct c; simpl in Hl; auto.
      - destruct (decide (returned r = id)) as [E|E].
        + rewrite E, lookup_insert_eq in Hl. left. exists tx, r.
          split; [congruence|done].
        + rewrite lookup_insert_ne in Hl by done. auto.
      - destruct (logs r) as [|[] []]; auto.
        apply lookup_delete_Some in Hl as [_ Hl]. auto. }
    + exists tx, r. split; [|done]. apply elem_of_app. right.
      by apply list_elem_of_singleton.
    + destruct (IH Hold) as (tx & r & Hin & Hid). exists tx, r.
      split; [|done]. apply elem_of_app. by left.
Qed.

Section Ledger.
Context `{B : FHEBackend} `{!FHELaws B} `{!FHESound B}.

Abbreviation record s rid := (sload noPending (_pendingByRequest s) rid).
Abbreviation flag s id := (sload false (_isTokenPending s) id).

Lemma exec_requested tx c (s : State) r s' x hs :
  exec tx c s = Ok (r, s') ->
  requested (fheStore s) x hs -> requested (fheStore s') x hs.
Proof.
  intros Hm Hx. pose proof (token_only _ _ _ _ _ Hm) as Ht.
  destruct c; simpl in *;
    try (by destruct Ht as (t' & -> & _)).
  - apply stake_inv in Hm as (_ & _ & _ & _ & t' & _ & _ & ->). simpl.
    by apply allow_requested, allowThis_requested.
  - apply redeem_inv in Hm
      as (_ & _ & _ & _ & _ & t' & rid & f' & _ & Hreq & _ & ->). simpl.
    by eapply requested_mono.
  - apply onDecryptionFulfilled_inv in Hm
      as (_ & pending & amount & mid & He & _ & _ & _ & ->).
    by apply fulfill_effects_inv in He as (_ & _ & _ & _ & _ & ->).
Qed.

Lemma redeem_requested tx id (s : State) r s' :
  exec tx (Redeem id) s = Ok (r, s') ->
  requested (fheStore s') (returned r) [sload 0 (_encryptedStakes s) id]
  /\ logs r = [WithdrawRequested (_ownerOf id (token s)) id (returned r)].
Proof.
  simpl. intros Hm. apply redeem_inv in Hm
    as (_ & _ & _ & _ & _ & t' & rid & f' & _ & Hreq & -> & ->). simpl.
  split; [|done]. by eapply request_recorded.
Qed.

Lemma exec_owe tx c (s : State) r s' (m : gmap Z Z) :
  exec tx c s = Ok (r, s') ->
  owe m (tx, c, r) =
    match c with
    | Stake v => <[_nextTokenId s := v]> m
    | Fulfill rid _ _ => delete (tokenId (record s rid)) m
    | _ => m
    end.
Proof.
  intros Hm. destruct c; simpl in *; try done.
  - by apply stake_inv in Hm as (_ & _ & _ & _ & t' & _ & -> & _).
  - apply onDecryptionFulfilled_inv in Hm
      as (_ & pending & amount & mid & He & _ & _ & -> & _).
    apply fulfill_effects_inv in He as (_ & _ & _ & _ & Hp & _).
    simpl in *. by subst.
Qed.

Lemma constructor_ledger_wf o e : ledger_wf [] (constructor o e).
Proof.
  split; simpl; unfold owed; simpl.
  - intros id v. by rewrite lookup_empty.
  - intros id. unfold _ownerOf. simpl. by rewrite sload_empty.
  - intros rid. by rewrite sload_empty.
  - intros rid. by rewrite sload_empty.
  - intros id [v Hv]. by rewrite lookup_empty in Hv.
  - by rewrite total_empty.
Qed.

Lemma exec_ledger_wf tx c (s : State) r s' tr :
  wf s -> requests_wf s -> pending_wf s -> ledger_wf tr s ->
  sender tx <> 0 -> exec tx c s = Ok (r, s') ->
  ledger_wf (tr ++ [(tx, c, r)]) s'.
Proof.
  intros Hwf Hrq Hpw [Hrange Hlive Hrec Horig Howed Hbal] Hs Hm.
  pose proof (exec_next _ _ _ _ _ Hm) as Hnext.
  pose proof (exec_moves_live _ _ _ _ _ Hwf Hs Hm) as Hmove.
  pose proof (wf_next _ Hwf) as Hn1.
  assert (forall rid, exists_ (record s rid) = true ->
            _ownerOf (tokenId (record s rid)) (token s) = 0
            /\ 1 <= tokenId (record s rid) < _nextTokenId s) as Hgone.
  { intros rid Hex. destruct (pw_record _ Hpw _ Hex) as (Hfl & _).
    split; [by apply (wf_pending _ Hwf)|by apply (pw_minted _ Hpw)]. }
  assert (forall rid rid', exists_ (record s rid) = true ->
            exists_ (record s rid') = true ->
            tokenId (record s rid) = tokenId (record s rid') -> rid = rid')
    as Huniq.
  { intros rid rid' Hex Hex' E.
    destruct (pw_record _ Hpw _ Hex) as (_ & H1 & _).
    destruct (pw_record _ Hpw _ Hex') as (_ & H2 & _). congruence. }
  split.
  - (* range *)
    intros id v. rewrite owed_snoc, (exec_owe _ _ _ _ _ _ Hm).
    destruct c; try (intros Hl%Hrange; lia).
    + simpl in Hm.
      apply stake_inv in Hm as (_ & Hv & _ & _ & t' & _ & _ & ->). simpl.
      destruct (decide (id = _nextTokenId s)) as [->|Hne].
      * rewrite lookup_insert_eq. intros [= <-]. lia.
      * rewrite lookup_insert_ne by done. intros Hl%Hrange. lia.
    + intros [_ Hl%Hrange]%lookup_delete_Some. lia.
  - (* live *)
    intros id. rewrite owed_snoc, (exec_owe _ _ _ _ _ _ Hm).
    rewrite (exec_owner _ _ _ _ _ _ Hwf Hs Hm), (exec_stakes _ _ _ _ _ _ Hm).
    destruct c; simpl; try apply Hlive.
    + destruct (decide (id = _nextTokenId s)) as [->|Hne].
      * intros _. exists value. by rewrite lookup_insert_eq.
      * rewrite lookup_insert_ne by done. apply Hlive.
    + case_decide; [done|]. apply Hlive.
    + intros Hown. destruct (Hlive _ Hown) as (v & Hv & Hst).
      exists v. split; [|done].
      rewrite lookup_delete_ne; [done|]. intros <-.
      apply fulfill_pays in Hm as (_ & _ & Hex & _).
      by destruct (Hgone _ Hex) as (? & _).
    + case_decide as E; [|apply Hlive]. subst id0. intros _. by apply Hlive.
    + case_decide as E; [|apply Hlive]. subst id0. intros _. by apply Hlive.
  - (* record *)
    intros rid. rewrite owed_snoc, (exec_owe _ _ _ _ _ _ Hm).
    rewrite !(exec_record _ _ _ _ _ _ Hm).
    pose proof (fun hs => exec_requested _ _ _ _ _ rid hs Hm) as Hmono.
    destruct c;
      try (intros Hex; destruct (Hrec _ Hex) as (v & Hv & Hreq);
           exists v; split; [done|by apply Hmono]).
    + intros Hex. destruct (Hrec _ Hex) as (v & Hv & Hreq).
      exists v. split; [|by apply Hmono].
      rewrite lookup_insert_ne; [done|].
      destruct (Hgone _ Hex) as (_ & ?). lia.
    + case_decide as E.
      * intros _. simpl. subst rid.
        destruct (Hlive _ Hmove) as (v & Hv & Hst). exists v.
        split; [done|]. rewrite <- Hst.
        by apply redeem_requested in Hm as [? _].
      * intros Hex. destruct (Hrec _ Hex) as (v & Hv & Hreq).
        exists v. split; [done|by apply Hmono].
    + case_decide as E; [done|].
      intros Hex. destruct (Hrec _ Hex) as (v & Hv & Hreq).
      exists v. split; [|by apply Hmono].
      rewrite lookup_delete_ne; [done|]. intros Heq.
      apply fulfill_pays in Hm as (_ & _ & Hex' & _).
      apply E. symmetry. by apply Huniq.
  - (* origin *)
    intros rid. rewrite !(exec_record _ _ _ _ _ _ Hm).
    assert (forall tx0 r0 x,
              (tx0, Redeem x, r0) ∈ tr ->
              (tx0, Redeem x, r0) ∈ tr ++ [(tx, c, r)]) as Hin.
    { intros. apply elem_of_app. by left. }
    destruct c;
      try (intros Hex; destruct (Horig _ Hex) as (tx0 & r0 & ? & ? & ?);
           exists tx0, r0; by split_and!; [apply Hin|..]).
    + case_decide as E.
      * intros _. simpl. subst rid. exists tx, r. split_and!; [|done|].
        { apply elem_of_app. right. by apply list_elem_of_singleton. }
        by apply redeem_requested in Hm as [_ ?].
      * intros Hex. destruct (Horig _ Hex) as (tx0 & r0 & ? & ? & ?).
        exists tx0, r0. by split_and!; [apply Hin|..].
    + case_decide as E; [done|].
      intros Hex. destruct (Horig _ Hex) as (tx0 & r0 & ? & ? & ?).
      exists tx0, r0. by split_and!; [apply Hin|..].
  - (* owed *)
    intros id. rewrite owed_snoc, (exec_owe _ _ _ _ _ _ Hm).
    rewrite (exec_owner _ _ _ _ _ _ Hwf Hs Hm), (exec_flag _ _ _ _ _ _ Hm).
    destruct c; simpl; try apply Howed.
    + destruct (decide (id = _nextTokenId s)) as [->|Hne].
      * intros _. by left.
      * rewrite lookup_insert_ne by done. apply Howed.
    + case_decide; [by right|]. apply Howed.
    + intros [v [Hne Hv]%lookup_delete_Some].
      rewrite decide_False by done. apply Howed. by exists v.
    + case_decide as E; [|apply Howed]. subst.
      intros _. left. simpl in Hm.
      apply token_call_inv in Hm as (t' & Hm & _).
      by apply (transfer_owner _ _ _ _ _ _ Hwf Hs) in Hm as (_ & ? & _).
    + case_decide as E; [|apply Howed]. subst.
      intros _. left. simpl in Hm.
      apply token_call_inv in Hm as (t' & Hm & _).
      apply safeTransferFrom_inv in Hm as (Hm & _).
      by apply (transfer_owner _ _ _ _ _ _ Hwf Hs) in Hm as (_ & ? & _).
  - (* balance *)
    rewrite owed_snoc, (exec_owe _ _ _ _ _ _ Hm).
    pose proof (token_only _ _ _ _ _ Hm) as Ht.
    destruct c; simpl in *;
      try (by destruct Ht as (t' & -> & _)).
    + apply stake_inv in Hm as (_ & Hv & _ & _ & t' & _ & _ & ->). simpl.
      rewrite total_insert; [lia|].
      destruct (owed tr !! _nextTokenId s) as [v|] eqn:E; [|done].
      apply Hrange in E. lia.
    + by apply redeem_inv in Hm
        as (_ & _ & _ & _ & _ & t' & rid & f' & _ & _ & _ & ->).
    + apply fulfill_pays in Hm as (amount & Hdec & Hex & Hsig & _ & -> & _).
      destruct (Hrec _ Hex) as (v & Hv & Hreq).
      pose proof (signatures_sound _ _ _ _ _ Hreq Hsig) as Hdec'.
      rewrite Hdec in Hdec'. simplify_eq.
      rewrite (total_delete _ _ _ Hv) in Hbal. lia.
Qed.

Lemma trace_ledger_wf oracleAddress enforceOracle tr (s : State) :
  trace_from (constructor oracleAddress enforceOracle) tr s ->
  ledger_wf tr s.
Proof.
  induction 1 as [|tr s tx c r s' Htr IH Hs Hm].
  - apply constructor_ledger_wf.
  - eapply exec_ledger_wf; [..|done|done|done].
    + eapply trace_wf; [apply constructor_wf|done].
    + eapply trace_requests_wf; [apply constructor_requests_wf|done].
    + eapply trace_pending_wf; [apply constructor_wf|
        apply constructor_requests_wf|apply constructor_pending_wf|done].
Qed.

(** X16.  With an oracle that signs only true values the contract holds
    exactly what it owes.  Its balance is the sum of the principals of the
    certificates that are live or under redemption, each principal being the
    amount of the stake that minted the certificate; nothing is owed for any
    other certificate. *)
Theorem balance_is_principal_owed oracleAddress enforceOracle tr (s : State) :
  trace_from (constructor oracleAddress enforceOracle) tr s ->
  ethBalance s = total (owed tr)
  /\ (forall id,
        is_Some (owed tr !! id) <->
        (_ownerOf id (token s) <> 0 \/ isTokenPending id s = true))
  /\ (forall id v, owed tr !! id = Some v ->
        0 < v /\ exists tx r, (tx, Stake v, r) ∈ tr /\ returned r = id).
Proof.
  intros Htr. pose proof (trace_ledger_wf _ _ _ _ Htr) as Hl.
  assert (reachable s) as Hr by (by do 3 eexists).
  pose proof (reachable_pending_wf _ Hr) as Hp.
  split_and!.
  - apply Hl.
  - intros id. split; [apply Hl|]. intros [Hown|Hfl].
    + destruct (lw_live _ _ Hl _ Hown) as (v & Hv & _). by exists v.
    + destruct (pw_flag _ Hp _ Hfl) as [Hex Htok].
      destruct (lw_record _ _ Hl _ Hex) as (v & Hv & _).
      rewrite Htok in Hv. by exists v.
  - intros id v Hv. split; [by destruct (lw_range _ _ Hl _ _ Hv)|].
    by apply owed_stake.
Qed.

Lemma callback_forward tr (s : State) tx rid c p :
  wf s -> ledger_wf tr s ->
  oracle_gate tx s ->
  exists_ (record s rid) = true ->
  checkSignatures rid c p (fheStore s) = true ->
  callee_ok tx = true ->
  exists r s' v,
    exec tx (Fulfill rid c p) s = Ok (r, s')
    /\ owed tr !! tokenId (record s rid) = Some v
    /\ payout r = Some (recipient (record s rid), v)
    /\ ethBalance s' = ethBalance s - v.
Proof.
  intros Hwf Hl Hg Hex Hsig Hok.
  destruct (lw_record _ _ Hl _ Hex) as (v & Hv & Hreq).
  pose proof (signatures_sound _ _ _ _ _ Hreq Hsig) as Hdec.
  assert (v <= ethBalance s) as Hle.
  { rewrite (lw_balance _ _ Hl). apply (total_lookup _ _ _) in Hv; [done|].
    intros j y Hj. apply (lw_range _ _ Hl) in Hj. lia. }
  pose proof (fulfill_effects_forward tx rid c p
                (set_status (fun _ => ENTERED) s) v Hg Hex Hsig Hdec) as He.
  pose proof (fulfill_forward tx rid c p s _ _ _ (wf_status _ Hwf) He) as Hf.
  rewrite bool_decide_eq_true_2, Hok in Hf by done. simpl in Hf.
  do 2 eexists. exists v. split; [exact Hf|]. by split_and!.
Qed.

(** X17.  With an oracle that signs only true values a verified callback can
    fail only at the recipient.  For a request that has its record, a caller
    past the strict-sender gate, a cleartext and proof that verify, and a
    recipient that accepts the ether, [onDecryptionFulfilled] succeeds: the
    contract always has the funds.  It pays the principal of the certificate
    to the recipient of the record. *)
Theorem verified_callback_is_paid oracleAddress enforceOracle tr (s : State)
    tx rid c p :
  trace_from (constructor oracleAddress enforceOracle) tr s ->
  oracle_gate tx s ->
  exists_ (record s rid) = true ->
  checkSignatures rid c p (fheStore s) = true ->
  callee_ok tx = true ->
  exists r s' v,
    exec tx (Fulfill rid c p) s = Ok (r, s')
    /\ owed tr !! tokenId (record s rid) = Some v
    /\ payout r = Some (recipient (record s rid), v)
    /\ ethBalance s' = ethBalance s - v.
Proof.
  intros Htr. apply callback_forward.
  - eapply trace_wf; [apply constructor_wf|done].
  - by eapply trace_ledger_wf.
Qed.

(** X18.  With an oracle that signs only true values every fulfillment pays
    back exactly the stake.  Each fulfillment of a history answers the request
    of a redeem of the history, and pays the amount of the stake that minted
    the redeemed certificate to the owner that redeem recorded: in the state
    of the history in which it ran, the balance of the contract drops by that
    amount. *)
Theorem payout_is_principal oracleAddress enforceOracle tr (s : State) :
  trace_from (constructor oracleAddress enforceOracle) tr s ->
  forall tx rid c p r,
    (tx, Fulfill rid c p, r) ∈ tr ->
    exists id a v txs rs txr rr,
      (txs, Stake v, rs) ∈ tr /\ returned rs = id
      /\ (txr, Redeem id, rr) ∈ tr /\ returned rr = rid
      /\ logs rr = [WithdrawRequested a id rid]
      /\ payout r = Some (a, v)
      /\ logs r = [WithdrawCompleted a id v]
      /\ 0 < v
      /\ exists before sa sb,
          trace_from (constructor oracleAddress enforceOracle) before sa
          /\ exec tx (Fulfill rid c p) sa = Ok (r, sb)
          /\ ethBalance sb = ethBalance sa - v.
Proof.
  intros Htr tx rid c p r.
  induction Htr as [|tr s tx' c' r' s' Htr IH Hs Hm]; intros Hin.
  { by apply elem_of_nil in Hin. }
  apply elem_of_app in Hin as [Hin|Hin].
  - destruct (IH Hin)
      as (id & a & v & txs & rs & txr & rr
          & H1 & H2 & H3 & H4 & H5 & H6 & H7 & H8 & H9).
    exists id, a, v, txs, rs, txr, rr.
    split_and!; try done; apply elem_of_app; by left.
  - apply list_elem_of_singleton in Hin. simplify_eq.
    pose proof (trace_ledger_wf _ _ _ _ Htr) as Hl.
    pose proof Hm as Hm'.
    simpl in Hm. apply onDecryptionFulfilled_inv in Hm
      as (_ & pending & amount & mid & He & _ & _ & -> & ->).
    apply fulfill_effects_inv in He as (_ & Hex & Hsig & Hdec & Hp & ->).
    simpl in *. subst pending.
    destruct (lw_record _ _ Hl _ Hex) as (v & Hv & Hreq).
    destruct (lw_origin _ _ Hl _ Hex) as (txr & rr & Hinr & Hrr & Hlog).
    pose proof (signatures_sound _ _ _ _ _ Hreq Hsig) as Hdec'.
    rewrite Hdec in Hdec'. simplify_eq.
    destruct (owed_stake _ _ _ Hv) as (txs & rs & Hins & Hrs).
    destruct (lw_range _ _ Hl _ _ Hv) as [Hpos _].
    eexists _, _, v, txs, rs, txr, rr.
    split_and!; try done; try (apply elem_of_app; by left).
    exists tr, s. eexists. split_and!; [done|exact Hm'|done].
Qed.

(** X19.  The round trip of a stake.  A stake of [v], the redeem of the
    certificate it minted, and a fulfillment of that request that verifies:
    with an oracle that signs only true values the fulfillment succeeds for
    any caller past the strict-sender gate, provided the staker accepts the
    ether; it pays the staker exactly [v], and the contract is left with the
    balance it had before the stake. *)
Theorem stake_round_trip oracleAddress enforceOracle tr (s : State)
    tx v r1 s1 tx' r2 s2 tx'' c p :
  trace_from (constructor oracleAddress enforceOracle) tr s ->
  sender tx <> 0 ->
  exec tx (Stake v) s = Ok (r1, s1) ->
  exec tx' (Redeem (returned r1)) s1 = Ok (r2, s2) ->
  oracle_gate tx'' s2 ->
  checkSignatures (returned r2) c p (fheStore s2) = true ->
  callee_ok tx'' = true ->
  exists r3 s3,
    exec tx'' (Fulfill (returned r2) c p) s2 = Ok (r3, s3)
    /\ payout r3 = Some (sender tx, v)
    /\ logs r3 = [WithdrawCompleted (sender tx) (returned r1) v]
    /\ ethBalance s3 = ethBalance s.
Proof.
  intros Htr Hs Hm1 Hm2 Hg Hsig Hok.
  pose proof (redeem_sender _ _ _ _ _ Hm2) as Hs'.
  assert (trace_from (constructor oracleAddress enforceOracle)
            ((tr ++ [(tx, Stake v, r1)]) ++ [(tx', Redeem (returned r1), r2)])
            s2) as Htr2.
  { econstructor; [|done..]. by econstructor. }
  pose proof (trace_wf _ _ _ (constructor_wf _ _) Htr) as Hwf.
  pose proof (exec_wf _ _ _ _ _ Hwf Hs Hm1) as Hwf1.
  pose proof (trace_wf _ _ _ (constructor_wf _ _) Htr2) as Hwf2.
  pose proof (trace_ledger_wf _ _ _ _ Htr2) as Hl2.
  pose proof (exec_record _ _ _ _ _ (returned r2) Hm2) as Hrec.
  simpl in Hrec. rewrite decide_True in Hrec by done.
  pose proof (exec_owner _ _ _ _ _ (returned r1) Hwf Hs Hm1) as Hown.
  pose proof (exec_ether _ _ _ _ _ Hm1) as [Hb1 _].
  pose proof (exec_ether _ _ _ _ _ Hm2) as [Hb2 _].
  assert (returned r1 = _nextTokenId s /\ payout r1 = None) as [Hid Hp1].
  { simpl in Hm1.
    by apply stake_inv in Hm1 as (_ & _ & _ & _ & t' & _ & -> & _). }
  assert (payout r2 = None) as Hp2.
  { simpl in Hm2. by apply redeem_inv in Hm2
      as (_ & _ & _ & _ & _ & t' & rid & f' & _ & _ & -> & _). }
  simpl in Hown. rewrite decide_True in Hown by done.
  unfold step_payout in Hb1, Hb2. simpl in Hb1, Hb2.
  rewrite Hp1 in Hb1. rewrite Hp2 in Hb2.
  destruct (callback_forward _ s2 tx'' (returned r2) c p Hwf2 Hl2 Hg)
    as (r3 & s3 & v' & Hm3 & Hv' & Hpay & Hb3);
    [by rewrite Hrec|done..|].
  rewrite Hrec in Hv', Hpay. simpl in Hv', Hpay. rewrite Hown in Hpay.
  assert (v' = v) as ->.
  { rewrite !owed_snoc in Hv'. simpl in Hv'.
    rewrite lookup_insert_eq in Hv'. congruence. }
  exists r3, s3. split_and!; [done|done| |lia].
  simpl in Hm3. apply onDecryptionFulfilled_inv in Hm3
    as (_ & pending & amount & mid & He & _ & _ & -> & _).
  apply fulfill_effects_inv in He as (_ & _ & _ & _ & Hp & _).
  simpl in *. subst pending. rewrite Hrec in *. simpl in *.
  injection Hpay as -> ->. done.
Qed.
End Ledger.

(** ** The enumeration of all certificates, and redeeming *)

Lemma mint_supply to id t t' :
  _mint to id t = Ok (tt, t') ->
  _allTokens t' = _allTokens t ++ [id]
  /\ _allTokensIndex t' =
       sstore 0 id (Z.of_nat (length (_allTokens t))) (_allTokensIndex t).
Proof.
  unfold _mint, _update, ERC721_update, _addTokenToAllTokensEnumeration,
    _addTokenToOwnerEnumeration, balanceOf.
  unmonad. simpl. intros Hm. msimpl. done.
Qed.

Lemma burn_supply id t t' :
  _burn id t = Ok (tt, t') ->
  exists lastId,
    _allTokens t !! (length (_allTokens t) - 1)%nat = Some lastId
    /\ sload 0 (_allTokensIndex t) id < Z.of_nat (length (_allTokens t))
    /\ _allTokens t' =
         removelast (<[Z.to_nat (sload 0 (_allTokensIndex t) id) := lastId]>
                       (_allTokens t))
    /\ _allTokensIndex t' =
         sstore 0 id 0
           (sstore 0 lastId (sload 0 (_allTokensIndex t) id)
              (_allTokensIndex t)).
Proof.
  unfold _burn, _update, ERC721_update, _removeTokenFromAllTokensEnumeration,
    _removeTokenFromOwnerEnumeration, _approve, balanceOf, array_read, array_write.
  unmonad. simpl. intros Hm. msimpl.
  all: eexists; split_and!; try done.
  all: by replace (length (_allTokens t) - 1)%nat
         with (Z.to_nat (Z.of_nat (length (_allTokens t)) - 1)) by lia.
Qed.

Lemma transfer_supply tx from to id t t' :
  transferFrom tx from to id t = Ok (tt, t') ->
  sender tx <> 0 ->
  (forall op, isApprovedForAll 0 op t = false) ->
  (_ownerOf id t = 0 -> _getApproved id t = 0) ->
  _allTokens t' = _allTokens t /\ _allTokensIndex t' = _allTokensIndex t.
Proof.
  unfold transferFrom, _update, ERC721_update, _checkAuthorized,
    _addTokenToOwnerEnumeration, _addTokenToAllTokensEnumeration,
    _removeTokenFromOwnerEnumeration, _approve, balanceOf.
  unmonad. simpl. intros Hm Hs Hop Hap.
  case_bool_decide as Hto; [done|]. simpl in Hm.
  rewrite (bool_decide_eq_false_2 (sender tx = 0)) in Hm by done. simpl in Hm.
  destruct (decide (_ownerOf id t = 0)) as [E0|E0].
  { pose proof (not_authorized_nobody (sender tx) id t Hop (Hap E0)) as Hna.
    rewrite E0 in *. rewrite Hna in *. msimpl. }
  msimpl; done.
Qed.

Lemma removelast_lookup {A} (l : list A) (i : nat) :
  (i < length l - 1)%nat -> removelast l !! i = l !! i.
Proof.
  intros Hi. rewrite removelast_firstn_len. apply lookup_take_lt. lia.
Qed.

Lemma mint_supply_ok to id t t' :
  _mint to id t = Ok (tt, t') ->
  0 <= sload 0 (_balances t) to < 2 ^ 256 ->
  supply_ok t -> supply_ok t'.
Proof.
  intros Hm Hb Hok x.
  destruct (mint_supply _ _ _ _ Hm) as [-> ->].
  apply mint_post in Hm as (_ & Hfree & _ & (Ho & _) & _); [|done].
  change (_ownerOf x t') with (h_owner (holdings t') x). rewrite Ho. simpl.
  rewrite sload_sstore. destruct (decide (x = id)) as [->|Hne].
  - intros _. split; [lia|]. rewrite Nat2Z.id.
    rewrite lookup_app_r by lia. by rewrite Nat.sub_diag.
  - intros Hx. destruct (Hok _ Hx) as [H0 Hl]. split; [done|].
    rewrite lookup_app_l; [done|]. by eapply lookup_lt_Some.
Qed.

Lemma burn_supply_ok id t t' :
  _burn id t = Ok (tt, t') ->
  holdings_ok (holdings t) ->
  supply_ok t -> supply_ok t'.
Proof.
  intros Hm Hh Hok x.
  destruct (burn_supply _ _ _ Hm) as (lastId & Hlast & Hidx & -> & ->).
  apply burn_post in Hm as (Hown & (Ho & _) & _); [|done].
  change (_ownerOf x t') with (h_owner (holdings t') x). rewrite Ho. simpl.
  destruct (Hok _ Hown) as [Hi0 Hil].
  rewrite !sload_sstore. destruct (decide (x = id)) as [->|Hne]; [done|].
  intros Hx. destruct (Hok _ Hx) as [Hx0 Hxl].
  assert (Z.to_nat (sload 0 (_allTokensIndex t) x)
          <> Z.to_nat (sload 0 (_allTokensIndex t) id)) as Hdiff.
  { intros E. rewrite E in Hxl. congruence. }
  destruct (decide (x = lastId)) as [->|Hnl].
  - split; [done|].
    assert (Z.to_nat (sload 0 (_allTokensIndex t) id)
            <> (length (_allTokens t) - 1)%nat) as Hnotlast.
    { intros E. rewrite E in Hil. congruence. }
    rewrite removelast_lookup by (rewrite length_insert; lia).
    apply list_lookup_insert_eq. lia.
  - split; [done|].
    assert (Z.to_nat (sload 0 (_allTokensIndex t) x)
            <> (length (_allTokens t) - 1)%nat) as Hnotlast.
    { intros E. rewrite E in Hxl. congruence. }
    apply lookup_lt_Some in Hxl as Hlt.
    rewrite removelast_lookup by (rewrite length_insert; lia).
    by rewrite list_lookup_insert_ne.
Qed.

Lemma burn_forward id t :
  holdings_ok (holdings t) -> supply_ok t -> _ownerOf id t <> 0 ->
  exists t', _burn id t = Ok (tt, t').
Proof.
  intros [Hb Ht Hi] Hok Hown.
  destruct (Hok _ Hown) as [Hi0 Hil]. apply lookup_lt_Some in Hil as Hlt.
  destruct (_burn id t) as [[[] t']|e] eqn:E; [eauto|]. exfalso.
  revert E.
  unfold _burn, _update, ERC721_update, _removeTokenFromAllTokensEnumeration,
    _removeTokenFromOwnerEnumeration, _approve, balanceOf, array_read, array_write.
  unmonad. simpl. intros E. msimpl.
  all: try lia.
  all: match goal with H : _ !! _ = None |- _ =>
         apply lookup_ge_None in H; lia end.
Qed.

Lemma constructor_supply_ok `{FHEBackend} o e :
  supply_ok (token (constructor o e)).
Proof. intros id. unfold _ownerOf. simpl. by rewrite sload_empty. Qed.

Section Supply.
Context `{B : FHEBackend}.

Lemma exec_supply_ok tx c (s : State) r s' :
  wf s -> sender tx <> 0 -> supply_ok (token s) ->
  exec tx c s = Ok (r, s') -> supply_ok (token s').
Proof.
  intros Hwf Hs Hok Hm. destruct c; simpl in Hm.
  - apply stake_inv in Hm as (_ & _ & _ & _ & t' & Hmint & _ & ->). simpl.
    eapply mint_supply_ok; [done| |done].
    apply (ok_balance _ (wf_holdings _ Hwf)).
  - apply redeem_inv in Hm
      as (_ & _ & _ & _ & _ & t' & rid & f' & Hburn & _ & _ & ->). simpl.
    eapply burn_supply_ok; [done|apply Hwf|done].
  - apply onDecryptionFulfilled_inv in Hm
      as (_ & pending & amount & mid & He & _ & _ & _ & ->).
    by apply fulfill_effects_inv in He as (_ & _ & _ & _ & _ & ->).
  - apply token_call_inv in Hm as (t' & Hm & -> & _).
    by apply approve_post in Hm as (_ & ->).
  - apply token_call_inv in Hm as (t' & Hm & -> & _).
    by apply setApprovalForAll_post in Hm as (_ & ->).
  - apply token_call_inv in Hm as (t' & Hm & -> & _). simpl.
    pose proof (transfer_owner _ _ _ _ _ _ Hwf Hs Hm) as (Hown & _ & Ho).
    apply transfer_supply in Hm as [Hl Hx]; [|done|apply Hwf..].
    intros x. rewrite Ho, Hl, Hx.
    destruct (decide (x = id)) as [->|]; [intros _; by apply Hok|apply Hok].
  - apply token_call_inv in Hm as (t' & Hm & -> & _). simpl.
    apply safeTransferFrom_inv in Hm as (Hm & _).
    pose proof (transfer_owner _ _ _ _ _ _ Hwf Hs Hm) as (Hown & _ & Ho).
    apply transfer_supply in Hm as [Hl Hx]; [|done|apply Hwf..].
    intros x. rewrite Ho, Hl, Hx.
    destruct (decide (x = id)) as [->|]; [intros _; by apply Hok|apply Hok].
Qed.

Lemma reachable_supply_ok (s : State) : reachable s -> supply_ok (token s).
Proof.
  intros (o & e & tr & Htr).
  remember (constructor o e) as s0 eqn:E0.
  induction Htr as [|tr s tx c r s' Htr IH Hs Hm].
  - subst. apply constructor_supply_ok.
  - eapply exec_supply_ok; [|done|by apply IH|done].
    eapply trace_wf; [|done]. subst. apply constructor_wf.
Qed.

(** X20.  A redeem fails only for the reasons it names.  In every reachable
    state, for a certificate that has an owner and an initialized encrypted
    balance, a caller who is the owner, an operator of the owner or the
    address approved for the certificate, and an oracle that takes the
    request, [redeem] succeeds: the inherited burn never fails.  It returns
    the identifier of the request, burns the certificate, clears its
    encrypted balance, and records the owner as recipient. *)
Theorem authorized_redeem_succeeds (s : State) tx id rid f' :
  reachable s ->
  _ownerOf id (token s) <> 0 ->
  _isAuthorized (_ownerOf id (token s)) (sender tx) id (token s) = true ->
  FHE_isInitialized (sload 0 (_encryptedStakes s) id) = true ->
  requestDecryption [sload 0 (_encryptedStakes s) id] (fheStore s)
    = Some (rid, f') ->
  exists r s',
    exec tx (Redeem id) s = Ok (r, s')
    /\ returned r = rid
    /\ logs r = [WithdrawRequested (_ownerOf id (token s)) id rid]
    /\ _ownerOf id (token s') = 0
    /\ getEncryptedStake id s' = Revert StakeNotFound
    /\ sload noPending (_pendingByRequest s') rid
       = {| recipient := _ownerOf id (token s); tokenId := id;
            exists_ := true |}
    /\ ethBalance s' = ethBalance s.
Proof.
  intros Hr Hown Hauth Hinit Hreq. pose proof (reachable_wf _ Hr) as Hwf.
  destruct (burn_forward id (token s)) as [t' Hburn];
    [apply Hwf|by apply reachable_supply_ok|done|].
  assert (exists r s', redeem tx id s = Ok (r, s')) as (r & s' & Hm).
  { unfold redeem, nonReentrant, liftToken, FHE_requestDecryption,
      FHE_toBytes32.
    unmonad. simpl. rewrite (wf_status _ Hwf). simpl.
    rewrite (bool_decide_eq_false_2 (_ownerOf id (token s) = 0)) by done.
    simpl. rewrite Hauth. simpl.
    destruct (sload false (_isTokenPending s) id) eqn:Hp.
    { by apply (wf_pending _ Hwf) in Hp. }
    simpl. rewrite Hinit. simpl. rewrite Hburn. simpl. rewrite Hreq. eauto. }
  exists r, s'. split; [done|].
  pose proof (authorized_sender _ _ _ _ Hauth) as Hs.
  pose proof (exec_owner _ (Redeem id) _ _ _ id Hwf Hs Hm) as Ho.
  pose proof (exec_stakes _ (Redeem id) _ _ _ id Hm) as Hst.
  simpl in Ho, Hst. rewrite decide_True in Ho, Hst by done.
  apply redeem_inv in Hm
    as (_ & _ & _ & _ & _ & t'' & rid' & f'' & _ & Hreq' & -> & Hs').
  rewrite Hreq in Hreq'. simplify_eq. simpl in *.
  split_and!; try done.
  - unfold getEncryptedStake, FHE_isInitialized. simpl. by rewrite Hst.
  - by rewrite sload_sstore, decide_True.
Qed.
End Supply.

(** ** Transfers *)

Section Transfers.
Context `{B : FHEBackend}.

Lemma redeem_not_authorized tx id (s : State) :
  _status s = NOT_ENTERED -> _ownerOf id (token s) <> 0 ->
  _isAuthorized (_ownerOf id (token s)) (sender tx) id (token s) = false ->
  redeem tx id s = Revert Unauthorized.
Proof.
  intros Hst Hown Hauth. unfold redeem, nonReentrant. unmonad. simpl.
  rewrite Hst. simpl. rewrite bool_decide_eq_false_2 by done. simpl.
  by rewrite Hauth.
Qed.

Lemma transfer_inv tx c from to id (s : State) r s' :
  c = TransferFrom from to id \/ c = SafeTransferFrom from to id ->
  exec tx c s = Ok (r, s') ->
  exists t', transferFrom tx from to id (token s) = Ok (tt, t')
             /\ s' = set_token (fun _ => t') s.
Proof.
  intros [-> | ->] Hm; simpl in Hm;
    apply token_call_inv in Hm as (t' & Hm & -> & _).
  - eauto.
  - apply safeTransferFrom_inv in Hm as (Hm & _). eauto.
Qed.

(** X21.  The claim travels with the certificate.  After a successful
    transfer the certificate belongs to the receiver with the same encrypted
    balance; the approval given for it is cleared; the former owner, unless
    an operator of the new one, can no longer redeem it; and whoever redeems
    it from now on, the recipient recorded is the new owner. *)
Theorem transfer_moves_the_claim (s : State) tx c from to id r s' :
  reachable s -> sender tx <> 0 ->
  c = TransferFrom from to id \/ c = SafeTransferFrom from to id ->
  exec tx c s = Ok (r, s') ->
  _ownerOf id (token s) = from
  /\ to <> 0
  /\ _ownerOf id (token s') = to
  /\ getEncryptedStake id s' = getEncryptedStake id s
  /\ ethBalance s' = ethBalance s
  /\ _getApproved id (token s') = 0
  /\ (forall tx', sender tx' = from -> from <> to ->
        isApprovedForAll to from (token s) = false ->
        call tx' (Redeem id) s' = (s', Reverted Unauthorized))
  /\ (forall tx' r' s'',
        exec tx' (Redeem id) s' = Ok (r', s'') ->
        logs r' = [WithdrawRequested to id (returned r')]
        /\ recipient (sload noPending (_pendingByRequest s'') (returned r'))
           = to).
Proof.
  intros Hr Hs Hc Hm. pose proof (reachable_wf _ Hr) as Hwf.
  assert (wf s') as Hwf' by (by eapply exec_wf).
  destruct (transfer_inv _ _ _ _ _ _ _ _ Hc Hm) as (t' & Ht & ->).
  pose proof (transfer_owner _ _ _ _ _ _ Hwf Hs Ht) as (Hlive & Hto & Ho).
  apply transfer_post in Ht
    as (Hfrom & Hfrom0 & _ & _ & _ & Hta & Hoa); [|done|apply Hwf..].
  assert (_ownerOf id t' = to) as Hown'.
  { rewrite Ho. by rewrite decide_True. }
  assert (_getApproved id t' = 0) as Hap'.
  { unfold _getApproved. rewrite Hta, sload_sstore. by rewrite decide_True. }
  split_and!; try done.
  - intros tx' Hs' Hne Hop. apply call_reverted. simpl.
    apply redeem_not_authorized; simpl; [apply Hwf|by rewrite Hown'|].
    rewrite Hown'. unfold _isAuthorized, isApprovedForAll.
    rewrite Hoa. fold (isApprovedForAll to (sender tx') (token s)).
    rewrite Hs', Hop, Hap'.
    rewrite (bool_decide_eq_false_2 (to = from)) by congruence.
    rewrite (bool_decide_eq_false_2 (0 = from)) by congruence.
    by rewrite andb_false_r.
  - intros tx' r' s'' Hm'.
    pose proof (exec_record _ _ _ _ _ (returned r') Hm') as Hrec.
    simpl in Hrec. rewrite decide_True in Hrec by done.
    simpl in Hm'. apply redeem_inv in Hm'
      as (_ & _ & _ & _ & _ & t'' & rid & f' & _ & _ & -> & _).
    simpl in *. rewrite Hrec. simpl. by rewrite Hown'.
Qed.
End Transfers.

(** ** Frame *)

Section Frame.
Context `{B : FHEBackend}.

Lemma exec_approved tx c (s : State) r s' x :
  wf s -> sender tx <> 0 -> exec tx c s = Ok (r, s') ->
  _getApproved x (token s') =
    match c with
    | Approve to id => if decide (x = id) then to else _getApproved x (token s)
    | Redeem id | TransferFrom _ _ id | SafeTransferFrom _ _ id =>
        if decide (x = id) then 0 else _getApproved x (token s)
    | _ => _getApproved x (token s)
    end.
Proof.
  intros Hwf Hs Hm. unfold _getApproved. destruct c; simpl in Hm.
  - apply stake_inv in Hm as (_ & _ & _ & _ & t' & Hmint & _ & ->).
    apply mint_post in Hmint as (_ & _ & _ & _ & Hta & _);
      [|apply (ok_balance _ (wf_holdings _ Hwf))].
    simpl. by rewrite Hta.
  - apply redeem_inv in Hm
      as (_ & _ & _ & _ & _ & t' & rid & f' & Hburn & _ & _ & ->).
    apply burn_post in Hburn as (_ & _ & Hta & _); [|apply Hwf].
    simpl. rewrite Hta. apply sload_sstore.
  - apply onDecryptionFulfilled_inv in Hm
      as (_ & pending & amount & mid & He & _ & _ & _ & ->).
    by apply fulfill_effects_inv in He as (_ & _ & _ & _ & _ & ->).
  - apply token_call_inv in Hm as (t' & Hm & -> & _).
    apply approve_post in Hm as (_ & ->). simpl. apply sload_sstore.
  - apply token_call_inv in Hm as (t' & Hm & -> & _).
    by apply setApprovalForAll_post in Hm as (_ & ->).
  - apply token_call_inv in Hm as (t' & Hm & -> & _).
    apply transfer_post in Hm as (_ & _ & _ & _ & _ & Hta & _);
      [|done|apply Hwf..].
    simpl. rewrite Hta. apply sload_sstore.
  - apply token_call_inv in Hm as (t' & Hm & -> & _).
    apply safeTransferFrom_inv in Hm as (Hm & _).
    apply transfer_post in Hm as (_ & _ & _ & _ & _ & Hta & _);
      [|done|apply Hwf..].
    simpl. rewrite Hta. apply sload_sstore.
Qed.

(** X22.  A call touches one certificate.  Whatever a successful call does,
    every certificate other than its own (the one a stake mints, a redeem
    burns, a fulfillment settles, a transfer moves or an approval names)
    keeps its owner, its approved address, its encrypted balance and its
    pending state. *)
Theorem calls_touch_one_certificate (s : State) tx c r s' x :
  reachable s -> sender tx <> 0 ->
  exec tx c s = Ok (r, s') ->
  subject c s <> Some x ->
  _ownerOf x (token s') = _ownerOf x (token s)
  /\ _getApproved x (token s') = _getApproved x (token s)
  /\ sload 0 (_encryptedStakes s') x = sload 0 (_encryptedStakes s) x
  /\ isTokenPending x s' = isTokenPending x s
  /\ pendingRequestForToken x s' = pendingRequestForToken x s.
Proof.
  intros Hr Hs Hm Hx. pose proof (reachable_wf _ Hr) as Hwf.
  unfold isTokenPending, pendingRequestForToken.
  rewrite (exec_owner _ _ _ _ _ _ Hwf Hs Hm), (exec_stakes _ _ _ _ _ _ Hm),
    (exec_approved _ _ _ _ _ _ Hwf Hs Hm),
    !(exec_flag _ _ _ _ _ _ Hm), (exec_request _ _ _ _ _ _ Hm).
  destruct c; simpl in *; try done;
    rewrite ?decide_False by congruence; done.
Qed.
End Frame.

Section Gone.
Context `{B : FHEBackend}.

(** X23.  A redeemed certificate never comes back.  In every state after a
    successful [redeem] the certificate has no owner and is in nobody's list,
    and every transfer of it and every approval for it reverts, leaving the
    storage as it is. *)
Theorem redeemed_certificate_is_gone (s : State) tx id r s1 tr s2 :
  reachable s ->
  exec tx (Redeem id) s = Ok (r, s1) ->
  trace_from s1 tr s2 ->
  _ownerOf id (token s2) = 0
  /\ (forall a ids, tokensOf a s2 = Ok ids -> id ∉ ids)
  /\ (forall tx' c,
        sender tx' <> 0 ->
        (exists from to,
           c = TransferFrom from to id \/ c = SafeTransferFrom from to id)
        \/ (exists to, c = Approve to id) ->
        exists e, call tx' c s2 = (s2, Reverted e)).
Proof.
  intros Hr Hm Htr. pose proof (reachable_wf _ Hr) as Hwf.
  pose proof (redeem_sender _ _ _ _ _ Hm) as Hs.
  pose proof (exec_wf _ _ _ _ _ Hwf Hs Hm) as Hwf1.
  pose proof (trace_wf _ _ _ Hwf1 Htr) as Hwf2.
  pose proof (redeem_burned _ _ _ _ _ Hwf Hm) as Hb.
  apply (trace_burned _ _ _ _ Hwf1 Htr) in Hb as (Hown & _).
  split_and!; [done| |].
  - intros a ids Hl Hin. apply (tokensOf_owned _ _ _ _ Hwf2 Hl) in Hin.
    apply tokensOf_account in Hl. congruence.
  - intros tx' c Hs' Hc. unfold call.
    destruct (exec tx' c s2) as [[r' s']|e] eqn:Hm'; [exfalso|eauto].
    destruct Hc as [(from & to & [-> | ->])|(to & ->)].
    + by apply (exec_moves_live _ _ _ _ _ Hwf2 Hs') in Hm'.
    + by apply (exec_moves_live _ _ _ _ _ Hwf2 Hs') in Hm'.
    + simpl in Hm'. apply token_call_inv in Hm' as (t' & Hm' & _).
      by apply approve_post in Hm' as (? & _).
Qed.
End Gone.

(** * The theorems at work on the mock backend *)

(** The mock backend issues each request identifier once. *)
#[global] Instance mockLaws : FHELaws mockFHE.
Proof.
  refine {| issued := fun (f : @fhe mockFHE) r => r < counterRequest f |};
    simpl; intros; simplify_eq; simpl in *; lia.
Defined.

Lemma run_reachable `{B : FHEBackend} (txs : list (Tx * Call)) (s : State) :
  Forall (fun p => sender p.1 <> 0) txs -> reachable s -> reachable (run txs s).
Proof.
  intros Hall. revert s. induction Hall as [|[tx c] txs Hs _ IH]; intros s Hr.
  - done.
  - simpl. apply IH. unfold call.
    destruct (exec tx c s) as [[r s']|e] eqn:E; [|done]. simpl.
    eapply trace_reachable; [done|]. by apply trace_step.
Qed.

Lemma genesis_reachable : reachable genesis.
Proof. exists 0, false, []. constructor. Qed.

Ltac senders := repeat constructor; simpl; by vm_compute.

Ltac scenario := apply run_reachable; [senders | apply genesis_reachable].

Lemma one_staked_reachable : reachable one_staked.
Proof. scenario. Qed.

Lemma one_pending_reachable : reachable one_pending.
Proof. scenario. Qed.

Lemma one_paid_reachable : reachable one_paid.
Proof. scenario. Qed.

Lemma two_staked_reachable : reachable two_staked.
Proof. scenario. Qed.

Lemma approved_staked_reachable : reachable approved_staked.
Proof. scenario. Qed.

Lemma three_staked_reachable : reachable three_staked.
Proof. scenario. Qed.

(** C5 at work. *)
Lemma stake_zero_rejected_witness :
  reachable genesis
  /\ call (from_ alice) (Stake 0) genesis = (genesis, Reverted ZeroAmount).
Proof.
  split; [apply genesis_reachable|].
  apply (stake_zero_rejected genesis (from_ alice)). apply genesis_reachable.
Defined.

(** C6 at work: Bob cannot redeem the certificate of Alice. *)
Lemma redeem_unauthorized_witness :
  reachable one_staked
  /\ _ownerOf 1 (token one_staked) = alice
  /\ call (from_ bob) (Redeem 1) one_staked = (one_staked, Reverted Unauthorized).
Proof.
  split; [apply one_staked_reachable|]. split; [by vm_compute|].
  apply (redeem_unauthorized one_staked (from_ bob) 1).
  - apply one_staked_reachable.
  - by vm_compute.
  - by vm_compute.
  - by vm_compute.
  - by vm_compute.
Defined.

(** C1 at work: the request of Alice is paid once, the replay is unknown. *)
Lemma fulfill_at_most_once_witness :
  reachable one_pending
  /\ exec (from_ bob) (Fulfill 0 cleartext5 good_proof) one_pending
     = Ok (paid5, one_paid)
  /\ call (from_ bob) (Fulfill 0 cleartext5 good_proof) one_paid
     = (one_paid, Reverted UnknownRequest).
Proof.
  assert (exec (from_ bob) (Fulfill 0 cleartext5 good_proof) one_pending
          = Ok (paid5, one_paid)) as Hpaid by (vm_compute; reflexivity).
  split; [apply one_pending_reachable|]. split; [exact Hpaid|].
  destruct (fulfill_at_most_once one_pending (from_ bob) 0 cleartext5
              good_proof paid5 one_paid one_pending_reachable Hpaid)
    as (_ & Hagain & _).
  apply Hagain.
Defined.

(** C2: a forged proof replayed on a request that was already fulfilled is
    answered [UnknownRequest], not [InvalidProof]. *)
Lemma forged_replay_counterexample :
  reachable one_paid
  /\ checkSignatures 0 cleartext5 forged_proof (fheStore one_paid) = false
  /\ call (from_ bob) (Fulfill 0 cleartext5 forged_proof) one_paid
     = (one_paid, Reverted UnknownRequest)
  /\ UnknownRequest <> InvalidProof.
Proof.
  split; [apply one_paid_reachable|].
  split; [by vm_compute|]. split; [by vm_compute|]. done.
Qed.

(** C2, amended, at work: the forged proof on the pending request. *)
Lemma fulfill_bad_proof_witness :
  reachable one_pending
  /\ checkSignatures 0 cleartext5 forged_proof (fheStore one_pending) = false
  /\ call (from_ bob) (Fulfill 0 cleartext5 forged_proof) one_pending
     = (one_pending,
        Reverted (verifier_error 0 cleartext5 forged_proof
                    (fheStore one_pending))).
Proof.
  assert (checkSignatures 0 cleartext5 forged_proof (fheStore one_pending)
          = false) as Hforged by (by vm_compute).
  split; [apply one_pending_reachable|]. split; [exact Hforged|].
  destruct (fulfill_bad_proof one_pending (from_ bob) 0 cleartext5 forged_proof
              one_pending_reachable Hforged) as (e & Hcall & _ & _ & Hproof).
  rewrite Hcall. f_equal. f_equal. apply Hproof.
  - left. by vm_compute.
  - by vm_compute.
Defined.

(** C3: after a failed transfer the record is still there and the same
    callback, retried, pays Alice. *)
Lemma transfer_failure_counterexample :
  let failed := call (rejecting bob) (Fulfill 0 cleartext5 good_proof) one_pending in
  failed.2 = Reverted TransferFailed
  /\ exists_ (sload noPending (_pendingByRequest failed.1) 0) = true
  /\ call (from_ bob) (Fulfill 0 cleartext5 good_proof) failed.1
     = (one_paid, Success paid5).
Proof. split_and!; by vm_compute. Qed.

(** C3, amended, at work. *)
Lemma transfer_failure_rolls_back_witness :
  reachable one_pending
  /\ call (rejecting bob) (Fulfill 0 cleartext5 good_proof) one_pending
     = (one_pending, Reverted TransferFailed).
Proof.
  split; [apply one_pending_reachable|].
  assert (exists x, fulfill_effects (rejecting bob) 0 cleartext5 good_proof
                      (set_status (fun _ => ENTERED) one_pending) = Ok x)
    as [[[pending amount] mid] Heff] by (eexists; vm_compute; reflexivity).
  destruct (transfer_failure_rolls_back one_pending (rejecting bob) 0
              cleartext5 good_proof pending amount mid
              one_pending_reachable Heff (or_intror eq_refl)) as (Hcall & _).
  exact Hcall.
Defined.

(** C4: once request 0 is fulfilled the pending flag of certificate 1 is
    cleared, and a second redeem is still rejected; before that, with the flag
    set, the rejection is [InvalidCertificate] too: the check that rejects is
    the ownership check, in neither state the pending-flag check. *)
Lemma pending_flag_counterexample :
  isTokenPending 1 one_paid = false
  /\ call (from_ alice) (Redeem 1) one_paid
     = (one_paid, Reverted InvalidCertificate)
  /\ isTokenPending 1 one_pending = true
  /\ call (from_ alice) (Redeem 1) one_pending
     = (one_pending, Reverted InvalidCertificate)
  /\ InvalidCertificate <> RedemptionAlreadyPending.
Proof. split_and!; by vm_compute. Qed.

(** C4, amended, at work: after the redeem of Alice and its fulfillment. *)
Lemma redeem_succeeds_once_witness :
  reachable one_staked
  /\ getEncryptedStake 1 one_paid = Revert StakeNotFound
  /\ call (from_ bob) (Redeem 1) one_paid
     = (one_paid, Reverted InvalidCertificate).
Proof.
  split; [apply one_staked_reachable|].
  assert (exists r, exec (from_ alice) (Redeem 1) one_staked = Ok (r, one_pending))
    as [r Hredeem] by (eexists; vm_compute; reflexivity).
  assert (trace_from one_pending
            [(from_ bob, Fulfill 0 cleartext5 good_proof, paid5)] one_paid)
    as Htr.
  { apply trace_step; [by vm_compute|]. vm_compute. reflexivity. }
  destruct (redeem_succeeds_once one_staked (from_ alice) 1 r one_pending
              one_staked_reachable Hredeem _ _ Htr) as (Hstake & Hredeem' & _).
  split; [exact Hstake|]. apply Hredeem'.
Defined.

(** C7: a contract that does not accept the certificate cannot stake. *)
Lemma stake_rejected_counterexample :
  0 < 5
  /\ call (rejecting alice) (Stake 5) genesis
     = (genesis, Reverted (CustomError "ERC721InvalidReceiver")).
Proof. split; by vm_compute. Qed.

(** C7, amended, at work: the stake after certificate 1 was burned gets id 2. *)
Lemma stake_mints_fresh_witness :
  trace_from (constructor 0 false) (history one_paid_script genesis) one_paid
  /\ exists r s',
      exec (from_ bob) (Stake 7) one_paid = Ok (r, s')
      /\ returned r = 2
      /\ _ownerOf 2 (token s') = bob
      /\ getEncryptedStake 2 s' = Ok (asEuint256 7).
Proof.
  assert (trace_from (constructor 0 false) (history one_paid_script genesis)
            one_paid) as Htr by (apply history_trace; senders).
  split; [exact Htr|].
  destruct (stake_mints_fresh one_paid 0 false _ (from_ bob) 7 Htr)
    as (r & s' & Hm & Hid & _ & _ & _ & Hown & _ & Hget);
    [lia|by vm_compute|reflexivity|by vm_compute|].
  exists r, s'. rewrite Hid in Hown, Hget.
  change (_nextTokenId one_paid) with 2 in *.
  split_and!; [exact Hm|exact Hid|exact Hown|].
  apply Hget. by vm_compute.
Defined.

(** C8 at work: the oracle answers the request of Bob before that of
    Alice; each is paid its own amount, out of the balance of the contract. *)
Lemma callbacks_never_swap_witness :
  reachable two_staked
  /\ exec (from_ carol) (Fulfill 1 cleartext7 good_proof) two_pending
     = Ok (paid7, bob_paid)
  /\ exec (from_ carol) (Fulfill 0 cleartext5 good_proof) bob_paid
     = Ok (paid5, both_paid)
  /\ ethBalance bob_paid = ethBalance two_pending - 7
  /\ ethBalance both_paid = ethBalance bob_paid - 5
  /\ exists sa',
      exec (from_ carol) (Fulfill 0 cleartext5 good_proof) two_pending
        = Ok (paid5, sa')
      /\ exec (from_ carol) (Fulfill 1 cleartext7 good_proof) sa'
        = Ok (paid7, both_paid).
Proof.
  split; [apply two_staked_reachable|].
  assert (exists r1, exec (from_ alice) (Redeem 1) two_staked
                     = Ok (r1, alice_pending) /\ returned r1 = 0)
    as (r1 & Hm1 & Hr1) by (eexists; split; vm_compute; reflexivity).
  assert (exists r2, exec (from_ bob) (Redeem 2) alice_pending
                     = Ok (r2, two_pending) /\ returned r2 = 1)
    as (r2 & Hm2 & Hr2) by (eexists; split; vm_compute; reflexivity).
  assert (exec (from_ carol) (Fulfill 1 cleartext7 good_proof) two_pending
          = Ok (paid7, bob_paid)) as Hb by (vm_compute; reflexivity).
  assert (exec (from_ carol) (Fulfill 0 cleartext5 good_proof) bob_paid
          = Ok (paid5, both_paid)) as Ha by (vm_compute; reflexivity).
  assert (forall tx c p r,
            (tx, Fulfill (returned r1) c p, r)
              ∉ ([] : list (Tx * Call * Receipt))) as Hnone.
  { intros tx c p r Hin. by apply elem_of_nil in Hin. }
  destruct (callbacks_never_swap two_staked (from_ alice) 1 r1 alice_pending
              [] alice_pending (from_ bob) 2 r2 two_pending
              two_staked_reachable Hm1 (trace_nil _) Hnone Hm2)
    as (_ & _ & _ & _ & _ & _ & Horder & _).
  rewrite Hr1, Hr2 in Horder.
  destruct (Horder _ _ _ _ _ _ _ _ _ _ Hb Ha)
    as [(amtA & amtB & HdA & HdB & _ & _ & _ & _ & HbB & HbA) Hcomm].
  assert (amtA = 5) as -> by (revert HdA; vm_compute; by intros [= <-]).
  assert (amtB = 7) as -> by (revert HdB; vm_compute; by intros [= <-]).
  split_and!; [exact Hb|exact Ha|exact HbB|exact HbA|exact Hcomm].
Defined.

(** C9: Alice holds certificates 1, 2 and 3 and redeems the first: the list
    is 3, 2, while she acquired 2 before 3. *)
Lemma insertion_order_counterexample :
  trace_from genesis (history first_redeemed_script genesis) first_redeemed
  /\ tokensOf alice first_redeemed = Ok [3; 2]
  /\ insertion_order (history first_redeemed_script genesis) alice = [2; 3].
Proof.
  split; [apply history_trace; senders|]. split; by vm_compute.
Qed.

(** C9, amended, at work on the same holdings. *)
Lemma tokensOf_lists_holdings_witness :
  trace_from (constructor 0 false) (history three_staked_script genesis)
    three_staked
  /\ exists ids,
      tokensOf alice three_staked = Ok ids
      /\ ids ≡ₚ [1; 2; 3]
      /\ tokensOf alice first_redeemed = Ok (swap_pop 1 ids).
Proof.
  assert (trace_from (constructor 0 false) (history three_staked_script genesis)
            three_staked) as Htr by (apply history_trace; senders).
  split; [exact Htr|].
  destruct (tokensOf_lists_holdings three_staked 0 false _ alice Htr)
    as (ids & Hids & _ & _ & Hperm & Hafter); [by vm_compute|].
  exists ids. split_and!; [exact Hids|exact Hperm|].
  assert (exists r, exec (from_ alice) (Redeem 1) three_staked
                    = Ok (r, first_redeemed))
    as [r Hm] by (eexists; vm_compute; reflexivity).
  rewrite (Hafter (from_ alice) (Redeem 1) r first_redeemed);
    [|by vm_compute|exact Hm].
  unfold list_after. rewrite decide_True by (by vm_compute). reflexivity.
Defined.

(** C10 at work: Bob, approved by Alice, redeems her certificate; the record
    names Alice, and the fulfillment pays Alice out of the balance of the
    contract. *)
Lemma beneficiary_is_owner_witness :
  reachable approved_staked
  /\ exists r s1,
      exec (from_ bob) (Redeem 1) approved_staked = Ok (r, s1)
      /\ recipient (sload noPending (_pendingByRequest s1) (returned r)) = alice
      /\ forall s2 r',
          exec (from_ carol) (Fulfill (returned r) cleartext5 good_proof) s1
            = Ok (r', s2) ->
          payout r' = Some (alice, 5)
          /\ ethBalance s2 = ethBalance s1 - 5.
Proof.
  split; [apply approved_staked_reachable|].
  assert (exists r s1, exec (from_ bob) (Redeem 1) approved_staked = Ok (r, s1))
    as (r & s1 & Hm) by (do 2 eexists; vm_compute; reflexivity).
  destruct (beneficiary_is_owner approved_staked (from_ bob) 1 r s1
              approved_staked_reachable Hm) as (Hrec & _ & _ & Hpay).
  exists r, s1. split_and!; [exact Hm|by rewrite Hrec|].
  intros s2 r' Hf.
  destruct (Hpay [] s1 (from_ carol) cleartext5 good_proof r' s2
              (trace_nil _) Hf)
    as (amount & Hdec & _ & Hp & _ & Hbal).
  assert (amount = 5) as -> by (revert Hdec; vm_compute; by intros [= <-]).
  split; [exact Hp|exact Hbal].
Defined.

(** ** Further properties at work *)

(** The mock oracle signs only true values. *)
#[global] Instance mockSound : FHESound mockFHE.
Proof.
  refine {| requested := fun (f : @fhe mockFHE) r hs =>
              r < counterRequest f /\ requestedHandles f !! r = Some hs |}.
  - simpl. intros hs f r f' [= <- <-]. simpl. split; [lia|].
    by rewrite lookup_insert_eq.
  - simpl. intros hs f r f' x hs' [= <- <-] [Hlt Hl]. simpl. split; [lia|].
    rewrite lookup_insert_ne; [done|lia].
  - simpl. intros h f x hs [Hlt Hl]. done.
  - simpl. intros h a f x hs [Hlt Hl]. done.
  - simpl. intros f r v cleartexts proof [Hlt Hl]. rewrite Hl. simpl.
    destruct proof as [|b [|b' l]]; [done| |]; destruct b; simpl; try done.
    intros Hv%bool_decide_eq_true. rewrite Hv. f_equal. lia.
Defined.

Lemma one_paid_history :
  trace_from (constructor 0 false) (history one_paid_script genesis) one_paid.
Proof. apply history_trace; senders. Qed.

Lemma one_pending_history :
  trace_from (constructor 0 false) (history one_pending_script genesis)
    one_pending.
Proof. apply history_trace; senders. Qed.

Lemma one_staked_history :
  trace_from (constructor 0 false) (history one_staked_script genesis)
    one_staked.
Proof. apply history_trace; senders. Qed.

Lemma three_staked_history :
  trace_from (constructor 0 false) (history three_staked_script genesis)
    three_staked.
Proof. apply history_trace; senders. Qed.

Lemma strict_paid_history :
  trace_from (constructor carol true)
    (history strict_paid_script strict_genesis) strict_paid.
Proof. apply history_trace; senders. Qed.

Lemma one_paid_step :
  exec (from_ bob) (Fulfill 0 cleartext5 good_proof) one_pending
  = Ok (paid5, one_paid).
Proof. vm_compute. reflexivity. Qed.

(** X1 at work: the default deployment takes the Sepolia oracle. *)
Lemma oracle_fixed_at_deployment_witness :
  trace_from (constructor 0 false) (history one_paid_script genesis) one_paid
  /\ decryptionOracle one_paid = SepoliaZamaOracleAddress
  /\ enforceOracleCheck one_paid = false.
Proof.
  split; [exact one_paid_history|].
  destruct (oracle_fixed_at_deployment 0 false _ one_paid one_paid_history)
    as (Ho & He & _).
  split; [exact Ho|exact He].
Defined.

(** X2 at work: under the strict check Bob cannot deliver what Carol can. *)
Lemma only_oracle_fulfills_witness :
  trace_from (constructor carol true)
    (history strict_paid_script strict_genesis) strict_paid
  /\ call (from_ bob) (Fulfill 0 cleartext5 good_proof) strict_paid
     = (strict_paid, Reverted InvalidOracle).
Proof.
  split; [exact strict_paid_history|].
  destruct (only_oracle_fulfills carol _ strict_paid strict_paid_history)
    as (_ & Hrej).
  apply Hrej. by vm_compute.
Defined.

(** X3 at work: a deployment to Sepolia. *)
Lemma deployment_gate_witness :
  trace_from (deploy "sepolia" (Some alice)) [] (deploy "sepolia" (Some alice))
  /\ enforceOracleCheck (deploy "sepolia" (Some alice)) = true
  /\ decryptionOracle (deploy "sepolia" (Some alice)) = sepoliaOracle.
Proof.
  split; [constructor|].
  pose proof (deployment_gate "sepolia" (Some alice) []
                (deploy "sepolia" (Some alice)) (trace_nil _)) as H.
  change (is_local "sepolia") with false in H.
  destruct H as (He & Ho & _). split; [exact He|exact Ho].
Defined.

(** X4 at work: certificate 7 was never handed out. *)
Lemma unissued_id_rejected_witness :
  reachable one_staked
  /\ ~ (1 <= 7 < _nextTokenId one_staked)
  /\ getEncryptedStake 7 one_staked = Revert StakeNotFound
  /\ call (from_ alice) (Redeem 7) one_staked
     = (one_staked, Reverted InvalidCertificate).
Proof.
  assert (~ (1 <= 7 < _nextTokenId one_staked)) as Hid.
  { change (_nextTokenId one_staked) with 2. lia. }
  split; [apply one_staked_reachable|]. split; [exact Hid|].
  destruct (unissued_id_rejected one_staked 7 one_staked_reachable Hid)
    as (Hget & Hred & _).
  split; [exact Hget|apply Hred].
Defined.

(** X5 at work: certificate 1 under redemption. *)
Lemma pending_views_match_records_witness :
  reachable one_pending
  /\ (isTokenPending 1 one_pending = true <->
        exists rid,
          exists_ (sload noPending (_pendingByRequest one_pending) rid) = true
          /\ tokenId (sload noPending (_pendingByRequest one_pending) rid) = 1).
Proof.
  split; [apply one_pending_reachable|].
  destruct (pending_views_match_records one_pending 1 one_pending_reachable)
    as (Hiff & _).
  exact Hiff.
Defined.

(** X6 at work: the one payout of the history goes to Alice. *)
Lemma payouts_only_by_fulfillment_witness :
  trace_from (constructor 0 false) (history one_paid_script genesis) one_paid
  /\ (from_ bob, Fulfill 0 cleartext5 good_proof, paid5)
       ∈ history one_paid_script genesis
  /\ payout paid5 = Some (alice, 5)
  /\ alice <> 0 /\ 0 <= 5.
Proof.
  assert ((from_ bob, Fulfill 0 cleartext5 good_proof, paid5)
            ∈ history one_paid_script genesis) as Hin.
  { vm_compute. do 2 apply list_elem_of_further. apply list_elem_of_here. }
  split; [exact one_paid_history|]. split; [exact Hin|].
  split; [reflexivity|].
  destruct (payouts_only_by_fulfillment 0 false _ one_paid one_paid_history
              _ _ _ alice 5 Hin eq_refl) as (Ha & Hamt & _).
  split; [exact Ha|exact Hamt].
Defined.

(** X7 at work: the redemption of certificate 1, from request to payment. *)
Lemma pending_lifecycle_witness :
  reachable one_staked
  /\ isTokenPending 1 one_pending = true
  /\ isTokenPending 1 one_paid = false
  /\ pendingRequestForToken 1 one_paid = 0.
Proof.
  split; [apply one_staked_reachable|].
  assert (exists r, exec (from_ alice) (Redeem 1) one_staked
                    = Ok (r, one_pending) /\ returned r = 0)
    as (r & Hm & Hr) by (eexists; split; vm_compute; reflexivity).
  assert (trace_from one_pending
            [(from_ bob, Fulfill 0 cleartext5 good_proof, paid5)] one_paid)
    as Htr.
  { apply trace_step; [by vm_compute|exact one_paid_step]. }
  destruct (pending_lifecycle one_staked (from_ alice) 1 r one_pending _
              one_paid one_staked_reachable Hm Htr) as ((Hfl & _) & _ & Hdone).
  split; [exact Hfl|]. apply Hdone.
  exists (from_ bob), cleartext5, good_proof, paid5. rewrite Hr.
  apply list_elem_of_singleton. reflexivity.
Defined.

(** X8 at work: certificate 1 of Alice. *)
Lemma live_certificate_balance_witness :
  trace_from (constructor 0 false) (history one_staked_script genesis)
    one_staked
  /\ _ownerOf 1 (token one_staked) <> 0
  /\ exists v, 0 < v /\ getEncryptedStake 1 one_staked = Ok (asEuint256 v).
Proof.
  assert (_ownerOf 1 (token one_staked) <> 0) as Hown by (by vm_compute).
  split; [exact one_staked_history|]. split; [exact Hown|].
  destruct (live_certificate_balance 0 false _ one_staked 1
              one_staked_history Hown)
    as (tx & v & r & Hin & _ & Hv & Hst & Hget).
  exists v. split; [exact Hv|]. apply Hget.
  unfold FHE_isInitialized. rewrite bool_decide_eq_false_2; [done|].
  simpl. lia.
Defined.

(** X9 at work: the three certificates of Alice. *)
Lemma listed_certificates_are_live_witness :
  (forall v, 0 < v -> asEuint256 v <> 0)
  /\ reachable three_staked
  /\ tokensOf alice three_staked = Ok [1; 2; 3]
  /\ isTokenPending 2 three_staked = false
  /\ exists h, getEncryptedStake 2 three_staked = Ok h /\ h <> 0.
Proof.
  assert (forall v, 0 < v -> asEuint256 v <> 0) as Hnn.
  { intros v Hv. simpl. lia. }
  assert (tokensOf alice three_staked = Ok [1; 2; 3]) as Hm
    by (vm_compute; reflexivity).
  split; [exact Hnn|]. split; [apply three_staked_reachable|].
  split; [exact Hm|].
  destruct (listed_certificates_are_live three_staked alice [1; 2; 3] Hnn
              three_staked_reachable Hm 2) as (_ & Hfl & _ & Hget).
  { apply list_elem_of_further, list_elem_of_here. }
  split; [exact Hfl|exact Hget].
Defined.

(** X10 at work: 5 came in and 5 went out. *)
Lemma ether_conserved_witness :
  trace_from (constructor 0 false) (history one_paid_script genesis) one_paid
  /\ ethBalance one_paid
     = deposited (history one_paid_script genesis)
       - paid_out (history one_paid_script genesis)
  /\ 0 <= ethBalance one_paid.
Proof.
  split; [exact one_paid_history|].
  destruct (ether_conserved 0 false _ one_paid one_paid_history)
    as (He & H0 & _).
  split; [exact He|exact H0].
Defined.

(** X11 at work: three stakes, certificates 1, 2 and 3. *)
Lemma ids_are_consecutive_witness :
  trace_from (constructor 0 false) (history three_staked_script genesis)
    three_staked
  /\ minted_ids (history three_staked_script genesis)
     = seqZ 1 (_nextTokenId three_staked - 1).
Proof.
  split; [exact three_staked_history|].
  destruct (ids_are_consecutive 0 false _ three_staked three_staked_history)
    as (Hids & _).
  exact Hids.
Defined.


(** X13 at work: the empty cleartext. *)
Lemma short_cleartext_rejected_witness :
  (length ([] : list Byte.byte) < 32)%nat
  /\ exists e, call (from_ bob) (Fulfill 0 [] good_proof) one_pending
               = (one_pending, Reverted e).
Proof.
  assert (length ([] : list Byte.byte) < 32)%nat as Hlen by (simpl; lia).
  split; [exact Hlen|].
  exact (short_cleartext_rejected one_pending (from_ bob) 0 [] good_proof Hlen).
Defined.

(** X14 at work: the payout of request 0 is the word of its cleartext. *)
Lemma payout_is_decoded_word_witness :
  exec (from_ bob) (Fulfill 0 cleartext5 good_proof) one_pending
  = Ok (paid5, one_paid)
  /\ payout paid5
     = Some (recipient (sload noPending (_pendingByRequest one_pending) 0),
             be_uint (take 32 cleartext5)).
Proof.
  split; [exact one_paid_step|].
  destruct (payout_is_decoded_word one_pending (from_ bob) 0 cleartext5
              good_proof paid5 one_paid one_paid_step) as (_ & _ & Hp & _).
  exact Hp.
Defined.

(** X15 at work. *)
Lemma abi_round_trip_witness :
  0 <= 5 <= MAX_UINT256
  /\ abi_decode_uint256 (abi_encode_uint256 5 ++ [x01]) = Some 5.
Proof.
  assert (0 <= 5 <= MAX_UINT256) as Hv by (by vm_compute).
  split; [exact Hv|].
  destruct (abi_round_trip 5 [x01] Hv) as (_ & Hdec). exact Hdec.
Defined.

(** X16 at work: with certificate 1 under redemption the contract holds the
    5 it owes for it. *)
Lemma balance_is_principal_owed_witness :
  trace_from (constructor 0 false) (history one_pending_script genesis)
    one_pending
  /\ ethBalance one_pending = total (owed (history one_pending_script genesis))
  /\ is_Some (owed (history one_pending_script genesis) !! 1).
Proof.
  split; [exact one_pending_history|].
  destruct (balance_is_principal_owed 0 false _ one_pending
              one_pending_history) as (Hbal & Hiff & _).
  split; [exact Hbal|]. apply Hiff. right. by vm_compute.
Defined.

(** X17 at work: the verified callback for request 0 goes through. *)
Lemma verified_callback_is_paid_witness :
  trace_from (constructor 0 false) (history one_pending_script genesis)
    one_pending
  /\ checkSignatures 0 cleartext5 good_proof (fheStore one_pending) = true
  /\ exists r s',
      exec (from_ bob) (Fulfill 0 cleartext5 good_proof) one_pending
      = Ok (r, s').
Proof.
  assert (checkSignatures 0 cleartext5 good_proof (fheStore one_pending)
          = true) as Hsig by (by vm_compute).
  split; [exact one_pending_history|]. split; [exact Hsig|].
  destruct (verified_callback_is_paid 0 false _ one_pending (from_ bob) 0
              cleartext5 good_proof one_pending_history)
    as (r & s' & v & Hm & _); [left; by vm_compute|by vm_compute|exact Hsig|
                                reflexivity|].
  exists r, s'. exact Hm.
Defined.

(** X18 at work: the payout of the history is the stake of Alice, and the
    contract is 5 lighter for it. *)
Lemma payout_is_principal_witness :
  trace_from (constructor 0 false) (history one_paid_script genesis) one_paid
  /\ (from_ bob, Fulfill 0 cleartext5 good_proof, paid5)
       ∈ history one_paid_script genesis
  /\ exists id a v txs rs sa sb,
      (txs, Stake v, rs) ∈ history one_paid_script genesis
      /\ returned rs = id
      /\ payout paid5 = Some (a, v)
      /\ exec (from_ bob) (Fulfill 0 cleartext5 good_proof) sa
         = Ok (paid5, sb)
      /\ ethBalance sb = ethBalance sa - v.
Proof.
  assert ((from_ bob, Fulfill 0 cleartext5 good_proof, paid5)
            ∈ history one_paid_script genesis) as Hin.
  { vm_compute. do 2 apply list_elem_of_further. apply list_elem_of_here. }
  split; [exact one_paid_history|]. split; [exact Hin|].
  destruct (payout_is_principal 0 false _ one_paid one_paid_history _ _ _ _ _
              Hin)
    as (id & a & v & txs & rs & txr & rr & H1 & H2 & _ & _ & _ & H6 & _ & _
        & before & sa & sb & _ & Hm & Hbal).
  exists id, a, v, txs, rs, sa, sb.
  split; [exact H1|]. split; [exact H2|]. split; [exact H6|].
  split; [exact Hm|exact Hbal].
Defined.

(** X19 at work: Alice stakes 5, redeems and is paid her 5. *)
Lemma stake_round_trip_witness :
  trace_from (constructor 0 false) [] genesis
  /\ exists r3 s3,
      exec (from_ bob) (Fulfill 0 cleartext5 good_proof) one_pending
      = Ok (r3, s3)
      /\ payout r3 = Some (alice, 5)
      /\ ethBalance s3 = 0.
Proof.
  assert (trace_from (constructor 0 false) [] genesis) as Htr by constructor.
  split; [exact Htr|].
  assert (exists r1, exec (from_ alice) (Stake 5) genesis = Ok (r1, one_staked)
                     /\ returned r1 = 1)
    as (r1 & Hm1 & Hr1) by (eexists; split; vm_compute; reflexivity).
  assert (exists r2, exec (from_ alice) (Redeem 1) one_staked
                     = Ok (r2, one_pending) /\ returned r2 = 0)
    as (r2 & Hm2 & Hr2) by (eexists; split; vm_compute; reflexivity).
  rewrite <- Hr1 in Hm2.
  destruct (stake_round_trip 0 false [] genesis (from_ alice) 5 r1 one_staked
              (from_ alice) r2 one_pending (from_ bob) cleartext5 good_proof
              Htr)
    as (r3 & s3 & Hm3 & Hpay & _ & Hbal);
    [by vm_compute|exact Hm1|exact Hm2|left; by vm_compute|
     rewrite Hr2; by vm_compute|reflexivity|].
  rewrite Hr2 in Hm3. exists r3, s3.
  split; [exact Hm3|]. split; [exact Hpay|exact Hbal].
Defined.

(** X20 at work: Alice redeems certificate 1. *)
Lemma authorized_redeem_succeeds_witness :
  reachable one_staked
  /\ _ownerOf 1 (token one_staked) <> 0
  /\ exists r s',
      exec (from_ alice) (Redeem 1) one_staked = Ok (r, s')
      /\ returned r = 0
      /\ _ownerOf 1 (token s') = 0.
Proof.
  assert (_ownerOf 1 (token one_staked) <> 0) as Hown by (by vm_compute).
  split; [apply one_staked_reachable|]. split; [exact Hown|].
  assert (exists f', requestDecryption
                       [sload 0 (_encryptedStakes one_staked) 1]
                       (fheStore one_staked) = Some (0, f'))
    as (f' & Hreq) by (eexists; vm_compute; reflexivity).
  destruct (authorized_redeem_succeeds one_staked (from_ alice) 1 0 f'
              one_staked_reachable Hown)
    as (r & s' & Hm & Hr & _ & Ho & _);
    [by vm_compute|by vm_compute|exact Hreq|].
  exists r, s'. split; [exact Hm|]. split; [exact Hr|exact Ho].
Defined.

(** X21 at work: Alice hands certificate 1 to Bob and can no longer redeem
    it. *)
Lemma transfer_moves_the_claim_witness :
  reachable one_staked
  /\ exists r s',
      exec (from_ alice) (TransferFrom alice bob 1) one_staked = Ok (r, s')
      /\ _ownerOf 1 (token s') = bob
      /\ call (from_ alice) (Redeem 1) s' = (s', Reverted Unauthorized).
Proof.
  split; [apply one_staked_reachable|].
  assert (exists r s', exec (from_ alice) (TransferFrom alice bob 1) one_staked
                       = Ok (r, s'))
    as (r & s' & Hm) by (do 2 eexists; vm_compute; reflexivity).
  destruct (transfer_moves_the_claim one_staked (from_ alice)
              (TransferFrom alice bob 1) alice bob 1
              r s' one_staked_reachable) as (_ & _ & Ho & _ & _ & _ & Hrej & _);
    [by vm_compute|by left|exact Hm|].
  exists r, s'. split; [exact Hm|]. split; [exact Ho|].
  apply Hrej; [reflexivity|by vm_compute|by vm_compute].
Defined.

(** X22 at work: Alice redeems certificate 1, certificate 2 of Bob is as it
    was. *)
Lemma calls_touch_one_certificate_witness :
  reachable two_staked
  /\ _ownerOf 2 (token alice_pending) = _ownerOf 2 (token two_staked)
  /\ isTokenPending 2 alice_pending = isTokenPending 2 two_staked.
Proof.
  split; [apply two_staked_reachable|].
  assert (exists r, exec (from_ alice) (Redeem 1) two_staked
                    = Ok (r, alice_pending))
    as (r & Hm) by (eexists; vm_compute; reflexivity).
  destruct (calls_touch_one_certificate two_staked (from_ alice) (Redeem 1) r
              alice_pending 2 two_staked_reachable)
    as (Ho & _ & _ & Hfl & _); [by vm_compute|exact Hm|by intros [=]|].
  split; [exact Ho|exact Hfl].
Defined.

(** X23 at work: certificate 1, redeemed and paid, cannot be transferred. *)
Lemma redeemed_certificate_is_gone_witness :
  reachable one_staked
  /\ _ownerOf 1 (token one_paid) = 0
  /\ exists e, call (from_ alice) (TransferFrom alice bob 1) one_paid
               = (one_paid, Reverted e).
Proof.
  split; [apply one_staked_reachable|].
  assert (exists r, exec (from_ alice) (Redeem 1) one_staked
                    = Ok (r, one_pending))
    as (r & Hm) by (eexists; vm_compute; reflexivity).
  assert (trace_from one_pending
            [(from_ bob, Fulfill 0 cleartext5 good_proof, paid5)] one_paid)
    as Htr.
  { apply trace_step; [by vm_compute|exact one_paid_step]. }
  destruct (redeemed_certificate_is_gone one_staked (from_ alice) 1 r
              one_pending _ one_paid one_staked_reachable Hm Htr)
    as (Ho & _ & Hrej).
  split; [exact Ho|]. apply Hrej; [by vm_compute|].
  left. exists alice, bob. by left.
Defined.
